(** * The heap-file layer of heapfile.cpp, embedded and verified

    A shallow embedding of [src/heapFiles/heapfile.cpp]: the file lifecycle
    ([createHeapFile], [destroyHeapFile]), the base handle [HeapFile], the
    filtered scan [HeapFileScan] and the appending [InsertFileScan].

    The C++ code works on three global or shared objects: the database of
    files ([db]), the buffer manager ([bufMgr]) and the handle ([this]).
    Here the first two are one value of type [World], threaded through every
    call, and the handle is a record of type [HeapFile].  An output
    parameter of a C++ function is an argument holding its value at entry
    and a component of the result holding its value at exit; a local
    variable that the code reads before writing it is an argument holding
    its indeterminate value.  Behaviour that C++ leaves undefined (a call
    through a null page pointer, a header page read as a data page) is the
    result [None]. *)

From Stdlib Require Import ZArith Lia.
From Stdlib Require Import Strings.Byte.
From stdpp Require Import base option gmap strings list.

Open Scope Z_scope.

(** ** Machine integers *)

(** A C++ [int] is 32 bits wide; [wrap_int] is the value an arithmetic
    result takes once it is stored in one (two's complement wrap-around),
    [to_unsigned] is the cast [(unsigned int)]. *)
Definition wrap_int (z : Z) : Z := (z + 2 ^ 31) mod 2 ^ 32 - 2 ^ 31.

Definition to_unsigned (z : Z) : Z := z mod 2 ^ 32.

Definition int_range (z : Z) : Prop := - 2 ^ 31 <= z < 2 ^ 31.

(** ** Status codes, record identifiers, records *)

(** The codes of error.h that the heap-file layer returns or receives.  The
    first nine are named in heapfile.cpp or by the page layer's contract;
    the others are statuses of the buffer manager and of the file layer,
    which the code passes on unchanged. *)
Inductive Status :=
  | OK | BADFILE | FILEEXISTS | BADSCANPARM | NOSPACE | INVALIDRECLEN
  | FILEEOF | NORECORDS | ENDOFPAGE
  | INVALIDSLOTNO | BADPAGENO | PAGENOTPINNED | HASHNOTFOUND
  | BUFFEREXCEEDED | UNIXERR | FILEOPEN | FILENOTOPEN.

#[global] Instance Status_eq_dec : EqDecision Status.
Proof. solve_decision. Defined.

Record RID := mkRID { pageNo : Z; slotNo : Z }.

#[global] Instance RID_eq_dec : EqDecision RID.
Proof. solve_decision. Defined.

(** [NULLRID] is declared in the page layer's header; both components are
    the sentinel -1 of the page-number space. *)
Definition NULLRID : RID := {| pageNo := -1; slotNo := -1 |}.

(** [struct Record { void* data; int length; }]: the bytes [data] points
    to and the length the record states. *)
Record Record_t := mkRecord { rec_data : list byte; rec_length : Z }.

Inductive Datatype := STRING | INTEGER | FLOAT | Datatype_other (raw : Z).

Inductive Operator := LT | LTE | EQ | GTE | GT | NE | Operator_other (raw : Z).

#[global] Instance Datatype_eq_dec : EqDecision Datatype.
Proof. solve_decision. Defined.

#[global] Instance Operator_eq_dec : EqDecision Operator.
Proof. solve_decision. Defined.

(** ** What the absent headers fix *)

(** The constants that heapfile.cpp takes from headers that are not in the
    repository ([MAXNAMESIZE], [PAGESIZE], [DPFIXED]) and the bytes one slot
    directory entry costs in the page layer ([SLOTSIZE]). *)
Class Env := {
  MAXNAMESIZE : Z;
  PAGESIZE : Z;
  DPFIXED : Z;
  SLOTSIZE : Z
}.

Definition sizeof_int : Z := 4.

Definition sizeof_float : Z := 4.

(** ** The page layer *)

(** Modelled from the spec: the page layer (class [Page]; its source is not
    in the repository), as section 6 of the spec gives its operations.  A
    page knows its own number and the number of the next page, -1 at the
    end of a chain; its slot directory is a list, slot [i] being record
    [i] or [None] once deleted.  [init] leaves [PAGESIZE - DPFIXED] bytes
    free, the spec's space of an empty page; a record costs its length
    plus [SLOTSIZE], and is refused with [NOSPACE] when that exceeds the
    free space.  Operations address a record by the slot number of the
    RID; the RIDs they return carry the page's own number.  A new record
    takes a new slot at the end of the directory. *)
Record Page := mkPage {
  pg_curPage : Z;
  pg_nextPage : Z;
  pg_slots : list (option Record_t);
  pg_freeSpace : Z
}.

Definition slot_at (p : Page) (slot : Z) : option Record_t :=
  if 0 <=? slot then mjoin (pg_slots p !! Z.to_nat slot) else None.

(** The first live slot at position [i] or after it. *)
Fixpoint next_live (slots : list (option Record_t)) (i : nat) : option nat :=
  match slots with
  | [] => None
  | s :: rest =>
      match i with
      | O => match s with
             | Some _ => Some O
             | None => S <$> next_live rest O
             end
      | S i' => S <$> next_live rest i'
      end
  end.

Definition live_count (p : Page) : nat :=
  length (omap id (pg_slots p)).

Section PageLayer.
Context `{E : Env}.

Definition Page_init (pageNo : Z) : Page :=
  {| pg_curPage := pageNo; pg_nextPage := -1; pg_slots := [];
     pg_freeSpace := PAGESIZE - DPFIXED |}.

Definition Page_insertRecord (p : Page) (rec : Record_t) (rid : RID)
  : Status * Page * RID :=
  if rec_length rec + SLOTSIZE <=? pg_freeSpace p then
    (OK,
     {| pg_curPage := pg_curPage p; pg_nextPage := pg_nextPage p;
        pg_slots := pg_slots p ++ [Some rec];
        pg_freeSpace := pg_freeSpace p - (rec_length rec + SLOTSIZE) |},
     {| pageNo := pg_curPage p; slotNo := Z.of_nat (length (pg_slots p)) |})
  else (NOSPACE, p, rid).

Definition Page_deleteRecord (p : Page) (rid : RID) : Status * Page :=
  match slot_at p (slotNo rid) with
  | Some rec =>
      (OK,
       {| pg_curPage := pg_curPage p; pg_nextPage := pg_nextPage p;
          pg_slots := <[Z.to_nat (slotNo rid) := None]> (pg_slots p);
          pg_freeSpace := pg_freeSpace p + (rec_length rec + SLOTSIZE) |})
  | None => (INVALIDSLOTNO, p)
  end.

End PageLayer.

Definition Page_getRecord (p : Page) (rid : RID) (rec : Record_t)
  : Status * Record_t :=
  match slot_at p (slotNo rid) with
  | Some r => (OK, r)
  | None => (INVALIDSLOTNO, rec)
  end.

Definition Page_firstRecord (p : Page) (firstRid : RID) : Status * RID :=
  match next_live (pg_slots p) O with
  | Some i => (OK, {| pageNo := pg_curPage p; slotNo := Z.of_nat i |})
  | None => (NORECORDS, firstRid)
  end.

Definition Page_nextRecord (p : Page) (curRid : RID) (nextRid : RID)
  : Status * RID :=
  match next_live (pg_slots p) (Z.to_nat (slotNo curRid + 1)) with
  | Some i => (OK, {| pageNo := pg_curPage p; slotNo := Z.of_nat i |})
  | None => (ENDOFPAGE, nextRid)
  end.

Definition Page_getNextPage (p : Page) : Z := pg_nextPage p.

Definition Page_setNextPage (p : Page) (next : Z) : Page :=
  {| pg_curPage := pg_curPage p; pg_nextPage := next;
     pg_slots := pg_slots p; pg_freeSpace := pg_freeSpace p |}.

(** ** The header page *)

(** [struct FileHdrPage] of heapfile.h, without its padding. *)
Record FileHdrPage := mkHdr {
  fileName : string;
  firstPage : Z;
  lastPage : Z;
  pageCnt : Z;
  recCnt : Z
}.

Definition zero_hdr : FileHdrPage :=
  {| fileName := ""; firstPage := 0; lastPage := 0; pageCnt := 0; recCnt := 0 |}.

(** ** Files and the buffer manager *)

(** What a page-sized buffer holds: nothing yet, a header page or a data
    page.  The code reaches both kinds through casts of one [Page*]; the
    embedding does not give a header page a reading as a data page, nor the
    converse.  A page that was allocated and not written yet reads as a
    zero-filled header. *)
Inductive PageBuf :=
  | RawPage
  | HdrPage (h : FileHdrPage)
  | DataPage (p : Page).

Definition as_hdr (b : PageBuf) : option FileHdrPage :=
  match b with
  | RawPage => Some zero_hdr
  | HdrPage h => Some h
  | DataPage _ => None
  end.

Definition as_page (b : PageBuf) : option Page :=
  match b with
  | DataPage p => Some p
  | _ => None
  end.

(** Modelled from the spec: the file layer ([db], class [File]) and the buffer
    manager ([bufMgr]), whose sources are not in the repository, as section
    6 of the spec gives their operations.  A file is the sequence of its
    pages, page [k] at position [k], the first page being page 0; each page
    is kept with the number of pins on it and the dirty mark of its frame.
    There is one copy of a page: what a handle writes through a page
    pointer is what every later [readPage] of that page sees.  The pool has
    [numBufs] frames; pinning a page that nobody pins needs a free frame,
    and fails with [BUFFEREXCEEDED] when every frame holds a pinned page.
    A [File*] is the name of the file; a [Page*] obtained from the buffer
    manager is the number of the page it points to. *)
Record Frame := mkFrame {
  fr_buf : PageBuf;
  fr_pinCnt : nat;
  fr_dirty : bool
}.

Record File := mkFile {
  f_frames : list Frame;
  f_openCnt : nat
}.

Record World := mkWorld {
  db : gmap string File;
  numBufs : nat
}.

Definition pinned_in (f : File) : nat :=
  length (filter (λ fr, fr_pinCnt fr ≠ O) (f_frames f)).

Definition pinned_frames (w : World) : nat :=
  map_fold (λ _ f n, (pinned_in f + n)%nat) O (db w).

Definition set_file (w : World) (name : string) (f : File) : World :=
  {| db := <[name := f]> (db w); numBufs := numBufs w |}.

Definition frame_at (w : World) (file : string) (pageNo : Z) : option Frame :=
  f ← db w !! file;
  if 0 <=? pageNo then f_frames f !! Z.to_nat pageNo else None.

Definition set_frame (w : World) (file : string) (pageNo : Z) (fr : Frame)
  : World :=
  match db w !! file with
  | Some f =>
      set_file w file
        {| f_frames := <[Z.to_nat pageNo := fr]> (f_frames f);
           f_openCnt := f_openCnt f |}
  | None => w
  end.

Definition db_createFile (w : World) (name : string) : Status * World :=
  match db w !! name with
  | Some _ => (FILEEXISTS, w)
  | None => (OK, set_file w name {| f_frames := []; f_openCnt := O |})
  end.

Definition db_openFile (w : World) (name : string) : Status * World :=
  match db w !! name with
  | Some f =>
      (OK, set_file w name
             {| f_frames := f_frames f; f_openCnt := S (f_openCnt f) |})
  | None => (UNIXERR, w)
  end.

Definition db_closeFile (w : World) (file : string) : Status * World :=
  match db w !! file with
  | Some f =>
      match f_openCnt f with
      | O => (FILENOTOPEN, w)
      | S n => (OK, set_file w file
                      {| f_frames := f_frames f; f_openCnt := n |})
      end
  | None => (BADFILE, w)
  end.

Definition db_destroyFile (w : World) (name : string) : Status * World :=
  match db w !! name with
  | Some f =>
      match f_openCnt f with
      | O => (OK, {| db := delete name (db w); numBufs := numBufs w |})
      | S _ => (FILEOPEN, w)
      end
  | None => (UNIXERR, w)
  end.

Definition File_getFirstPage (w : World) (file : string) (pageNo : Z)
  : Status * Z :=
  match db w !! file with
  | Some f => (OK, match f_frames f with [] => -1 | _ => 0 end)
  | None => (BADFILE, pageNo)
  end.

Definition bufMgr_allocPage (w : World) (file : string) (pageNo : Z)
  : Status * World * Z :=
  match db w !! file with
  | Some f =>
      if bool_decide (pinned_frames w < numBufs w)%nat then
        (OK,
         set_file w file
           {| f_frames := f_frames f ++
                [{| fr_buf := RawPage; fr_pinCnt := 1; fr_dirty := false |}];
              f_openCnt := f_openCnt f |},
         Z.of_nat (length (f_frames f)))
      else (BUFFEREXCEEDED, w, pageNo)
  | None => (BADFILE, w, pageNo)
  end.

Definition bufMgr_readPage (w : World) (file : string) (PageNo : Z)
  : Status * World :=
  match frame_at w file PageNo with
  | Some fr =>
      if bool_decide (fr_pinCnt fr ≠ O ∨ (pinned_frames w < numBufs w)%nat) then
        (OK, set_frame w file PageNo
               {| fr_buf := fr_buf fr; fr_pinCnt := S (fr_pinCnt fr);
                  fr_dirty := fr_dirty fr |})
      else (BUFFEREXCEEDED, w)
  | None => (BADPAGENO, w)
  end.

Definition bufMgr_unPinPage (w : World) (file : string) (PageNo : Z)
  (dirty : bool) : Status * World :=
  match frame_at w file PageNo with
  | Some fr =>
      match fr_pinCnt fr with
      | O => (PAGENOTPINNED, w)
      | S n =>
          (OK, set_frame w file PageNo
                 {| fr_buf := fr_buf fr; fr_pinCnt := n;
                    fr_dirty := dirty || fr_dirty fr |})
      end
  | None => (HASHNOTFOUND, w)
  end.

(** Reading and writing through a page pointer. *)
Definition page_at (w : World) (file : string) (ptr : Z) : option Page :=
  fr ← frame_at w file ptr; as_page (fr_buf fr).

Definition hdr_at (w : World) (file : string) (ptr : Z) : option FileHdrPage :=
  fr ← frame_at w file ptr; as_hdr (fr_buf fr).

Definition write_buf (w : World) (file : string) (ptr : Z) (b : PageBuf)
  : World :=
  match frame_at w file ptr with
  | Some fr =>
      set_frame w file ptr
        {| fr_buf := b; fr_pinCnt := fr_pinCnt fr; fr_dirty := fr_dirty fr |}
  | None => w
  end.

(** ** The heap-file handle *)

(** The data members of class [HeapFile] and of its subclass
    [HeapFileScan] ([InsertFileScan] adds none).  [headerPage] and
    [curPage] are page pointers: [curPage] is [None] when null; the header
    pointer is the number of the page it points to.  The members [offset],
    [length], [type], [filter] and [op] of the scan carry the prefix [p_]
    ([length] and [filter] are functions on lists here); [p_filter] is
    [None] for a null filter. *)
Record HeapFile := mkHeapFile {
  filePtr : string;
  headerPage : Z;
  headerPageNo : Z;
  hdrDirtyFlag : bool;
  curPage : option Z;
  curPageNo : Z;
  curDirtyFlag : bool;
  curRec : RID;
  p_offset : Z;
  p_length : Z;
  p_type : Datatype;
  p_filter : option (list byte);
  p_op : Operator;
  markedPageNo : Z;
  markedRec : RID
}.

Definition set_filePtr (v : string) (h : HeapFile) : HeapFile :=
  mkHeapFile v (headerPage h) (headerPageNo h) (hdrDirtyFlag h) (curPage h)
    (curPageNo h) (curDirtyFlag h) (curRec h) (p_offset h) (p_length h)
    (p_type h) (p_filter h) (p_op h) (markedPageNo h) (markedRec h).

Definition set_headerPage (v : Z) (h : HeapFile) : HeapFile :=
  mkHeapFile (filePtr h) v (headerPageNo h) (hdrDirtyFlag h) (curPage h)
    (curPageNo h) (curDirtyFlag h) (curRec h) (p_offset h) (p_length h)
    (p_type h) (p_filter h) (p_op h) (markedPageNo h) (markedRec h).

Definition set_headerPageNo (v : Z) (h : HeapFile) : HeapFile :=
  mkHeapFile (filePtr h) (headerPage h) v (hdrDirtyFlag h) (curPage h)
    (curPageNo h) (curDirtyFlag h) (curRec h) (p_offset h) (p_length h)
    (p_type h) (p_filter h) (p_op h) (markedPageNo h) (markedRec h).

Definition set_hdrDirtyFlag (v : bool) (h : HeapFile) : HeapFile :=
  mkHeapFile (filePtr h) (headerPage h) (headerPageNo h) v (curPage h)
    (curPageNo h) (curDirtyFlag h) (curRec h) (p_offset h) (p_length h)
    (p_type h) (p_filter h) (p_op h) (markedPageNo h) (markedRec h).

Definition set_curPage (v : option Z) (h : HeapFile) : HeapFile :=
  mkHeapFile (filePtr h) (headerPage h) (headerPageNo h) (hdrDirtyFlag h) v
    (curPageNo h) (curDirtyFlag h) (curRec h) (p_offset h) (p_length h)
    (p_type h) (p_filter h) (p_op h) (markedPageNo h) (markedRec h).

Definition set_curPageNo (v : Z) (h : HeapFile) : HeapFile :=
  mkHeapFile (filePtr h) (headerPage h) (headerPageNo h) (hdrDirtyFlag h)
    (curPage h) v (curDirtyFlag h) (curRec h) (p_offset h) (p_length h)
    (p_type h) (p_filter h) (p_op h) (markedPageNo h) (markedRec h).

Definition set_curDirtyFlag (v : bool) (h : HeapFile) : HeapFile :=
  mkHeapFile (filePtr h) (headerPage h) (headerPageNo h) (hdrDirtyFlag h)
    (curPage h) (curPageNo h) v (curRec h) (p_offset h) (p_length h)
    (p_type h) (p_filter h) (p_op h) (markedPageNo h) (markedRec h).

Definition set_curRec (v : RID) (h : HeapFile) : HeapFile :=
  mkHeapFile (filePtr h) (headerPage h) (headerPageNo h) (hdrDirtyFlag h)
    (curPage h) (curPageNo h) (curDirtyFlag h) v (p_offset h) (p_length h)
    (p_type h) (p_filter h) (p_op h) (markedPageNo h) (markedRec h).

Definition set_filter (v : option (list byte)) (h : HeapFile) : HeapFile :=
  mkHeapFile (filePtr h) (headerPage h) (headerPageNo h) (hdrDirtyFlag h)
    (curPage h) (curPageNo h) (curDirtyFlag h) (curRec h) (p_offset h)
    (p_length h) (p_type h) v (p_op h) (markedPageNo h) (markedRec h).

(** The five assignments that end a successful [startScan]. *)
Definition set_predicate (offset_ length_ : Z) (type_ : Datatype)
  (filter_ : option (list byte)) (op_ : Operator) (h : HeapFile) : HeapFile :=
  mkHeapFile (filePtr h) (headerPage h) (headerPageNo h) (hdrDirtyFlag h)
    (curPage h) (curPageNo h) (curDirtyFlag h) (curRec h) offset_ length_
    type_ filter_ op_ (markedPageNo h) (markedRec h).

(** The two assignments of [markScan]. *)
Definition set_marked (pno : Z) (rid : RID) (h : HeapFile) : HeapFile :=
  mkHeapFile (filePtr h) (headerPage h) (headerPageNo h) (hdrDirtyFlag h)
    (curPage h) (curPageNo h) (curDirtyFlag h) (curRec h) (p_offset h)
    (p_length h) (p_type h) (p_filter h) (p_op h) pno rid.

(** [curPage->...] and [headerPage->...]: the page a handle's pointer
    points to; undefined through a null pointer or a pointer to a buffer of
    the other kind. *)
Definition cur_page (w : World) (this : HeapFile) : option Page :=
  ptr ← curPage this; page_at w (filePtr this) ptr.

Definition set_cur_page (w : World) (this : HeapFile) (p : Page) : option World :=
  ptr ← curPage this;
  Some (write_buf w (filePtr this) ptr (DataPage p)).

Definition header (w : World) (this : HeapFile) : option FileHdrPage :=
  hdr_at w (filePtr this) (headerPage this).

Definition set_header (w : World) (this : HeapFile) (hdr : FileHdrPage) : World :=
  write_buf w (filePtr this) (headerPage this) (HdrPage hdr).

Definition hdr_set_fileName (v : string) (hdr : FileHdrPage) : FileHdrPage :=
  mkHdr v (firstPage hdr) (lastPage hdr) (pageCnt hdr) (recCnt hdr).

Definition hdr_set_firstPage (v : Z) (hdr : FileHdrPage) : FileHdrPage :=
  mkHdr (fileName hdr) v (lastPage hdr) (pageCnt hdr) (recCnt hdr).

Definition hdr_set_lastPage (v : Z) (hdr : FileHdrPage) : FileHdrPage :=
  mkHdr (fileName hdr) (firstPage hdr) v (pageCnt hdr) (recCnt hdr).

Definition hdr_set_pageCnt (v : Z) (hdr : FileHdrPage) : FileHdrPage :=
  mkHdr (fileName hdr) (firstPage hdr) (lastPage hdr) v (recCnt hdr).

Definition hdr_set_recCnt (v : Z) (hdr : FileHdrPage) : FileHdrPage :=
  mkHdr (fileName hdr) (firstPage hdr) (lastPage hdr) (pageCnt hdr) v.

(** ** The predicate matcher *)

(** The value of an [int] whose bytes, lowest first, are those of the list:
    what [memcpy] into an [int] yields on a little-endian machine.  Both
    operands of a comparison are read this way.  A byte the source buffer
    does not have reads as 0.  [startScan] admits an [INTEGER] or [FLOAT]
    predicate only with a length of 4 bytes; for another length [n] the
    value is that of the [n] bytes copied. *)
Fixpoint le_value (bs : list byte) : Z :=
  match bs with
  | [] => 0
  | b :: rest => Z.of_N (Byte.to_N b) + 256 * le_value rest
  end.

Definition memcpy_int (src : list byte) (n : Z) : Z :=
  wrap_int (le_value (take (Z.to_nat n) src)).

(** [strncmp]: the difference of the first pair of bytes that differ among
    the first [n], bytes read as [unsigned char], stopping after a NUL. *)
Fixpoint strncmp (s1 s2 : list byte) (n : nat) : Z :=
  match n with
  | O => 0
  | S n' =>
      let c1 := hd x00 s1 in
      let c2 := hd x00 s2 in
      if negb (Byte.eqb c1 c2) then Z.of_N (Byte.to_N c1) - Z.of_N (Byte.to_N c2)
      else if Byte.eqb c1 x00 then 0
      else strncmp (tl s1) (tl s2) n'
  end.

(** The sign of a [float], which is all that [matchRec] reads of its
    variable [diff]: how it compares with 0.0 ([FNaN] compares unequal and
    unordered). *)
Inductive fsign := FNeg | FZero | FPos | FNaN.

Definition sign_of (z : Z) : fsign :=
  if z <? 0 then FNeg else if z =? 0 then FZero else FPos.

(** The conversion of an [int] to [float] rounds to a nearest float, which
    has the sign of the integer and is zero only for 0. *)
Definition float_of_int (z : Z) : fsign := sign_of z.

(** A single-precision float (IEEE 754 binary32): not a number, an
    infinity, or a finite value, kept as the integer [scaled] that is the
    value times 2^149. *)
Inductive float32 :=
  | F_nan
  | F_inf (neg : bool)
  | F_fin (scaled : Z).

Definition float_of_bits (bits : Z) : float32 :=
  let s := Z.testbit bits 31 in
  let e := Z.land (Z.shiftr bits 23) 255 in
  let m := Z.land bits (2 ^ 23 - 1) in
  if e =? 255 then (if m =? 0 then F_inf s else F_nan)
  else
    let mag := if e =? 0 then m else (m + 2 ^ 23) * 2 ^ (e - 1) in
    F_fin (if s then - mag else mag).

Definition memcpy_float (src : list byte) (n : Z) : float32 :=
  float_of_bits (le_value (take (Z.to_nat n) src) mod 2 ^ 32).

(** The sign of the float [a - b]: the rounding of a difference keeps its
    sign, and a difference of distinct finite floats is not rounded to
    zero. *)
Definition float_sub (a b : float32) : fsign :=
  match a, b with
  | F_nan, _ | _, F_nan => FNaN
  | F_inf s1, F_inf s2 =>
      if Bool.eqb s1 s2 then FNaN else if s1 then FNeg else FPos
  | F_inf s, F_fin _ => if s then FNeg else FPos
  | F_fin _, F_inf s => if s then FPos else FNeg
  | F_fin x, F_fin y => sign_of (x - y)
  end.

Section HeapFiles.
Context `{E : Env}.

Definition matchRec (this : HeapFile) (rec : Record_t) : bool :=
  match p_filter this with
  | None => true
  | Some filter =>
      if bool_decide (wrap_int (p_offset this + p_length this - 1) >= rec_length rec)
      then false
      else
        let diff := FZero in
        let diff :=
          match p_type this with
          | INTEGER =>
              let iattr :=
                memcpy_int (drop (Z.to_nat (p_offset this)) (rec_data rec))
                  (p_length this) in
              let ifltr := memcpy_int filter (p_length this) in
              float_of_int (wrap_int (iattr - ifltr))
          | FLOAT =>
              let fattr :=
                memcpy_float (drop (Z.to_nat (p_offset this)) (rec_data rec))
                  (p_length this) in
              let ffltr := memcpy_float filter (p_length this) in
              float_sub fattr ffltr
          | STRING =>
              float_of_int
                (strncmp (drop (Z.to_nat (p_offset this)) (rec_data rec))
                   filter (Z.to_nat (p_length this)))
          | Datatype_other _ => diff
          end in
        match p_op this with
        | LT => match diff with FNeg => true | _ => false end
        | LTE => match diff with FNeg | FZero => true | _ => false end
        | EQ => match diff with FZero => true | _ => false end
        | GTE => match diff with FZero | FPos => true | _ => false end
        | GT => match diff with FPos => true | _ => false end
        | NE => match diff with FZero => false | _ => true end
        | Operator_other _ => false
        end
  end.

(** ** File lifecycle *)

Definition createHeapFile (w : World) (fileName : string)
  : option (World * Status) :=
  if bool_decide (Z.of_nat (String.length fileName) > MAXNAMESIZE - 1)
  then Some (w, BADFILE)
  else
    let '(status, w) := db_openFile w fileName in
    if decide (status ≠ OK) then
      let '(status, w) := db_createFile w fileName in
      if decide (status ≠ OK) then Some (w, status) else
      let '(status, w) := db_openFile w fileName in
      if decide (status ≠ OK) then Some (w, status) else
      let '(status, w, hdrPageNo) := bufMgr_allocPage w fileName 0 in
      if decide (status ≠ OK) then Some (w, status) else
      hdrPage ← hdr_at w fileName hdrPageNo;
      let w := write_buf w fileName hdrPageNo
                 (HdrPage (hdr_set_fileName fileName hdrPage)) in
      let '(status, w, newPageNo) := bufMgr_allocPage w fileName 0 in
      if decide (status ≠ OK) then Some (w, status) else
      let w := write_buf w fileName newPageNo (DataPage (Page_init newPageNo)) in
      hdrPage ← hdr_at w fileName hdrPageNo;
      let w := write_buf w fileName hdrPageNo
                 (HdrPage (hdr_set_recCnt 0 (hdr_set_pageCnt 1
                    (hdr_set_lastPage newPageNo
                       (hdr_set_firstPage newPageNo hdrPage))))) in
      let '(status, w) := bufMgr_unPinPage w fileName newPageNo true in
      if decide (status ≠ OK) then Some (w, status) else
      let '(status, w) := bufMgr_unPinPage w fileName hdrPageNo true in
      if decide (status ≠ OK) then Some (w, status) else
      Some (w, OK)
    else Some (w, FILEEXISTS).

Definition destroyHeapFile (w : World) (fileName : string) : Status * World :=
  db_destroyFile w fileName.

(** ** HeapFile *)

(** The constructor.  [this] holds the indeterminate members of the object
    under construction and [returnStatus] the caller's variable, which the
    constructor assigns on its failure paths only. *)
Definition HeapFile_ctor (w : World) (fileName : string) (this : HeapFile)
  (returnStatus : Status) : option (World * HeapFile * Status) :=
  let '(status, w) := db_openFile w fileName in
  if decide (status = OK) then
    let this := set_filePtr fileName this in
    let '(status, hdrPageNo) := File_getFirstPage w (filePtr this) 0 in
    if decide (status ≠ OK) then Some (w, this, status) else
    let '(status, w) := bufMgr_readPage w (filePtr this) hdrPageNo in
    if decide (status ≠ OK) then Some (w, this, status) else
    let this := set_headerPage hdrPageNo this in
    let this := set_headerPageNo hdrPageNo this in
    let this := set_hdrDirtyFlag false this in
    hdr ← header w this;
    let '(status, w) := bufMgr_readPage w (filePtr this) (firstPage hdr) in
    if decide (status ≠ OK) then Some (w, this, status) else
    let this := set_curPage (Some (firstPage hdr)) this in
    let this := set_curPageNo (firstPage hdr) this in
    let this := set_curDirtyFlag false this in
    let this := set_curRec NULLRID this in
    Some (w, this, returnStatus)
  else Some (w, this, status).

Definition HeapFile_dtor (w : World) (this : HeapFile) : option (World * HeapFile) :=
  _ ← header w this;
  let '(w, this) :=
    match curPage this with
    | Some _ =>
        let '(status, w) :=
          bufMgr_unPinPage w (filePtr this) (curPageNo this) (curDirtyFlag this) in
        (w, set_curDirtyFlag false (set_curPageNo 0 (set_curPage None this)))
    | None => (w, this)
    end in
  let '(status, w) :=
    bufMgr_unPinPage w (filePtr this) (headerPageNo this) (hdrDirtyFlag this) in
  let '(status, w) := db_closeFile w (filePtr this) in
  Some (w, this).

Definition getRecCnt (w : World) (this : HeapFile) : option Z :=
  hdr ← header w this; Some (recCnt hdr).

Definition getRecord (w : World) (this : HeapFile) (rid : RID) (rec : Record_t)
  : option (World * HeapFile * Status * Record_t) :=
  '(w, this, page) ←
    (if decide (pageNo rid ≠ curPageNo this) then
       let '(status, w) :=
         bufMgr_unPinPage w (filePtr this) (curPageNo this) (curDirtyFlag this) in
       if decide (status ≠ OK) then Some (w, this, inl status) else
       let '(status, w) := bufMgr_readPage w (filePtr this) (pageNo rid) in
       if decide (status ≠ OK) then Some (w, this, inl status) else
       let this := set_curPageNo (pageNo rid) this in
       let this := set_curDirtyFlag false this in
       let this := set_curRec NULLRID this in
       Some (w, this, inr (Some (pageNo rid)))
     else Some (w, this, inr (curPage this)));
  match page with
  | inl status => Some (w, this, status, rec)
  | inr page =>
      ptr ← page;
      p ← page_at w (filePtr this) ptr;
      let '(status, rec) := Page_getRecord p rid rec in
      if decide (status ≠ OK) then Some (w, this, status, rec) else
      let this := set_curRec rid this in
      Some (w, this, OK, rec)
  end.

(** ** HeapFileScan *)

Definition HeapFileScan_ctor (w : World) (name : string) (this : HeapFile)
  (status : Status) : option (World * HeapFile * Status) :=
  '(w, this, status) ← HeapFile_ctor w name this status;
  Some (w, set_filter None this, status).

Definition startScan (this : HeapFile) (offset_ length_ : Z) (type_ : Datatype)
  (filter_ : option (list byte)) (op_ : Operator) : HeapFile * Status :=
  match filter_ with
  | None => (set_filter None this, OK)
  | Some _ =>
      if bool_decide
           ((offset_ < 0 ∨ length_ < 1) ∨
            (type_ ≠ STRING ∧ type_ ≠ INTEGER ∧ type_ ≠ FLOAT) ∨
            ((type_ = INTEGER ∧ length_ ≠ sizeof_int) ∨
             (type_ = FLOAT ∧ length_ ≠ sizeof_float)) ∨
            (op_ ≠ LT ∧ op_ ≠ LTE ∧ op_ ≠ EQ ∧ op_ ≠ GTE ∧ op_ ≠ GT ∧ op_ ≠ NE))
      then (this, BADSCANPARM)
      else (set_predicate offset_ length_ type_ filter_ op_ this, OK)
  end.

Definition endScan (w : World) (this : HeapFile) : World * HeapFile * Status :=
  match curPage this with
  | Some _ =>
      let '(status, w) :=
        bufMgr_unPinPage w (filePtr this) (curPageNo this) (curDirtyFlag this) in
      (w, set_curDirtyFlag false (set_curPageNo 0 (set_curPage None this)), status)
  | None => (w, this, OK)
  end.

Definition markScan (this : HeapFile) : HeapFile * Status :=
  (set_marked (curPageNo this) (curRec this) this, OK).

Definition resetScan (w : World) (this : HeapFile) : World * HeapFile * Status :=
  if decide (markedPageNo this ≠ curPageNo this) then
    let '(status, w) :=
      match curPage this with
      | Some _ =>
          bufMgr_unPinPage w (filePtr this) (curPageNo this) (curDirtyFlag this)
      | None => (OK, w)
      end in
    if decide (status ≠ OK) then (w, this, status) else
    let this := set_curPageNo (markedPageNo this) this in
    let this := set_curRec (markedRec this) this in
    let '(status, w) := bufMgr_readPage w (filePtr this) (curPageNo this) in
    if decide (status ≠ OK) then (w, this, status) else
    let this := set_curPage (Some (curPageNo this)) this in
    let this := set_curDirtyFlag false this in
    (w, this, OK)
  else (w, set_curRec (markedRec this) this, OK).

(** The local [Record rec] of [scanNext]: it is read only after a
    successful page-level [getRecord] has written it. *)
Definition no_Record : Record_t := {| rec_data := []; rec_length := 0 |}.

(** The two nested [while (true)] loops of [scanNext].  One unit of [fuel]
    is one pass through the body of the inner loop, together with the rest
    of the outer loop's body when the inner loop is left by [break].  The
    outer [None] is the loop still running when the fuel is spent; the
    inner [None] is undefined behaviour. *)
Fixpoint scanNext_loop (fuel : nat) (w : World) (this : HeapFile)
  (tmpRid nextRid : RID) : option (option (World * HeapFile * Status)) :=
  match fuel with
  | O => None
  | S fuel =>
      match cur_page w this with
      | None => Some None
      | Some page =>
          let '(status, nextRid) :=
            if bool_decide (pageNo tmpRid = pageNo NULLRID ∧
                            slotNo (curRec this) = slotNo NULLRID)
            then Page_firstRecord page nextRid
            else Page_nextRecord page tmpRid nextRid in
          if decide (status = ENDOFPAGE) then
            let nextPageNo := Page_getNextPage page in
            if decide (nextPageNo = -1) then Some (Some (w, this, FILEEOF)) else
            let '(status, w) :=
              bufMgr_unPinPage w (filePtr this) (curPageNo this)
                (curDirtyFlag this) in
            if decide (status ≠ OK) then Some (Some (w, this, status)) else
            let '(status, w) := bufMgr_readPage w (filePtr this) nextPageNo in
            if decide (status ≠ OK) then Some (Some (w, this, status)) else
            let this := set_curPageNo nextPageNo this in
            let this := set_curPage (Some nextPageNo) this in
            let this := set_curDirtyFlag false this in
            let this := set_curRec NULLRID this in
            scanNext_loop fuel w this tmpRid nextRid
          else
            let '(status, rec) := Page_getRecord page nextRid no_Record in
            if decide (status ≠ OK) then Some (Some (w, this, status)) else
            if matchRec this rec then
              Some (Some (w, set_curRec nextRid this, OK))
            else scanNext_loop fuel w this tmpRid nextRid
      end
  end.

(** [scanNext].  [outRid] is the caller's variable, [nextRid] the
    indeterminate value of the local of that name. *)
Definition scanNext (fuel : nat) (w : World) (this : HeapFile)
  (outRid : RID) (nextRid : RID)
  : option (option (World * HeapFile * Status * RID)) :=
  let tmpRid := curRec this in
  r ← scanNext_loop fuel w this tmpRid nextRid;
  Some ('(w, this, status) ← r; Some (w, this, status, outRid)).

Definition HeapFileScan_getRecord (w : World) (this : HeapFile) (rec : Record_t)
  : option (Status * Record_t) :=
  page ← cur_page w this;
  Some (Page_getRecord page (curRec this) rec).

Definition deleteRecord (w : World) (this : HeapFile)
  : option (World * HeapFile * Status) :=
  page ← cur_page w this;
  let '(status, page) := Page_deleteRecord page (curRec this) in
  w ← set_cur_page w this page;
  let this := set_curDirtyFlag true this in
  hdr ← header w this;
  let w := set_header w this (hdr_set_recCnt (wrap_int (recCnt hdr - 1)) hdr) in
  let this := set_hdrDirtyFlag true this in
  Some (w, this, status).

Definition markDirty (this : HeapFile) : HeapFile * Status :=
  (set_curDirtyFlag true this, OK).

(** The destructor of [HeapFileScan], followed by that of its base class. *)
Definition HeapFileScan_dtor (w : World) (this : HeapFile)
  : option (World * HeapFile) :=
  let '(w, this, _) := endScan w this in
  HeapFile_dtor w this.

(** ** InsertFileScan *)

Definition InsertFileScan_ctor (w : World) (name : string) (this : HeapFile)
  (status : Status) : option (World * HeapFile * Status) :=
  HeapFile_ctor w name this status.

(** The destructor of [InsertFileScan], followed by that of its base class. *)
Definition InsertFileScan_dtor (w : World) (this : HeapFile)
  : option (World * HeapFile) :=
  let '(w, this) :=
    match curPage this with
    | Some _ =>
        let '(status, w) :=
          bufMgr_unPinPage w (filePtr this) (curPageNo this) true in
        (w, set_curPageNo 0 (set_curPage None this))
    | None => (w, this)
    end in
  HeapFile_dtor w this.

(** The block of [insertRecord] under the comment "make sure we are on the
    last page" (lines 470 to 484).  The third component of the result is
    the status of an early [return], if any. *)
Definition insert_seek (w : World) (this : HeapFile)
  : option (World * HeapFile * option Status) :=
  hdr ← header w this;
  if decide (curPageNo this ≠ lastPage hdr) then
    let '(status, w) :=
      bufMgr_unPinPage w (filePtr this) (curPageNo this) (curDirtyFlag this) in
    if decide (status ≠ OK) then Some (w, this, Some status) else
    let '(status, w) := bufMgr_readPage w (filePtr this) (lastPage hdr) in
    if decide (status ≠ OK) then Some (w, this, Some status) else
    let this := set_curPage (Some (lastPage hdr)) this in
    let this := set_curPageNo (lastPage hdr) this in
    let this := set_curDirtyFlag false this in
    Some (w, this, None)
  else Some (w, this, None).

(** The block of [insertRecord] that is run when the page-level insert
    returned [NOSPACE] (lines 488 to 506), but for its last assignment,
    [newRec = true]. *)
Definition insert_grow (w : World) (this : HeapFile)
  : option (World * HeapFile * option Status) :=
  let '(status, w) :=
    bufMgr_unPinPage w (filePtr this) (curPageNo this) (curDirtyFlag this) in
  if decide (status ≠ OK) then Some (w, this, Some status) else
  let '(status, w, newPageNo) := bufMgr_allocPage w (filePtr this) 0 in
  if decide (status ≠ OK) then Some (w, this, Some status) else
  let w := write_buf w (filePtr this) newPageNo (DataPage (Page_init newPageNo)) in
  hdr ← header w this;
  let w := set_header w this (hdr_set_lastPage newPageNo hdr) in
  hdr ← header w this;
  let w := set_header w this (hdr_set_pageCnt (wrap_int (pageCnt hdr + 1)) hdr) in
  let this := set_curPage (Some newPageNo) this in
  let this := set_curPageNo newPageNo this in
  let this := set_curDirtyFlag false this in
  let this := set_curRec NULLRID this in
  Some (w, this, None).

(** [insertRecord].  [outRid] is the caller's variable, [rid] the
    indeterminate value of the local of that name. *)
Definition insertRecord (w : World) (this : HeapFile) (rec : Record_t)
  (outRid : RID) (rid : RID) : option (World * HeapFile * Status * RID) :=
  let newRec := false in
  let outRid := NULLRID in
  if bool_decide (to_unsigned (rec_length rec) > PAGESIZE - DPFIXED)
  then Some (w, this, INVALIDRECLEN, outRid)
  else
    '(w, this, early) ← insert_seek w this;
    match early with
    | Some status => Some (w, this, status, outRid)
    | None =>
        page ← cur_page w this;
        let '(status, page, rid) := Page_insertRecord page rec rid in
        w ← set_cur_page w this page;
        '(w, this, newRec, early) ←
          (if decide (status = NOSPACE) then
             '(w, this, early) ← insert_grow w this;
             Some (w, this, true, early)
           else if decide (status ≠ OK) then Some (w, this, newRec, Some status)
           else Some (w, this, newRec, None));
        match early with
        | Some status => Some (w, this, status, outRid)
        | None =>
            '(w, rid) ←
              (if (newRec : bool) then
                 page ← cur_page w this;
                 let '(status, page, rid) := Page_insertRecord page rec rid in
                 w ← set_cur_page w this page;
                 Some (w, rid)
               else Some (w, rid));
            hdr ← header w this;
            let w := set_header w this
                       (hdr_set_recCnt (wrap_int (recCnt hdr + 1)) hdr) in
            let this := set_curRec rid this in
            let this := set_curDirtyFlag true this in
            let outRid := rid in
            Some (w, this, OK, outRid)
        end
    end.

End HeapFiles.

(** ** What a file holds *)

Definition frames (w : World) (file : string) : list Frame :=
  match db w !! file with
  | Some f => f_frames f
  | None => []
  end.

Definition bufs (w : World) (file : string) : list PageBuf :=
  fr_buf <$> frames w file.

Definition buf_at (bs : list PageBuf) (ptr : Z) : option PageBuf :=
  if 0 <=? ptr then bs !! Z.to_nat ptr else None.

Definition buf_set (bs : list PageBuf) (ptr : Z) (b : PageBuf) : list PageBuf :=
  if 0 <=? ptr then <[Z.to_nat ptr := b]> bs else bs.

(** The header page of a file: the page the file layer reports as first. *)
Definition file_header (w : World) (file : string) : option FileHdrPage :=
  hdr_at w file (File_getFirstPage w file 0).2.

(** The data pages of a file, in the order of their page numbers. *)
Definition data_pages (w : World) (file : string) : list Page :=
  omap as_page (bufs w file).

(** The live records of all data pages of a file. *)
Definition live_records (w : World) (file : string) : Z :=
  Z.of_nat (sum_list (live_count <$> data_pages w file)).

(** The pages on the chain that starts at page [p] and follows the
    [nextPage] links; [fuel] bounds the walk by the number of pages. *)
Fixpoint chain (fuel : nat) (bs : list PageBuf) (p : Z) : list Z :=
  match fuel with
  | O => []
  | S fuel =>
      match buf_at bs p ≫= as_page with
      | Some pg => p :: chain fuel bs (Page_getNextPage pg)
      | None => []
      end
  end.

(** The data pages reachable from [header.firstPage]. *)
Definition reachable_pages (w : World) (file : string) : list Z :=
  match file_header w file with
  | Some hdr => chain (length (bufs w file)) (bufs w file) (firstPage hdr)
  | None => []
  end.

(** ** Sequences of operations on one file *)

Section System.
Context `{E : Env}.
Variable name : string.

(** One operation of the public interface on one of the handles that are
    open on the file [name].  A state is the world and the list of the open
    handles.  Constructors are the successful ones (the caller's status,
    [OK] at entry, is [OK] at exit); [insertRecord] and [deleteRecord] are
    the calls that return [OK]; every other operation may return any
    status.  A record handed to [insertRecord] states a length that is an
    [int]. *)
Inductive step : World * list HeapFile -> World * list HeapFile -> Prop :=
  | step_HeapFileScan_ctor w hs this w' this' :
      HeapFileScan_ctor w name this OK = Some (w', this', OK) ->
      step (w, hs) (w', hs ++ [this'])
  | step_InsertFileScan_ctor w hs this w' this' :
      InsertFileScan_ctor w name this OK = Some (w', this', OK) ->
      step (w, hs) (w', hs ++ [this'])
  | step_HeapFileScan_dtor w hs i this w' this' :
      hs !! i = Some this ->
      HeapFileScan_dtor w this = Some (w', this') ->
      step (w, hs) (w', delete i hs)
  | step_InsertFileScan_dtor w hs i this w' this' :
      hs !! i = Some this ->
      InsertFileScan_dtor w this = Some (w', this') ->
      step (w, hs) (w', delete i hs)
  | step_getRecord w hs i this rid rec w' this' st rec' :
      hs !! i = Some this ->
      getRecord w this rid rec = Some (w', this', st, rec') ->
      step (w, hs) (w', <[i := this']> hs)
  | step_startScan w hs i this offset_ length_ type_ filter_ op_ this' st :
      hs !! i = Some this ->
      startScan this offset_ length_ type_ filter_ op_ = (this', st) ->
      step (w, hs) (w, <[i := this']> hs)
  | step_endScan w hs i this w' this' st :
      hs !! i = Some this ->
      endScan w this = (w', this', st) ->
      step (w, hs) (w', <[i := this']> hs)
  | step_markScan w hs i this this' st :
      hs !! i = Some this ->
      markScan this = (this', st) ->
      step (w, hs) (w, <[i := this']> hs)
  | step_resetScan w hs i this w' this' st :
      hs !! i = Some this ->
      resetScan w this = (w', this', st) ->
      step (w, hs) (w', <[i := this']> hs)
  | step_scanNext w hs i this fuel outRid nextRid w' this' st outRid' :
      hs !! i = Some this ->
      scanNext fuel w this outRid nextRid = Some (Some (w', this', st, outRid')) ->
      step (w, hs) (w', <[i := this']> hs)
  | step_deleteRecord w hs i this w' this' :
      hs !! i = Some this ->
      deleteRecord w this = Some (w', this', OK) ->
      step (w, hs) (w', <[i := this']> hs)
  | step_markDirty w hs i this this' st :
      hs !! i = Some this ->
      markDirty this = (this', st) ->
      step (w, hs) (w, <[i := this']> hs)
  | step_insertRecord w hs i this rec outRid rid w' this' outRid' :
      hs !! i = Some this ->
      int_range (rec_length rec) ->
      insertRecord w this rec outRid rid = Some (w', this', OK, outRid') ->
      step (w, hs) (w', <[i := this']> hs).

(** The states that sequences of operations reach from the world [w1] that
    a successful [createHeapFile] left. *)
Definition reachable (w1 : World) (s : World * list HeapFile) : Prop :=
  rtc step (w1, []) s.

End System.

(** ** Concrete settings *)

(** The constants of the spec's scenario: pages of 1024 bytes of which 20
    are fixed, no cost for a slot; names of at most 49 characters. *)
Definition spec_env : Env :=
  {| MAXNAMESIZE := 50; PAGESIZE := 1024; DPFIXED := 20; SLOTSIZE := 0 |}.

(** The same page with slot directory entries of four bytes. *)
Definition slotted_env : Env :=
  {| MAXNAMESIZE := 50; PAGESIZE := 1024; DPFIXED := 20; SLOTSIZE := 4 |}.

Definition empty_world (n : nat) : World := {| db := ∅; numBufs := n |}.

(** The members of a handle before its constructor ran: some values. *)
Definition raw_object : HeapFile :=
  mkHeapFile "" 0 0 false None 0 false (mkRID 0 0) 0 0 STRING None LT 0
    (mkRID 0 0).

(** A record of [n] zero bytes. *)
Definition zero_record (n : nat) : Record_t :=
  {| rec_data := replicate n x00; rec_length := Z.of_nat n |}.

(** [n] successful calls of [insertRecord], each with the record [rec]. *)
Fixpoint insert_many `{E : Env} (n : nat) (rec : Record_t) (w : World)
  (this : HeapFile) : option (World * HeapFile) :=
  match n with
  | O => Some (w, this)
  | S n =>
      '(w, this, status, _) ← insertRecord w this rec NULLRID NULLRID;
      if decide (status = OK) then insert_many n rec w this else None
  end.

(** What the spec asks of an operator: its comparison applied to the exact
    difference [d] of attribute and filter value. *)
Definition op_on_diff (op_ : Operator) (d : Z) : bool :=
  match op_ with
  | LT => d <? 0
  | LTE => d <=? 0
  | EQ => d =? 0
  | GTE => d >=? 0
  | GT => d >? 0
  | NE => negb (d =? 0)
  | Operator_other _ => false
  end.

(** A scan whose predicate is "the [int] at offset 0 is greater than -1",
    and a record that holds the [int] 2147483647. *)
Definition scan_gt_minus_one : HeapFile :=
  (startScan raw_object 0 4 INTEGER (Some [xff; xff; xff; xff]) GT).1.

Definition record_int_max : Record_t :=
  {| rec_data := [xff; xff; xff; x7f]; rec_length := 4 |}.

(** The number of the first page of a file with the pages [bs]. *)
Definition first_page_of (bs : list PageBuf) : Z :=
  match bs with [] => -1 | _ => 0 end.

(** The live records and the data pages among the page buffers of a
    file. *)
Definition live_of (b : PageBuf) : nat :=
  match b with DataPage p => live_count p | _ => O end.

Definition data_of (b : PageBuf) : nat :=
  match b with DataPage _ => 1%nat | _ => O end.

Definition n_live (bs : list PageBuf) : nat := sum_list_with live_of bs.

Definition n_data (bs : list PageBuf) : nat := sum_list_with data_of bs.

(** The two counters of the header page against the pages of the file:
    [pageCnt] is the number of data pages and [recCnt] the number of live
    records, both as an [int] holds them. *)
Definition pages_ok (bs : list PageBuf) : Prop :=
  ∃ hdr, bs !! 0%nat = Some (HdrPage hdr) ∧
         pageCnt hdr = wrap_int (Z.of_nat (n_data bs)).

Definition recs_ok (bs : list PageBuf) : Prop :=
  ∃ hdr, bs !! 0%nat = Some (HdrPage hdr) ∧
         recCnt hdr = wrap_int (Z.of_nat (n_live bs)).

(** A handle that is open on the file [name], whose header is page 0. *)
Definition handle_of (name : string) (this : HeapFile) : Prop :=
  filePtr this = name ∧ headerPage this = 0.

(** How one operation changes the pages [bs] of a file whose header is
    page 0: not at all; or a record of a data page is deleted and the
    header's [recCnt] decremented; or a record is added to a data page and
    [recCnt] incremented; or a new page is appended on which the insert of
    the record [rec] was tried, with status [st2], and [lastPage],
    [pageCnt] and [recCnt] are updated. *)
Inductive change `{E : Env} (bs bs' : list PageBuf) : Prop :=
  | change_none :
      bs' = bs -> change bs bs'
  | change_delete ptr page page' hb hdr :
      buf_at bs ptr = Some (DataPage page) ->
      live_count page = S (live_count page') ->
      ptr ≠ 0 ->
      buf_at bs 0 = Some hb -> as_hdr hb = Some hdr ->
      bs' = buf_set (buf_set bs ptr (DataPage page')) 0
              (HdrPage (hdr_set_recCnt (wrap_int (recCnt hdr - 1)) hdr)) ->
      change bs bs'
  | change_insert ptr page page' hb hdr :
      buf_at bs ptr = Some (DataPage page) ->
      live_count page' = S (live_count page) ->
      ptr ≠ 0 ->
      buf_at bs 0 = Some hb -> as_hdr hb = Some hdr ->
      bs' = buf_set (buf_set bs ptr (DataPage page')) 0
              (HdrPage (hdr_set_recCnt (wrap_int (recCnt hdr + 1)) hdr)) ->
      change bs bs'
  | change_grow hb hdr rec rid st2 page2 rid2 :
      buf_at bs 0 = Some hb -> as_hdr hb = Some hdr ->
      int_range (rec_length rec) ->
      to_unsigned (rec_length rec) <= PAGESIZE - DPFIXED ->
      Page_insertRecord (Page_init (Z.of_nat (length bs))) rec rid
        = (st2, page2, rid2) ->
      bs' = buf_set (bs ++ [DataPage page2]) 0
              (HdrPage
                 (hdr_set_recCnt (wrap_int (recCnt hdr + 1))
                    (hdr_set_pageCnt (wrap_int (pageCnt hdr + 1))
                       (hdr_set_lastPage (Z.of_nat (length bs)) hdr)))) ->
      change bs bs'.

(** The scenario of the spec: the file "t2" with the constants of
    [spec_env], and 500 records of 40 bytes inserted through one
    [InsertFileScan]. *)
Definition t2_after_500 : option (World * HeapFile) :=
  '(w, _) ← createHeapFile (E:=spec_env) (empty_world 8) "t2";
  '(w, this, _) ← InsertFileScan_ctor w "t2" raw_object OK;
  insert_many (E:=spec_env) 500 (zero_record 40) w this.

(** The condition under which [startScan] rejects a non-null filter. *)
Definition bad_scan_parm (offset_ length_ : Z) (type_ : Datatype)
  (op_ : Operator) : Prop :=
  offset_ < 0 ∨ length_ < 1 ∨
  (type_ ≠ STRING ∧ type_ ≠ INTEGER ∧ type_ ≠ FLOAT) ∨
  (type_ = INTEGER ∧ length_ ≠ sizeof_int) ∨
  (type_ = FLOAT ∧ length_ ≠ sizeof_float) ∨
  (op_ ≠ LT ∧ op_ ≠ LTE ∧ op_ ≠ EQ ∧ op_ ≠ GTE ∧ op_ ≠ GT ∧ op_ ≠ NE).

(** ** Observations and scenarios for the further properties *)

(** One call of [scanNext] that returned, seen as a step from the state
    before it to the state after it. *)
Definition scan_step (s s' : World * HeapFile) : Prop :=
  ∃ fuel outRid nextRid st outRid',
    scanNext fuel s.1 s.2 outRid nextRid = Some (Some (s'.1, s'.2, st, outRid')).

(** A record that holds one [int] whose lowest byte is [b]. *)
Definition int_record (b : byte) : Record_t :=
  {| rec_data := [b; x00; x00; x00]; rec_length := 4 |}.

(** Every data page among the pages [bs] of a file carries its own page
    number. *)
Definition pages_numbered (bs : list PageBuf) : Prop :=
  ∀ (i : nat) p, bs !! i = Some (DataPage p) -> pg_curPage p = Z.of_nat i.

(** No data page among the pages [bs] has a successor. *)
Definition pages_unlinked (bs : list PageBuf) : Prop :=
  ∀ (i : nat) p, bs !! i = Some (DataPage p) -> pg_nextPage p = -1.

(** The layout of a heap file with the pages [bs]: page 0 is the header
    page, which names page 1 as the first and the page of the highest
    number as the last page; every other page is a data page that carries
    its own number. *)
Definition layout_ok (bs : list PageBuf) : Prop :=
  (∃ hdr, bs !! 0%nat = Some (HdrPage hdr) ∧ firstPage hdr = 1 ∧
          lastPage hdr = Z.of_nat (length bs) - 1 ∧ 1 <= lastPage hdr) ∧
  (∀ i, (0 < i < length bs)%nat -> ∃ p, bs !! i = Some (DataPage p)) ∧
  pages_numbered bs.

(** How one operation rewrites the pages [bs] of a file whose header is
    page 0: not at all; or one data page is replaced by a page of the same
    number and the same successor, and fields of the header other than
    [firstPage] and [lastPage] are updated; or a data page that carries the
    next free page number and has no successor is appended, and the header
    names it as the last page. *)
Inductive page_update (bs bs' : list PageBuf) : Prop :=
  | update_none :
      bs' = bs -> page_update bs bs'
  | update_page ptr page page' hb hdr hdr' :
      buf_at bs ptr = Some (DataPage page) ->
      pg_curPage page' = pg_curPage page ->
      pg_nextPage page' = pg_nextPage page ->
      ptr ≠ 0 ->
      buf_at bs 0 = Some hb -> as_hdr hb = Some hdr ->
      firstPage hdr' = firstPage hdr -> lastPage hdr' = lastPage hdr ->
      bs' = buf_set (buf_set bs ptr (DataPage page')) 0 (HdrPage hdr') ->
      page_update bs bs'
  | update_grow hb hdr hdr' page2 :
      buf_at bs 0 = Some hb -> as_hdr hb = Some hdr ->
      pg_curPage page2 = Z.of_nat (length bs) ->
      pg_nextPage page2 = -1 ->
      firstPage hdr' = firstPage hdr ->
      lastPage hdr' = Z.of_nat (length bs) ->
      bs' = buf_set (bs ++ [DataPage page2]) 0 (HdrPage hdr') ->
      page_update bs bs'.

(** How often a file is open, 0 for a file that does not exist. *)
Definition open_count (w : World) (file : string) : nat :=
  match db w !! file with
  | Some f => f_openCnt f
  | None => O
  end.

(** The frame of a page [createHeapFile] has written and unpinned. *)
Definition written (b : PageBuf) : Frame :=
  {| fr_buf := b; fr_pinCnt := 0; fr_dirty := true |}.

(** The header page [createHeapFile] writes for the file [name]. *)
Definition new_header (name : string) : FileHdrPage :=
  {| fileName := name; firstPage := 1; lastPage := 1; pageCnt := 1;
     recCnt := 0 |}.

(** The numbers of the live slots of a slot directory, in increasing
    order. *)
Fixpoint live_ix (slots : list (option Record_t)) : list nat :=
  match slots with
  | [] => []
  | s :: rest =>
      (match s with Some _ => [O] | None => [] end) ++ (S <$> live_ix rest)
  end.

(** A client that calls [scanNext] until a call does not return [OK], at
    most [n] times: the positions of the cursor [curRec] after the calls
    that returned [OK], and the status of the last call.  The client's RID
    variable holds [NULLRID]. *)
Fixpoint scan_all (n : nat) (w : World) (this : HeapFile)
  : list RID * option Status :=
  match n with
  | O => ([], None)
  | S n =>
      match scanNext 1 w this NULLRID NULLRID with
      | Some (Some (w', this', st, _)) =>
          if decide (st = OK) then
            let '(rids, last) := scan_all n w' this' in
            (curRec this' :: rids, last)
          else ([], Some st)
      | _ => ([], None)
      end
  end.

(** A list of numbers in strictly increasing order. *)
Fixpoint increasing (l : list nat) : Prop :=
  match l with
  | [] => True
  | x :: l' => Forall (λ j, x < j)%nat l' ∧ increasing l'
  end.

(** The comparison an operator stands for, applied to two numbers. *)
Definition compare_op (op_ : Operator) (a b : Z) : bool :=
  match op_ with
  | LT => a <? b
  | LTE => a <=? b
  | EQ => a =? b
  | GTE => b <=? a
  | GT => b <? a
  | NE => negb (a =? b)
  | Operator_other _ => false
  end.

(** A record that holds the four bytes [b0] to [b3], lowest first. *)
Definition word_record (b0 b1 b2 b3 : byte) : Record_t :=
  {| rec_data := [b0; b1; b2; b3]; rec_length := 4 |}.

(** A scan with the predicate "the [type_] at offset 0 [op_] the value of
    the four bytes [flt]". *)
Definition word_scan (type_ : Datatype) (op_ : Operator) (flt : list byte)
  : HeapFile :=
  (startScan raw_object 0 4 type_ (Some flt) op_).1.

(** The number of pins on a page, 0 for a page that does not exist. *)
Definition pin_count (w : World) (file : string) (p : Z) : nat :=
  match frame_at w file p with
  | Some fr => fr_pinCnt fr
  | None => O
  end.

Section AnyStep.
Context `{E : Env}.
Variable name : string.

(** One operation on a handle of the file [name], whatever it returns: a
    step of [step], or a call of [insertRecord] or of [deleteRecord] that
    returned a status other than [OK]. *)
Inductive any_step : World * list HeapFile -> World * list HeapFile -> Prop :=
  | any_step_step s s' :
      step name s s' -> any_step s s'
  | any_step_insertRecord w hs i this rec outRid rid w' this' st outRid' :
      hs !! i = Some this ->
      insertRecord w this rec outRid rid = Some (w', this', st, outRid') ->
      st ≠ OK ->
      any_step (w, hs) (w', <[i := this']> hs)
  | any_step_deleteRecord w hs i this w' this' st :
      hs !! i = Some this ->
      deleteRecord w this = Some (w', this', st) ->
      st ≠ OK ->
      any_step (w, hs) (w', <[i := this']> hs).

End AnyStep.

(** * Properties *)

(** ** Machine integers *)

Lemma wrap_int_small z : int_range z -> wrap_int z = z.
Proof.
  unfold int_range, wrap_int. intros H.
  rewrite Z.mod_small by lia. lia.
Qed.

Lemma wrap_int_add z k : wrap_int (wrap_int z + k) = wrap_int (z + k).
Proof.
  unfold wrap_int.
  replace ((z + 2 ^ 31) mod 2 ^ 32 - 2 ^ 31 + k + 2 ^ 31)
    with ((z + 2 ^ 31) mod 2 ^ 32 + k) by lia.
  replace (z + k + 2 ^ 31) with ((z + 2 ^ 31) + k) by lia.
  by rewrite Zplus_mod_idemp_l.
Qed.

(** ** The contents of a file under the buffer manager's operations *)

Lemma frames_set_file w name f file :
  frames (set_file w name f) file =
  if decide (name = file) then f_frames f else frames w file.
Proof.
  unfold frames, set_file; simpl. case_decide; simplify_map_eq; done.
Qed.

Lemma frame_at_frames w file p :
  frame_at w file p = if 0 <=? p then frames w file !! Z.to_nat p else None.
Proof.
  unfold frame_at, frames. destruct (db w !! file); simpl; [done|].
  by destruct (0 <=? p).
Qed.

Lemma bufs_set_frame w file p fr :
  bufs (set_frame w file p fr) file = <[Z.to_nat p := fr_buf fr]> (bufs w file).
Proof.
  unfold bufs, set_frame. destruct (db w !! file) as [f|] eqn:Hf.
  - rewrite frames_set_file, decide_True by done. simpl.
    rewrite list_fmap_insert. unfold frames. by rewrite Hf.
  - unfold frames. by rewrite Hf.
Qed.

Lemma bufs_set_frame_ne w file p fr file' :
  file ≠ file' -> bufs (set_frame w file p fr) file' = bufs w file'.
Proof.
  intros Hne. unfold bufs, set_frame. destruct (db w !! file) as [f|]; [|done].
  by rewrite frames_set_file, decide_False.
Qed.

Lemma frame_at_buf w file p fr :
  frame_at w file p = Some fr -> buf_at (bufs w file) p = Some (fr_buf fr).
Proof.
  rewrite frame_at_frames. unfold buf_at, bufs.
  destruct (0 <=? p); [|done]. intros H. by rewrite list_lookup_fmap, H.
Qed.

Lemma bufs_set_frame_same w file p fr fr' :
  frame_at w file p = Some fr -> fr_buf fr' = fr_buf fr ->
  ∀ file', bufs (set_frame w file p fr') file' = bufs w file'.
Proof.
  intros Hfr Hb file'. destruct (decide (file = file')) as [<-|Hne].
  - rewrite bufs_set_frame, Hb. apply list_insert_id.
    apply frame_at_buf in Hfr. unfold buf_at in Hfr.
    by destruct (0 <=? p).
  - by apply bufs_set_frame_ne.
Qed.

Lemma bufs_unPinPage w file p d st w' :
  bufMgr_unPinPage w file p d = (st, w') -> ∀ file', bufs w' file' = bufs w file'.
Proof.
  unfold bufMgr_unPinPage. intros H file'.
  destruct (frame_at w file p) as [fr|] eqn:Hfr; [|by simplify_eq].
  destruct (fr_pinCnt fr); simplify_eq; [done|].
  by eapply bufs_set_frame_same.
Qed.

Lemma bufs_readPage w file p st w' :
  bufMgr_readPage w file p = (st, w') -> ∀ file', bufs w' file' = bufs w file'.
Proof.
  unfold bufMgr_readPage. intros H file'.
  destruct (frame_at w file p) as [fr|] eqn:Hfr; [|by simplify_eq].
  case_bool_decide; simplify_eq; [|done].
  by eapply bufs_set_frame_same.
Qed.

Lemma bufs_allocPage w file p0 st w' n :
  bufMgr_allocPage w file p0 = (st, w', n) ->
  (st = OK ∧ bufs w' file = bufs w file ++ [RawPage] ∧
   n = Z.of_nat (length (bufs w file))) ∨
  (st ≠ OK ∧ w' = w).
Proof.
  unfold bufMgr_allocPage. intros H.
  destruct (db w !! file) as [f|] eqn:Hf; [|right; by simplify_eq].
  case_bool_decide; simplify_eq; [left|right; done].
  unfold bufs. rewrite frames_set_file, decide_True by done. simpl.
  unfold frames. rewrite Hf, fmap_app, length_fmap. done.
Qed.

Lemma bufs_write_buf w file p b :
  bufs (write_buf w file p b) file = buf_set (bufs w file) p b.
Proof.
  unfold write_buf, buf_set. destruct (frame_at w file p) as [fr|] eqn:Hfr.
  - rewrite bufs_set_frame. simpl. rewrite frame_at_frames in Hfr.
    by destruct (0 <=? p).
  - rewrite frame_at_frames in Hfr. destruct (0 <=? p); [|done].
    symmetry. apply list_insert_ge. unfold bufs. rewrite length_fmap.
    by apply lookup_ge_None.
Qed.

Lemma bufs_openFile w name st w' :
  db_openFile w name = (st, w') -> ∀ file, bufs w' file = bufs w file.
Proof.
  unfold db_openFile. intros H file.
  destruct (db w !! name) as [f|] eqn:Hf; simplify_eq; [|done].
  unfold bufs. rewrite frames_set_file. case_decide; [|done].
  subst. unfold frames. by rewrite Hf.
Qed.

Lemma bufs_closeFile w name st w' :
  db_closeFile w name = (st, w') -> ∀ file, bufs w' file = bufs w file.
Proof.
  unfold db_closeFile. intros H file.
  destruct (db w !! name) as [f|] eqn:Hf; simplify_eq; [|done].
  destruct (f_openCnt f); simplify_eq; [done|].
  unfold bufs. rewrite frames_set_file. case_decide; [|done].
  subst. unfold frames. by rewrite Hf.
Qed.

Lemma page_at_bufs w file p :
  page_at w file p = buf_at (bufs w file) p ≫= as_page.
Proof.
  unfold page_at. destruct (frame_at w file p) as [fr|] eqn:Hfr; simpl.
  - by rewrite (frame_at_buf _ _ _ _ Hfr).
  - rewrite frame_at_frames in Hfr. unfold buf_at, bufs.
    destruct (0 <=? p); [|done]. by rewrite list_lookup_fmap, Hfr.
Qed.

Lemma hdr_at_bufs w file p :
  hdr_at w file p = buf_at (bufs w file) p ≫= as_hdr.
Proof.
  unfold hdr_at. destruct (frame_at w file p) as [fr|] eqn:Hfr; simpl.
  - by rewrite (frame_at_buf _ _ _ _ Hfr).
  - rewrite frame_at_frames in Hfr. unfold buf_at, bufs.
    destruct (0 <=? p); [|done]. by rewrite list_lookup_fmap, Hfr.
Qed.

(** ** startScan *)

(** C9. [startScan] with a null filter returns [OK] and disables the
    predicate (every record then matches).  With a filter it returns
    [BADSCANPARM] exactly when the offset is negative, or the length is
    below 1, or the type is none of [STRING], [INTEGER], [FLOAT], or the
    type is [INTEGER] with a length other than [sizeof(int)], or [FLOAT]
    with a length other than [sizeof(float)], or the operator is none of
    the six; otherwise it returns [OK] and stores the five components of
    the predicate.  In every case the cursor ([curRec], [curPageNo],
    [curPage]) is as before. *)
Theorem startScan_spec (this : HeapFile) (offset_ length_ : Z)
  (type_ : Datatype) (filter_ : option (list byte)) (op_ : Operator) :
  let r := startScan this offset_ length_ type_ filter_ op_ in
  (filter_ = None ->
     r.2 = OK ∧ p_filter r.1 = None ∧ ∀ rec, matchRec r.1 rec = true) ∧
  (filter_ ≠ None ->
     (r.2 = BADSCANPARM <-> bad_scan_parm offset_ length_ type_ op_) ∧
     (r.2 ≠ BADSCANPARM ->
        r.2 = OK ∧ p_offset r.1 = offset_ ∧ p_length r.1 = length_ ∧
        p_type r.1 = type_ ∧ p_filter r.1 = filter_ ∧ p_op r.1 = op_)) ∧
  curRec r.1 = curRec this ∧ curPageNo r.1 = curPageNo this ∧
  curPage r.1 = curPage this.
Proof.
  unfold startScan, bad_scan_parm. destruct filter_ as [f|]; simpl.
  - case_bool_decide as Hc; simpl.
    + split; [done|]. split; [|done]. intros _. split; [|done].
      split; [intros _; tauto | done].
    + split; [done|]. split; [|done]. intros _. split.
      * split; [done|]. intros Hb. exfalso. apply Hc. tauto.
      * done.
  - split; [|split; [done|done]].
    intros _. split; [done|]. split; [done|]. intros rec.
    unfold matchRec. done.
Qed.

(** ** matchRec on integers *)

Lemma sign_of_cases z :
  (z < 0 ∧ sign_of z = FNeg) ∨ (z = 0 ∧ sign_of z = FZero) ∨
  (0 < z ∧ sign_of z = FPos).
Proof.
  unfold sign_of. destruct (Z.ltb_spec z 0); [left; by split|].
  destruct (Z.eqb_spec z 0); [right; left; by split|].
  right; right; split; [lia|done].
Qed.

(** What [matchRec] computes for an [INTEGER] predicate whose attribute
    lies inside the record: the operator applied to the difference of
    attribute and filter value as an [int], that is, wrapped. *)
Lemma matchRec_INTEGER this rec flt :
  p_filter this = Some flt -> p_type this = INTEGER ->
  int_range (p_offset this + p_length this - 1) ->
  p_offset this + p_length this <= rec_length rec ->
  matchRec this rec =
  op_on_diff (p_op this)
    (wrap_int
       (memcpy_int (drop (Z.to_nat (p_offset this)) (rec_data rec))
          (p_length this) - memcpy_int flt (p_length this))).
Proof.
  intros Hf Ht Hr Hin. unfold matchRec. rewrite Hf, Ht.
  rewrite wrap_int_small by done.
  rewrite bool_decide_eq_false_2 by lia.
  unfold float_of_int, op_on_diff.
  match goal with |- context [sign_of ?z] =>
    destruct (sign_of_cases z) as [[? ->]|[[? ->]|[? ->]]] end;
    destruct (p_op this); simpl; try done;
    rewrite ?Z.gtb_ltb, ?Z.geb_leb;
    repeat match goal with
      | |- context [?a <? ?b] => destruct (Z.ltb_spec a b)
      | |- context [?a <=? ?b] => destruct (Z.leb_spec a b)
      | |- context [?a =? ?b] => destruct (Z.eqb_spec a b)
      end; simpl; try done; lia.
Qed.

(** Where the difference of the two values is itself an [int], [matchRec]
    decides the comparison of the two values. *)
Lemma matchRec_INTEGER_exact this rec flt :
  p_filter this = Some flt -> p_type this = INTEGER ->
  int_range (p_offset this + p_length this - 1) ->
  p_offset this + p_length this <= rec_length rec ->
  let attr := memcpy_int (drop (Z.to_nat (p_offset this)) (rec_data rec))
                (p_length this) in
  int_range (attr - memcpy_int flt (p_length this)) ->
  matchRec this rec =
  op_on_diff (p_op this) (attr - memcpy_int flt (p_length this)).
Proof.
  intros Hf Ht Hr Hin attr Hd.
  rewrite (matchRec_INTEGER _ _ flt) by done.
  fold attr. by rewrite wrap_int_small.
Qed.

(** C7, at the failing input.  For the attribute 2147483647 and the filter
    value -1 the exact difference is 2147483648, so the attribute is the
    greater, but [matchRec] with the operator [GT] answers [false]: the
    difference it tests is the [int] -2147483648. *)
Theorem matchRec_INTEGER_overflow :
  memcpy_int (rec_data record_int_max) 4 = 2147483647 ∧
  p_filter scan_gt_minus_one ≫= (λ flt, Some (memcpy_int flt 4)) = Some (-1) ∧
  p_type scan_gt_minus_one = INTEGER ∧ p_op scan_gt_minus_one = GT ∧
  p_offset scan_gt_minus_one + p_length scan_gt_minus_one
    <= rec_length record_int_max ∧
  op_on_diff GT (2147483647 - -1) = true ∧
  matchRec scan_gt_minus_one record_int_max = false.
Proof. repeat split; vm_compute; congruence. Qed.

(** ** Reading the operations as changes of a file's contents *)

(** The case analysis of an operation that returned: one goal for each path
    through its code. *)
Ltac run_ops :=
  repeat first
    [ progress simplify_eq/=
    | case_decide
    | case_bool_decide
    | match goal with
      | H : context [let '(_, _) := ?x in _] |- _ => destruct x eqn:?
      | H : context [match ?x with _ => _ end] |- _ => destruct x eqn:?
      | H : (_ ≫= _) = Some _ |- _ => apply bind_Some in H; destruct H as (? & ? & H)
      end ].

(** The hypotheses on the buffer manager's and the file layer's calls, read
    as equations on the contents of the file the calls are about. *)
Ltac to_bufs :=
  repeat match goal with
    | H : bufMgr_unPinPage _ ?f _ _ = (_, _) |- _ =>
        let H' := fresh "Hb" in
        pose proof (bufs_unPinPage _ _ _ _ _ _ H f) as H'; clear H
    | H : bufMgr_readPage _ ?f _ = (_, _) |- _ =>
        let H' := fresh "Hb" in
        pose proof (bufs_readPage _ _ _ _ _ H f) as H'; clear H
    | H : db_openFile _ ?f = (_, _) |- _ =>
        let H' := fresh "Hb" in
        pose proof (bufs_openFile _ _ _ _ H f) as H'; clear H
    | H : db_closeFile _ ?f = (_, _) |- _ =>
        let H' := fresh "Hb" in
        pose proof (bufs_closeFile _ _ _ _ H f) as H'; clear H
    | H : bufMgr_allocPage _ _ _ = (_, _, _) |- _ =>
        let H' := fresh "Hb" in
        destruct (bufs_allocPage _ _ _ _ _ _ H) as [(? & H' & ?)|(? & ?)];
        clear H; simplify_eq
    end;
  repeat (progress rewrite ?hdr_at_bufs, ?page_at_bufs, ?bufs_write_buf in * );
  repeat match goal with
    | H : bufs ?w' _ = _ |- _ =>
        is_var w'; try rewrite H in *; clear H; try clear w'
    end.

Lemma buf_at_Some bs p b :
  buf_at bs p = Some b -> 0 <= p ∧ bs !! Z.to_nat p = Some b.
Proof.
  unfold buf_at. destruct (Z.leb_spec 0 p); [|done]. by intros ->.
Qed.

Lemma buf_at_set bs p b q :
  buf_at (buf_set bs p b) q =
  if decide (p = q) then (λ _, b) <$> buf_at bs p else buf_at bs q.
Proof.
  unfold buf_at, buf_set. case_decide as Hpq.
  - subst q. destruct (Z.leb_spec 0 p); [|done].
    destruct (bs !! Z.to_nat p) eqn:Hl; simpl.
    + apply list_lookup_insert_eq. by eapply lookup_lt_Some.
    + rewrite list_insert_ge; [done|]. by apply lookup_ge_None.
  - destruct (Z.leb_spec 0 q); [|done].
    destruct (Z.leb_spec 0 p); [|done].
    apply list_lookup_insert_ne. lia.
Qed.

Lemma buf_at_app bs b :
  buf_at (bs ++ [b]) (Z.of_nat (length bs)) = Some b.
Proof.
  unfold buf_at. destruct (Z.leb_spec 0 (Z.of_nat (length bs))); [|lia].
  rewrite Nat2Z.id, lookup_app_r by done. by rewrite Nat.sub_diag.
Qed.

Lemma buf_at_app_l bs b p x :
  buf_at bs p = Some x -> buf_at (bs ++ [b]) p = Some x.
Proof.
  unfold buf_at. destruct (0 <=? p); [|done]. intros H.
  by apply lookup_app_l_Some.
Qed.

Lemma buf_at_lt bs p x :
  buf_at bs p = Some x -> p < Z.of_nat (length bs).
Proof.
  intros [? H%lookup_lt_Some]%buf_at_Some. lia.
Qed.

Lemma buf_set_id bs p b : buf_at bs p = Some b -> buf_set bs p b = bs.
Proof.
  intros [? H]%buf_at_Some. unfold buf_set.
  destruct (0 <=? p); [|done]. by apply list_insert_id.
Qed.

Lemma buf_set_last bs b b' :
  buf_set (bs ++ [b']) (Z.of_nat (length bs)) b = bs ++ [b].
Proof.
  unfold buf_set. destruct (Z.leb_spec 0 (Z.of_nat (length bs))); [|lia].
  rewrite Nat2Z.id, insert_app_r_alt by done. by rewrite Nat.sub_diag.
Qed.

Lemma bind_as_page (o : option PageBuf) x :
  o ≫= as_page = Some x -> o = Some (DataPage x).
Proof. destruct o as [[]|]; simpl; congruence. Qed.

Lemma bind_as_hdr (o : option PageBuf) h :
  o ≫= as_hdr = Some h -> ∃ hb, o = Some hb ∧ as_hdr hb = Some h.
Proof. destruct o as [hb|]; simpl; [eauto|done]. Qed.

(** A header read after a data page was written through another pointer. *)
Lemma hdr_after_page_write bs ptr p hp h :
  buf_at (buf_set bs ptr (DataPage p)) hp ≫= as_hdr = Some h ->
  ptr ≠ hp ∧ ∃ hb, buf_at bs hp = Some hb ∧ as_hdr hb = Some h.
Proof.
  rewrite buf_at_set. case_decide as Hp.
  - subst. destruct (buf_at bs hp); simpl; done.
  - intros H%bind_as_hdr. done.
Qed.

Lemma deleteRecord_effect `{E : Env} w this w' this' st :
  deleteRecord w this = Some (w', this', st) ->
  filePtr this' = filePtr this ∧ headerPage this' = headerPage this ∧
  ∃ ptr page page' hb hdr,
    let bs := bufs w (filePtr this) in
    buf_at bs ptr = Some (DataPage page) ∧
    Page_deleteRecord page (curRec this) = (st, page') ∧
    ptr ≠ headerPage this ∧
    buf_at bs (headerPage this) = Some hb ∧ as_hdr hb = Some hdr ∧
    bufs w' (filePtr this) =
      buf_set (buf_set bs ptr (DataPage page')) (headerPage this)
        (HdrPage (hdr_set_recCnt (wrap_int (recCnt hdr - 1)) hdr)).
Proof.
  unfold deleteRecord, header, set_header, cur_page, set_cur_page.
  intros H. run_ops. to_bufs. simpl in *.
  split; [done|]. split; [done|].
  match goal with H : _ ≫= as_page = Some _ |- _ => apply bind_as_page in H end.
  match goal with H : _ ≫= as_hdr = Some _ |- _ =>
    apply hdr_after_page_write in H; destruct H as (? & hb & ? & ?) end.
  eauto 12.
Qed.

Lemma Page_insertRecord_cases `{E : Env} p rec rid st p' rid' :
  Page_insertRecord p rec rid = (st, p', rid') ->
  (st = OK ∧ live_count p' = S (live_count p)) ∨
  (st = NOSPACE ∧ p' = p ∧ rid' = rid).
Proof.
  unfold Page_insertRecord. case_match; intros; simplify_eq; [left|right; done].
  split; [done|]. unfold live_count. simpl.
  rewrite omap_app, length_app. simpl. lia.
Qed.

Lemma insert_seek_effect w this w' this' early :
  insert_seek w this = Some (w', this', early) ->
  (∀ file, bufs w' file = bufs w file) ∧
  filePtr this' = filePtr this ∧ headerPage this' = headerPage this ∧
  hdrDirtyFlag this' = hdrDirtyFlag this ∧
  (early ≠ None -> this' = this) ∧
  (curPage this ≠ None -> curPage this' ≠ None).
Proof.
  unfold insert_seek. intros H. run_ops;
    repeat match goal with
      | H : bufMgr_unPinPage _ _ _ _ = _ |- _ =>
          pose proof (bufs_unPinPage _ _ _ _ _ _ H); clear H
      | H : bufMgr_readPage _ _ _ = _ |- _ =>
          pose proof (bufs_readPage _ _ _ _ _ H); clear H
      end;
    repeat split; try done; intros;
    repeat match goal with
      | H : ∀ f, bufs _ f = _ |- _ => rewrite H; clear H
      end; try done; congruence.
Qed.

Lemma buf_at_snoc bs b p :
  buf_at (bs ++ [b]) p =
  if decide (p = Z.of_nat (length bs)) then Some b else buf_at bs p.
Proof.
  case_decide as Hp; [subst; apply buf_at_app|].
  unfold buf_at. destruct (Z.leb_spec 0 p); [|done].
  destruct (decide (Z.to_nat p < length bs)%nat).
  - by rewrite lookup_app_l.
  - rewrite !lookup_ge_None_2; [done| |]; rewrite ?length_app; simpl; lia.
Qed.

Lemma buf_set_twice bs p a b : buf_set (buf_set bs p a) p b = buf_set bs p b.
Proof.
  unfold buf_set. destruct (0 <=? p); [|done]. apply list_insert_insert_eq.
Qed.

Lemma insert_grow_effect `{E : Env} w this w' this' :
  insert_grow w this = Some (w', this', None) ->
  ∃ hb hdr,
    let bs := bufs w (filePtr this) in
    let n := Z.of_nat (length bs) in
    buf_at bs (headerPage this) = Some hb ∧ as_hdr hb = Some hdr ∧
    bufs w' (filePtr this) =
      buf_set (bs ++ [DataPage (Page_init n)]) (headerPage this)
        (HdrPage (hdr_set_pageCnt (wrap_int (pageCnt hdr + 1))
                    (hdr_set_lastPage n hdr))) ∧
    this' = set_curRec NULLRID (set_curDirtyFlag false
              (set_curPageNo n (set_curPage (Some n) this))).
Proof.
  unfold insert_grow, header, set_header. intros H. run_ops. to_bufs.
  simpl in *. rewrite buf_set_last in *.
  match goal with H : buf_at (_ ++ _) _ ≫= as_hdr = Some _ |- _ =>
    rewrite buf_at_snoc in H; case_decide; [done|];
    apply bind_as_hdr in H; destruct H as (hb & Hhb & Hhdr) end.
  match goal with H : buf_at (buf_set _ _ _) _ ≫= as_hdr = Some _ |- _ =>
    rewrite buf_at_set, decide_True, buf_at_snoc, decide_False, Hhb in H
      by done; simplify_eq/= end.
  exists hb. eexists. split; [done|]. split; [done|].
  by rewrite buf_set_twice.
Qed.

Lemma buf_set_commute bs p a q b :
  p ≠ q -> buf_set (buf_set bs p a) q b = buf_set (buf_set bs q b) p a.
Proof.
  intros Hne. unfold buf_set.
  destruct (Z.leb_spec 0 p), (Z.leb_spec 0 q); try done.
  apply list_insert_insert_ne. lia.
Qed.

Lemma insert_seek_early w this w' this' st :
  insert_seek w this = Some (w', this', Some st) -> st ≠ OK ∧ this' = this.
Proof. unfold insert_seek. intros H. run_ops; done. Qed.

Lemma insert_grow_early `{E : Env} w this w' this' st :
  insert_grow w this = Some (w', this', Some st) -> st ≠ OK ∧ this' = this.
Proof. unfold insert_grow. intros H. run_ops; done. Qed.

Lemma insertRecord_OK_effect `{E : Env} w this rec outRid rid w' this' outRid' :
  insertRecord w this rec outRid rid = Some (w', this', OK, outRid') ->
  filePtr this' = filePtr this ∧ headerPage this' = headerPage this ∧
  curRec this' = outRid' ∧ curDirtyFlag this' = true ∧
  hdrDirtyFlag this' = hdrDirtyFlag this ∧
  to_unsigned (rec_length rec) <= PAGESIZE - DPFIXED ∧
  ∃ ptr page hb hdr,
    let bs := bufs w (filePtr this) in
    let hp := headerPage this in
    buf_at bs ptr = Some (DataPage page) ∧ ptr ≠ hp ∧
    buf_at bs hp = Some hb ∧ as_hdr hb = Some hdr ∧
    ((∃ page',
        Page_insertRecord page rec rid = (OK, page', outRid') ∧
        bufs w' (filePtr this) =
          buf_set (buf_set bs ptr (DataPage page')) hp
            (HdrPage (hdr_set_recCnt (wrap_int (recCnt hdr + 1)) hdr))) ∨
     (∃ st2 page2,
        let n := Z.of_nat (length bs) in
        Page_insertRecord page rec rid = (NOSPACE, page, rid) ∧
        Page_insertRecord (Page_init n) rec rid = (st2, page2, outRid') ∧
        curPage this' = Some n ∧
        bufs w' (filePtr this) =
          buf_set (bs ++ [DataPage page2]) hp
            (HdrPage
               (hdr_set_recCnt (wrap_int (recCnt hdr + 1))
                  (hdr_set_pageCnt (wrap_int (pageCnt hdr + 1))
                     (hdr_set_lastPage n hdr)))))).
Proof.
  unfold insertRecord. intros H.
  case_bool_decide as Hsize; [done|].
  apply bind_Some in H as ([[w1 this1] early] & Hseek & H).
  destruct early as [st|].
  { apply insert_seek_early in Hseek as [? ?]. by simplify_eq. }
  apply insert_seek_effect in Hseek as (Hb1 & Hf1 & Hh1 & Hd1 & _ & _).
  apply bind_Some in H as (page & Hpage & H).
  destruct (Page_insertRecord page rec rid) as [[st1 page1] rid1] eqn:Hins.
  apply bind_Some in H as (w2 & Hw2 & H).
  unfold cur_page, set_cur_page in *.
  apply bind_Some in Hpage as (ptr & Hptr & Hpage).
  rewrite Hptr in Hw2. simpl in Hw2. simplify_eq.
  rewrite page_at_bufs, Hb1, Hf1 in Hpage. apply bind_as_page in Hpage.
  apply bind_Some in H as ([[[w3 this3] newRec] early] & Hmid & H).
  destruct early as [st|].
  { case_decide; [|case_decide; simplify_eq; done].
    apply bind_Some in Hmid as ([[w4 this4] e4] & Hg & ?). simplify_eq.
    apply insert_grow_early in Hg as [? ?]. done. }
  apply bind_Some in H as ([w5 rid5] & Hretry & H).
  apply bind_Some in H as (hdr5 & Hhdr5 & H). simplify_eq/=.
  unfold header, set_header in *.
  destruct (Page_insertRecord_cases _ _ _ _ _ _ Hins) as [[-> Hlive]|(-> & -> & ->)].
  - (* the record went into the current page *)
    rewrite decide_False in Hmid by done. rewrite decide_False in Hmid by auto.
    simplify_eq/=.
    rewrite hdr_at_bufs, bufs_write_buf, Hb1, Hf1, Hh1 in Hhdr5.
    apply hdr_after_page_write in Hhdr5 as (Hne & hb & Hhb & Hhdr).
    do 6 (split; [done || lia|]).
    exists ptr, page, hb, hdr5. simpl. do 4 (split; [done|]).
    left. exists page1. split; [done|].
    by rewrite Hf1, Hh1, !bufs_write_buf, Hb1.
  - (* the current page was full *)
    rewrite decide_True in Hmid by done.
    apply bind_Some in Hmid as ([[w4 this4] e4] & Hg & ?). simplify_eq.
    apply insert_grow_effect in Hg as (hb & hdr & Hhb & Hhdr & Hb4 & ->).
    simpl in *. rewrite ?Hf1, ?Hh1 in *.
    rewrite bufs_write_buf, Hb1, (buf_set_id _ _ _ Hpage) in *.
    pose proof (buf_at_lt _ _ _ Hhb) as Hlt.
    set (bs := bufs w (filePtr this)) in *.
    set (n := Z.of_nat (length bs)) in *.
    assert (Hnew : ∀ hd b, buf_at (buf_set (bs ++ [b]) (headerPage this) hd) n
                           = Some b).
    { intros hd b. rewrite buf_at_set, decide_False by lia. apply buf_at_app. }
    apply bind_Some in Hretry as (page2 & Hp2 & Hretry).
    rewrite page_at_bufs, Hb4, Hnew in Hp2. simpl in Hp2. simplify_eq.
    destruct (Page_insertRecord (Page_init n) rec rid) as [[st2 page2] rid2]
      eqn:Hins2.
    simplify_eq.
    rewrite hdr_at_bufs, bufs_write_buf, Hb4 in Hhdr5.
    apply hdr_after_page_write in Hhdr5 as (_ & hb5 & Hhb5 & Hhdr5).
    rewrite buf_at_set, decide_True, buf_at_snoc, decide_False in Hhb5
      by (done || lia).
    fold bs in Hhb5. rewrite Hhb in Hhb5. simplify_eq/=.
    do 6 (split; [done || lia|]).
    exists ptr, page, hb, hdr. simpl.
    split; [done|]. split.
    { intros ->. rewrite Hpage in Hhb. by simplify_eq. }
    do 2 (split; [done|]).
    right. exists st2, page2. fold bs n. do 2 (split; [done|]). split.
    { rewrite bufs_write_buf, Hb1. fold bs.
      by rewrite (buf_set_id _ _ _ Hpage). }
    rewrite !bufs_write_buf, Hb4.
    rewrite (buf_set_commute _ (headerPage this)) by lia.
    by rewrite buf_set_last, buf_set_twice.
Qed.

(** The operations that leave every page of every file as it is. *)
Ltac keeps_bufs :=
  repeat match goal with
    | H : bufMgr_unPinPage _ _ _ _ = _ |- _ =>
        pose proof (bufs_unPinPage _ _ _ _ _ _ H); clear H
    | H : bufMgr_readPage _ _ _ = _ |- _ =>
        pose proof (bufs_readPage _ _ _ _ _ H); clear H
    | H : db_openFile _ _ = _ |- _ =>
        pose proof (bufs_openFile _ _ _ _ H); clear H
    | H : db_closeFile _ _ = _ |- _ =>
        pose proof (bufs_closeFile _ _ _ _ H); clear H
    end;
  intros;
  repeat match goal with
    | H : ∀ f, bufs _ f = _ |- _ => rewrite H; clear H
    end;
  try done.

Lemma File_getFirstPage_bufs w name p st z :
  File_getFirstPage w name p = (st, z) -> st = OK ->
  z = first_page_of (bufs w name).
Proof.
  unfold File_getFirstPage, bufs, frames. intros H ->.
  destruct (db w !! name) as [f|]; simplify_eq. by destruct (f_frames f).
Qed.

Lemma file_header_bufs w name hdr :
  bufs w name !! 0%nat = Some (HdrPage hdr) -> file_header w name = Some hdr.
Proof.
  intros H. unfold file_header. rewrite hdr_at_bufs.
  assert ((File_getFirstPage w name 0).2 = 0) as ->.
  { unfold File_getFirstPage. unfold bufs, frames in H.
    destruct (db w !! name) as [f|]; [|done]. by destruct (f_frames f). }
  unfold buf_at. simpl. change (Z.to_nat 0) with 0%nat. by rewrite H.
Qed.

Lemma HeapFile_ctor_effect w name this st w' this' :
  HeapFile_ctor w name this st = Some (w', this', OK) ->
  st = OK ∧ (∀ file, bufs w' file = bufs w file) ∧
  filePtr this' = name ∧
  headerPage this' = first_page_of (bufs w name).
Proof.
  unfold HeapFile_ctor. intros H. run_ops.
  match goal with H : File_getFirstPage _ _ _ = _ |- _ =>
    apply File_getFirstPage_bufs in H; [|done] end.
  split; [done|]. split; [keeps_bufs|]. split; [done|].
  simpl. subst. by keeps_bufs.
Qed.

Lemma HeapFile_dtor_effect w this w' this' :
  HeapFile_dtor w this = Some (w', this') ->
  ∀ file, bufs w' file = bufs w file.
Proof. unfold HeapFile_dtor. intros H. run_ops; keeps_bufs. Qed.

Lemma endScan_effect w this w' this' st :
  endScan w this = (w', this', st) ->
  (∀ file, bufs w' file = bufs w file) ∧
  filePtr this' = filePtr this ∧ headerPage this' = headerPage this.
Proof. unfold endScan. intros H. run_ops; (split; [keeps_bufs|done]). Qed.

Lemma HeapFileScan_dtor_effect w this w' this' :
  HeapFileScan_dtor w this = Some (w', this') ->
  ∀ file, bufs w' file = bufs w file.
Proof.
  unfold HeapFileScan_dtor. intros H.
  destruct (endScan w this) as [[w1 this1] st] eqn:He.
  apply endScan_effect in He as (Hb & _).
  pose proof (HeapFile_dtor_effect _ _ _ _ H) as Hd.
  intros file. by rewrite Hd, Hb.
Qed.

Lemma InsertFileScan_dtor_effect w this w' this' :
  InsertFileScan_dtor w this = Some (w', this') ->
  ∀ file, bufs w' file = bufs w file.
Proof.
  unfold InsertFileScan_dtor. intros H.
  destruct (curPage this).
  - destruct (bufMgr_unPinPage _ _ _ _) as [st w1] eqn:Hu.
    pose proof (HeapFile_dtor_effect _ _ _ _ H). keeps_bufs.
  - exact (HeapFile_dtor_effect _ _ _ _ H).
Qed.

Lemma getRecord_effect w this rid rec w' this' st rec' :
  getRecord w this rid rec = Some (w', this', st, rec') ->
  (∀ file, bufs w' file = bufs w file) ∧
  filePtr this' = filePtr this ∧ headerPage this' = headerPage this ∧
  curPage this' = curPage this.
Proof. unfold getRecord. intros H. run_ops; (split; [keeps_bufs|done]). Qed.

Lemma resetScan_effect w this w' this' st :
  resetScan w this = (w', this', st) ->
  (∀ file, bufs w' file = bufs w file) ∧
  filePtr this' = filePtr this ∧ headerPage this' = headerPage this.
Proof. unfold resetScan. intros H. run_ops; (split; [keeps_bufs|done]). Qed.

Lemma scanNext_loop_effect fuel w this tmpRid nextRid w' this' st :
  scanNext_loop fuel w this tmpRid nextRid = Some (Some (w', this', st)) ->
  (∀ file, bufs w' file = bufs w file) ∧
  filePtr this' = filePtr this ∧ headerPage this' = headerPage this ∧
  curPage this' ≠ None.
Proof.
  revert w this nextRid.
  induction fuel as [|fuel IH]; intros w this nextRid H; [done|].
  simpl in H. destruct (cur_page w this) as [page|] eqn:Hpage; [|done].
  assert (curPage this ≠ None) as Hcur.
  { unfold cur_page in Hpage. by destruct (curPage this). }
  run_ops;
    try (split; [keeps_bufs|done]);
    match goal with H : scanNext_loop _ _ _ _ _ = _ |- _ =>
      apply IH in H as (Hb & ? & ? & ?) end;
    (split; [keeps_bufs|done]).
Qed.

Lemma scanNext_effect fuel w this outRid nextRid w' this' st outRid' :
  scanNext fuel w this outRid nextRid = Some (Some (w', this', st, outRid')) ->
  (∀ file, bufs w' file = bufs w file) ∧
  filePtr this' = filePtr this ∧ headerPage this' = headerPage this ∧
  curPage this' ≠ None ∧ outRid' = outRid.
Proof.
  unfold scanNext. intros H.
  destruct (scanNext_loop _ _ _ _ _) as [[[[w1 this1] st1]|]|] eqn:Hl;
    simplify_eq/=.
  apply scanNext_loop_effect in Hl as (? & ? & ? & ?). done.
Qed.

(** ** The header counters *)

Lemma sum_list_with_insert (f : PageBuf -> nat) bs i b b' :
  bs !! i = Some b ->
  (sum_list_with f (<[i:=b']> bs) + f b = sum_list_with f bs + f b')%nat.
Proof.
  revert i. induction bs as [|x bs IH]; intros [|i] H; simplify_eq/=.
  - lia.
  - specialize (IH _ H). lia.
Qed.

Lemma sum_buf_set (f : PageBuf -> nat) bs p b b' :
  buf_at bs p = Some b ->
  (sum_list_with f (buf_set bs p b') + f b = sum_list_with f bs + f b')%nat.
Proof.
  intros [Hp Hl]%buf_at_Some. unfold buf_set.
  destruct (Z.leb_spec 0 p); [|lia]. by apply sum_list_with_insert.
Qed.

Lemma data_pages_length w file :
  length (data_pages w file) = n_data (bufs w file).
Proof.
  unfold data_pages, n_data. induction (bufs w file) as [|[] bs IH]; simpl;
    [done|exact IH|exact IH|f_equal; exact IH].
Qed.

Lemma live_records_n_live w file :
  live_records w file = Z.of_nat (n_live (bufs w file)).
Proof.
  unfold live_records, data_pages, n_live. f_equal.
  induction (bufs w file) as [|[] bs IH]; simpl;
    [done|exact IH|exact IH|f_equal; exact IH].
Qed.

Lemma bufs_createFile w name st w' :
  db_createFile w name = (st, w') -> st = OK ->
  db w !! name = None ∧ bufs w' name = [].
Proof.
  unfold db_createFile. intros H ->. destruct (db w !! name) eqn:Hn; simplify_eq.
  split; [done|]. unfold bufs. by rewrite frames_set_file, decide_True.
Qed.

(** What a successful [createHeapFile] leaves in the file: the header page
    and one empty data page. *)
Lemma createHeapFile_OK_bufs `{E : Env} w name w' :
  createHeapFile w name = Some (w', OK) ->
  bufs w' name =
    [HdrPage {| fileName := name; firstPage := 1; lastPage := 1;
                pageCnt := 1; recCnt := 0 |};
     DataPage (Page_init 1)].
Proof.
  unfold createHeapFile. intros H. run_ops.
  match goal with H : db_createFile _ _ = _ |- _ =>
    apply bufs_createFile in H as [_ Hnil]; [|done] end.
  to_bufs. simpl in *. by simplify_eq.
Qed.

Lemma createHeapFile_OK_inv `{E : Env} w name w' :
  createHeapFile w name = Some (w', OK) ->
  pages_ok (bufs w' name) ∧ recs_ok (bufs w' name).
Proof.
  intros H. apply createHeapFile_OK_bufs in H. rewrite H.
  split; eexists; (split; [done|]); done.
Qed.

Lemma omap_delete_slot (slots : list (option Record_t)) i rec :
  slots !! i = Some (Some rec) ->
  length (omap id slots) = S (length (omap id (<[i:=None]> slots))).
Proof.
  revert i. induction slots as [|s slots IH]; intros [|i] H; simplify_eq/=.
  - done.
  - specialize (IH _ H). destruct s; simpl; lia.
Qed.

Lemma Page_deleteRecord_cases `{E : Env} p rid st p' :
  Page_deleteRecord p rid = (st, p') ->
  (st = OK ∧ live_count p = S (live_count p')) ∨
  (st = INVALIDSLOTNO ∧ p' = p).
Proof.
  unfold Page_deleteRecord, slot_at. intros H.
  destruct (Z.leb_spec 0 (slotNo rid)); [|right; by simplify_eq].
  destruct (pg_slots p !! Z.to_nat (slotNo rid)) as [[rec|]|] eqn:Hs;
    simplify_eq/=; [left|right; done|right; done].
  split; [done|]. unfold live_count. simpl. by eapply omap_delete_slot.
Qed.

Lemma startScan_handle this offset_ length_ type_ filter_ op_ this' st :
  startScan this offset_ length_ type_ filter_ op_ = (this', st) ->
  filePtr this' = filePtr this ∧ headerPage this' = headerPage this.
Proof.
  unfold startScan. destruct filter_; [case_bool_decide|]; by intros [= <- <-].
Qed.

(** The handle at hand in a step, and that it stays a handle of the file. *)
Ltac step_handle Hhs :=
  match goal with H : _ !! _ = Some _ |- _ =>
    let Hf := fresh "Hf" in let Hh := fresh "Hh" in
    pose proof (Forall_lookup_1 _ _ _ _ Hhs H) as [Hf Hh] end.

Ltac same_handle :=
  apply Forall_insert; [done|]; split; congruence.

Lemma step_change `{E : Env} name w hs w' hs' :
  step name (w, hs) (w', hs') ->
  bufs w name ≠ [] ->
  Forall (handle_of name) hs ->
  change (bufs w name) (bufs w' name) ∧ Forall (handle_of name) hs'.
Proof.
  intros Hstep Hne Hhs. inversion Hstep; subst; try step_handle Hhs.
  - (* HeapFileScan constructor *)
    unfold HeapFileScan_ctor in *.
    match goal with H : _ ≫= _ = Some _ |- _ =>
      apply bind_Some in H as ([[w1 this1] st1] & Hc & ?) end. simplify_eq.
    apply HeapFile_ctor_effect in Hc as (_ & Hb & Hf & Hh).
    split; [apply change_none, Hb|]. apply Forall_app. split; [done|].
    apply Forall_singleton. split; [done|]. simpl. rewrite Hh.
    by destruct (bufs w name).
  - (* InsertFileScan constructor *)
    unfold InsertFileScan_ctor in *.
    match goal with H : HeapFile_ctor _ _ _ _ = _ |- _ =>
      apply HeapFile_ctor_effect in H as (_ & Hb & Hf & Hh) end.
    split; [apply change_none, Hb|]. apply Forall_app. split; [done|].
    apply Forall_singleton. split; [done|]. rewrite Hh.
    by destruct (bufs w name).
  - split; [apply change_none; by eapply HeapFileScan_dtor_effect
           |by apply Forall_delete].
  - split; [apply change_none; by eapply InsertFileScan_dtor_effect
           |by apply Forall_delete].
  - (* getRecord *)
    match goal with H : getRecord _ _ _ _ = _ |- _ =>
      apply getRecord_effect in H as (Hb & Hf' & Hh' & _) end.
    split; [apply change_none, Hb|same_handle].
  - (* startScan *)
    match goal with H : startScan _ _ _ _ _ _ = _ |- _ =>
      apply startScan_handle in H as (Hf' & Hh') end.
    split; [by apply change_none|same_handle].
  - (* endScan *)
    match goal with H : endScan _ _ = _ |- _ =>
      apply endScan_effect in H as (Hb & Hf' & Hh') end.
    split; [apply change_none, Hb|same_handle].
  - (* markScan *)
    unfold markScan in *. simplify_eq.
    split; [by apply change_none|]. apply Forall_insert; [done|]. by split.
  - (* resetScan *)
    match goal with H : resetScan _ _ = _ |- _ =>
      apply resetScan_effect in H as (Hb & Hf' & Hh') end.
    split; [apply change_none, Hb|same_handle].
  - (* scanNext *)
    match goal with H : scanNext _ _ _ _ _ = _ |- _ =>
      apply scanNext_effect in H as (Hb & Hf' & Hh' & _) end.
    split; [apply change_none, Hb|same_handle].
  - (* deleteRecord *)
    match goal with H : deleteRecord _ _ = _ |- _ =>
      apply deleteRecord_effect in H
        as (Hf' & Hh' & ptr & page & page' & hb & hdr & Hp & Hd & Hn & Hhb
            & Hhdr & Hb) end.
    simpl in *. rewrite Hf, Hh in *.
    destruct (Page_deleteRecord_cases _ _ _ _ Hd) as [[_ Hlive]|[? _]]; [|done].
    split; [by eapply change_delete|same_handle].
  - (* markDirty *)
    unfold markDirty in *. simplify_eq.
    split; [by apply change_none|]. apply Forall_insert; [done|]. by split.
  - (* insertRecord *)
    match goal with H : insertRecord _ _ _ _ _ = _ |- _ =>
      apply insertRecord_OK_effect in H
        as (Hf' & Hh' & _ & _ & _ & Hsize & ptr & page & hb & hdr & Hp & Hn
            & Hhb & Hhdr & Hcase) end.
    simpl in *. rewrite Hf, Hh in *.
    split; [|same_handle].
    destruct Hcase as [(page' & Hins & Hb)|(st2 & page2 & Hfull & Hins & _ & Hb)].
    + destruct (Page_insertRecord_cases _ _ _ _ _ _ Hins) as [[_ Hlive]|[? _]];
        [|done].
      by eapply change_insert.
    + by eapply change_grow.
Qed.

Lemma hdr_at_0 bs hdr0 hb hdr :
  bs !! 0%nat = Some (HdrPage hdr0) -> buf_at bs 0 = Some hb ->
  as_hdr hb = Some hdr -> hb = HdrPage hdr0 ∧ hdr = hdr0.
Proof.
  unfold buf_at. simpl. change (Z.to_nat 0) with 0%nat.
  intros -> [= <-] [= <-]. done.
Qed.

Lemma buf_set_length bs p b : length (buf_set bs p b) = length bs.
Proof. unfold buf_set. destruct (0 <=? p); [apply length_insert|done]. Qed.

Lemma buf_set_0_lookup bs b :
  (0 < length bs)%nat -> buf_set bs 0 b !! 0%nat = Some b.
Proof.
  intros H. unfold buf_set. simpl. change (Z.to_nat 0) with 0%nat.
  by apply list_lookup_insert_eq.
Qed.

(** The counts of a file after a data page was replaced and the header
    rewritten. *)
Lemma sum_after_page_and_header (f : PageBuf -> nat) bs ptr page page' hdr hdr' :
  f (HdrPage hdr) = f (HdrPage hdr') ->
  buf_at bs ptr = Some (DataPage page) -> ptr ≠ 0 ->
  buf_at bs 0 = Some (HdrPage hdr) ->
  (sum_list_with f (buf_set (buf_set bs ptr (DataPage page')) 0 (HdrPage hdr'))
   + f (DataPage page) = sum_list_with f bs + f (DataPage page'))%nat.
Proof.
  intros Hf Hp Hne Hh.
  pose proof (sum_buf_set f _ _ _ (DataPage page') Hp) as H1.
  assert (buf_at (buf_set bs ptr (DataPage page')) 0 = Some (HdrPage hdr)) as H0.
  { by rewrite buf_at_set, decide_False. }
  pose proof (sum_buf_set f _ _ _ (HdrPage hdr') H0) as H2. lia.
Qed.

Lemma sum_after_grow (f : PageBuf -> nat) bs page2 hdr hdr' :
  f (HdrPage hdr) = f (HdrPage hdr') ->
  buf_at bs 0 = Some (HdrPage hdr) ->
  sum_list_with f (buf_set (bs ++ [DataPage page2]) 0 (HdrPage hdr'))
  = (sum_list_with f bs + f (DataPage page2))%nat.
Proof.
  intros Hf Hh.
  pose proof (buf_at_app_l _ (DataPage page2) _ _ Hh) as H0.
  pose proof (sum_buf_set f _ _ _ (HdrPage hdr') H0) as H2.
  rewrite sum_list_with_app in H2. simpl in H2. lia.
Qed.

Lemma change_pages_ok `{E : Env} bs bs' :
  change bs bs' -> pages_ok bs -> pages_ok bs'.
Proof.
  intros Hc (hdr0 & H0 & Hcnt).
  pose proof (lookup_lt_Some _ _ _ H0) as Hlen.
  destruct Hc as [->|ptr page page' hb hdr Hp Hlive Hne Hhb Hhdr ->
                 |ptr page page' hb hdr Hp Hlive Hne Hhb Hhdr ->
                 |hb hdr rec rid st2 page2 rid2 Hhb Hhdr Hr Hsize Hins ->].
  - by exists hdr0.
  - destruct (hdr_at_0 _ _ _ _ H0 Hhb Hhdr) as [-> ->].
    eexists. split; [apply buf_set_0_lookup; by rewrite buf_set_length|].
    simpl. rewrite Hcnt. f_equal. f_equal. unfold n_data.
    match goal with |- context [buf_set _ 0 (HdrPage ?h)] =>
      pose proof (sum_after_page_and_header data_of _ _ _ page' hdr0 h eq_refl
                    Hp Hne Hhb) end.
    simpl in *. lia.
  - destruct (hdr_at_0 _ _ _ _ H0 Hhb Hhdr) as [-> ->].
    eexists. split; [apply buf_set_0_lookup; by rewrite buf_set_length|].
    simpl. rewrite Hcnt. f_equal. f_equal. unfold n_data.
    match goal with |- context [buf_set _ 0 (HdrPage ?h)] =>
      pose proof (sum_after_page_and_header data_of _ _ _ page' hdr0 h eq_refl
                    Hp Hne Hhb) end.
    simpl in *. lia.
  - destruct (hdr_at_0 _ _ _ _ H0 Hhb Hhdr) as [-> ->].
    eexists. split; [apply buf_set_0_lookup; rewrite length_app; lia|].
    simpl. rewrite Hcnt, wrap_int_add. f_equal. unfold n_data.
    rewrite (sum_after_grow data_of _ _ hdr0) by done. simpl. lia.
Qed.

Lemma insert_into_empty_page `{E : Env} n rec rid st2 page2 rid2 :
  SLOTSIZE = 0 -> int_range (rec_length rec) ->
  to_unsigned (rec_length rec) <= PAGESIZE - DPFIXED ->
  Page_insertRecord (Page_init n) rec rid = (st2, page2, rid2) ->
  st2 = OK ∧ live_count page2 = 1%nat.
Proof.
  unfold Page_insertRecord, to_unsigned, int_range. simpl.
  intros Hs Hr Hsize H.
  assert (rec_length rec <= rec_length rec mod 2 ^ 32).
  { destruct (decide (0 <= rec_length rec)).
    - rewrite Z.mod_small; lia.
    - pose proof (Z.mod_pos_bound (rec_length rec) (2 ^ 32) ltac:(lia)). lia. }
  destruct (Z.leb_spec (rec_length rec + SLOTSIZE) (PAGESIZE - DPFIXED));
    [|lia].
  by simplify_eq.
Qed.

Lemma change_recs_ok `{E : Env} bs bs' :
  SLOTSIZE = 0 -> change bs bs' -> recs_ok bs -> recs_ok bs'.
Proof.
  intros Hslot Hc (hdr0 & H0 & Hcnt).
  pose proof (lookup_lt_Some _ _ _ H0) as Hlen.
  destruct Hc as [->|ptr page page' hb hdr Hp Hlive Hne Hhb Hhdr ->
                 |ptr page page' hb hdr Hp Hlive Hne Hhb Hhdr ->
                 |hb hdr rec rid st2 page2 rid2 Hhb Hhdr Hr Hsize Hins ->].
  - by exists hdr0.
  - destruct (hdr_at_0 _ _ _ _ H0 Hhb Hhdr) as [-> ->].
    eexists. split; [apply buf_set_0_lookup; by rewrite buf_set_length|].
    simpl. rewrite Hcnt, <- Z.add_opp_r, wrap_int_add. f_equal. unfold n_live.
    match goal with |- context [buf_set _ 0 (HdrPage ?h)] =>
      pose proof (sum_after_page_and_header live_of _ _ _ page' hdr0 h eq_refl
                    Hp Hne Hhb) end.
    simpl in *. lia.
  - destruct (hdr_at_0 _ _ _ _ H0 Hhb Hhdr) as [-> ->].
    eexists. split; [apply buf_set_0_lookup; by rewrite buf_set_length|].
    simpl. rewrite Hcnt, wrap_int_add. f_equal. unfold n_live.
    match goal with |- context [buf_set _ 0 (HdrPage ?h)] =>
      pose proof (sum_after_page_and_header live_of _ _ _ page' hdr0 h eq_refl
                    Hp Hne Hhb) end.
    simpl in *. lia.
  - destruct (hdr_at_0 _ _ _ _ H0 Hhb Hhdr) as [-> ->].
    destruct (insert_into_empty_page _ _ _ _ _ _ Hslot Hr Hsize Hins) as [_ Hl].
    eexists. split; [apply buf_set_0_lookup; rewrite length_app; lia|].
    simpl. rewrite Hcnt, wrap_int_add. f_equal. unfold n_live.
    rewrite (sum_after_grow live_of _ _ hdr0) by done. simpl. lia.
Qed.

(** The invariant of the states that sequences of operations reach. *)
Lemma reachable_inv `{E : Env} w0 name w1 w hs :
  createHeapFile w0 name = Some (w1, OK) ->
  reachable name w1 (w, hs) ->
  pages_ok (bufs w name) ∧ (SLOTSIZE = 0 -> recs_ok (bufs w name)) ∧
  Forall (handle_of name) hs.
Proof.
  intros Hc. unfold reachable. revert w hs.
  cut (∀ s, rtc (step name) (w1, []) s ->
            pages_ok (bufs s.1 name) ∧ (SLOTSIZE = 0 -> recs_ok (bufs s.1 name)) ∧
            Forall (handle_of name) s.2).
  { intros H w hs Hr. apply (H (w, hs) Hr). }
  apply (rtc_ind_r (λ s, pages_ok (bufs s.1 name) ∧
                         (SLOTSIZE = 0 -> recs_ok (bufs s.1 name)) ∧
                         Forall (handle_of name) s.2)); simpl.
  - destruct (createHeapFile_OK_inv _ _ _ Hc). done.
  - intros [w2 hs2] [w3 hs3] Hr Hstep (Hp & Hrec & Hhs). simpl in *.
    assert (bufs w2 name ≠ []) as Hne.
    { destruct Hp as (hdr & H0 & _). by destruct (bufs w2 name). }
    destruct (step_change _ _ _ _ _ Hstep Hne Hhs) as [Hch Hhs'].
    split; [by eapply change_pages_ok|]. split; [|done].
    intros Hslot. eapply change_recs_ok; eauto.
Qed.

(** ** A scan of an empty file *)

(** The cursor of a handle that was constructed on the file a successful
    [createHeapFile] left: the empty data page 1, before its first record. *)
Lemma HeapFile_ctor_fresh `{E : Env} w0 name w1 this0 st w2 this :
  createHeapFile w0 name = Some (w1, OK) ->
  HeapFile_ctor w1 name this0 st = Some (w2, this, OK) ->
  cur_page w2 this = Some (Page_init 1) ∧ curRec this = NULLRID.
Proof.
  intros Hc Hn. apply createHeapFile_OK_bufs in Hc.
  unfold HeapFile_ctor, header in Hn. run_ops.
  match goal with H : File_getFirstPage _ _ _ = _ |- _ =>
    apply File_getFirstPage_bufs in H; [|done] end.
  unfold cur_page. simpl. to_bufs. simpl in *. subst z.
  vm_compute in H. by simplify_eq.
Qed.

Lemma Page_getRecord_empty p rid rec :
  pg_slots p = [] -> Page_getRecord p rid rec = (INVALIDSLOTNO, rec).
Proof.
  intros H. unfold Page_getRecord, slot_at. rewrite H.
  by destruct (0 <=? slotNo rid).
Qed.

(** C5, on the code.  On a file that [createHeapFile] has just created, the
    first [scanNext] of a scan, with any predicate or none, returns the
    status of the page-level [getRecord] on the RID that [firstRecord] left
    unset, [INVALIDSLOTNO], and not [FILEEOF]: [firstRecord] reports the
    empty page with [NORECORDS], and [scanNext] leaves its inner loop on
    [ENDOFPAGE] only. *)
Theorem scanNext_empty_file `{E : Env} w0 name w1 this0 w2 this
  offset_ length_ type_ filter_ op_ this' fuel outRid nextRid :
  createHeapFile w0 name = Some (w1, OK) ->
  HeapFileScan_ctor w1 name this0 OK = Some (w2, this, OK) ->
  startScan this offset_ length_ type_ filter_ op_ = (this', OK) ->
  scanNext (S fuel) w2 this' outRid nextRid
  = Some (Some (w2, this', INVALIDSLOTNO, outRid)).
Proof.
  intros Hc Hn Hs. unfold HeapFileScan_ctor in Hn.
  apply bind_Some in Hn as ([[w3 this3] st3] & Hn & ?). simplify_eq.
  destruct (HeapFile_ctor_fresh _ _ _ _ _ _ _ Hc Hn) as [Hpage Hrec].
  assert (cur_page w2 this' = Some (Page_init 1) ∧ curRec this' = NULLRID)
    as [Hpage' Hrec'].
  { unfold startScan in Hs. unfold cur_page in *.
    destruct filter_; [case_bool_decide|]; by simplify_eq. }
  unfold scanNext. cbn [scanNext_loop]. rewrite Hpage', Hrec'.
  rewrite bool_decide_eq_true_2 by done.
  unfold Page_firstRecord. simpl.
  rewrite Page_getRecord_empty by done. reflexivity.
Qed.

(** ** insertRecord *)

Lemma insert_grow_fail_bufs `{E : Env} w this w' this' st :
  insert_grow w this = Some (w', this', Some st) ->
  bufs w' (filePtr this) = bufs w (filePtr this).
Proof.
  unfold insert_grow. intros H. run_ops.
  - by eapply bufs_unPinPage.
  - match goal with H : bufMgr_allocPage _ _ _ = _ |- _ =>
      destruct (bufs_allocPage _ _ _ _ _ _ H) as [(? & _)|(_ & ->)]; [done|] end.
    by eapply bufs_unPinPage.
Qed.

(** A call of [insertRecord] that does not return [OK] leaves the pages of
    the file as they were. *)
Lemma insertRecord_fail_bufs `{E : Env} w this rec outRid rid w' this' st outRid' :
  insertRecord w this rec outRid rid = Some (w', this', st, outRid') ->
  st ≠ OK -> bufs w' (filePtr this) = bufs w (filePtr this).
Proof.
  unfold insertRecord. intros H Hst.
  case_bool_decide as Hsize; [by simplify_eq|].
  apply bind_Some in H as ([[w1 this1] early] & Hseek & H).
  pose proof (insert_seek_effect _ _ _ _ _ Hseek) as (Hb1 & Hf1 & _).
  destruct early as [st1|]; [simplify_eq; apply Hb1|].
  apply bind_Some in H as (page & Hpage & H).
  destruct (Page_insertRecord page rec rid) as [[st1 page1] rid1] eqn:Hins.
  apply bind_Some in H as (w2 & Hw2 & H).
  unfold cur_page, set_cur_page in *.
  apply bind_Some in Hpage as (ptr & Hptr & Hpage).
  rewrite Hptr in Hw2. simpl in Hw2. simplify_eq.
  rewrite page_at_bufs, Hb1, Hf1 in Hpage. apply bind_as_page in Hpage.
  apply bind_Some in H as ([[[w3 this3] newRec] early] & Hmid & H).
  destruct early as [st3|].
  - simplify_eq.
    destruct (Page_insertRecord_cases _ _ _ _ _ _ Hins)
      as [[-> _]|(-> & -> & ->)].
    + rewrite decide_False in Hmid by done.
      rewrite decide_False in Hmid by auto. done.
    + rewrite decide_True in Hmid by done.
      apply bind_Some in Hmid as ([[w4 this4] e4] & Hg & ?). simplify_eq.
      apply insert_grow_fail_bufs in Hg. rewrite Hf1 in *.
      by rewrite Hg, bufs_write_buf, Hb1, (buf_set_id _ _ _ Hpage).
  - apply bind_Some in H as ([w5 rid5] & _ & H).
    apply bind_Some in H as (hdr5 & _ & H). by simplify_eq.
Qed.

(** The header before and after a call of [insertRecord] that returned
    [OK]: [recCnt] is incremented. *)
Lemma insertRecord_OK_header `{E : Env} w this rec outRid rid w' this' outRid' :
  insertRecord w this rec outRid rid = Some (w', this', OK, outRid') ->
  ∃ hdr hdr', header w this = Some hdr ∧ header w' this' = Some hdr' ∧
              recCnt hdr' = wrap_int (recCnt hdr + 1).
Proof.
  intros H. apply insertRecord_OK_effect in H
    as (Hf & Hh & _ & _ & _ & _ & ptr & page & hb & hdr & Hp & Hne & Hhb & Hhdr
        & Hcase).
  simpl in *. unfold header. rewrite Hf, Hh, !hdr_at_bufs, Hhb. simpl.
  exists hdr.
  destruct Hcase as [(page' & _ & ->)|(st2 & page2 & _ & _ & _ & ->)];
    eexists; (split; [done|]).
  - rewrite buf_at_set, decide_True, buf_at_set, decide_False, Hhb by done.
    done.
  - rewrite buf_at_set, decide_True, (buf_at_app_l _ _ _ _ Hhb) by done.
    done.
Qed.

(** C4, on the code.  A call of [insertRecord] that returns [OK]
    increments [header.recCnt] (as an [int]), sets [curRec] to the RID it
    returns through [outRid] and sets [curDirtyFlag]; but [hdrDirtyFlag]
    is what it was before the call: the function never assigns it. *)
Theorem insertRecord_OK_sets `{E : Env} w this rec outRid rid w' this' outRid' :
  insertRecord w this rec outRid rid = Some (w', this', OK, outRid') ->
  (∃ hdr hdr', header w this = Some hdr ∧ header w' this' = Some hdr' ∧
               recCnt hdr' = wrap_int (recCnt hdr + 1)) ∧
  curRec this' = outRid' ∧ curDirtyFlag this' = true ∧
  hdrDirtyFlag this' = hdrDirtyFlag this.
Proof.
  intros H. split; [by eapply insertRecord_OK_header|].
  apply insertRecord_OK_effect in H as (_ & _ & ? & ? & ? & _). done.
Qed.

(** C10.  When a call of [insertRecord] has grown the file by a page, it
    has returned [OK], incremented [header.recCnt], and set both [curRec]
    and [outRid] to what the retried page-level insert, on the new empty
    page [n], left in the variable [rid]; the status of that insert does
    not enter the result. *)
Theorem insertRecord_grow_unchecked `{E : Env} w this rec outRid rid
  w' this' st outRid' :
  insertRecord w this rec outRid rid = Some (w', this', st, outRid') ->
  length (bufs w' (filePtr this)) ≠ length (bufs w (filePtr this)) ->
  let n := Z.of_nat (length (bufs w (filePtr this))) in
  let retry := Page_insertRecord (Page_init n) rec rid in
  st = OK ∧ outRid' = retry.2 ∧ curRec this' = retry.2 ∧
  (∃ page, cur_page w' this' = Some retry.1.2 ∧
           Page_insertRecord page rec rid = (NOSPACE, page, rid)) ∧
  (∃ hdr hdr', header w this = Some hdr ∧ header w' this' = Some hdr' ∧
               recCnt hdr' = wrap_int (recCnt hdr + 1)).
Proof.
  intros H Hlen n retry.
  destruct (decide (st = OK)) as [->|Hst].
  2: { apply insertRecord_fail_bufs in H; [|done]. by rewrite H in Hlen. }
  split; [done|].
  pose proof (insertRecord_OK_header _ _ _ _ _ _ _ _ H) as Hhdr.
  apply insertRecord_OK_effect in H
    as (Hf & Hh & Hcur & _ & _ & _ & ptr & page & hb & hdr & Hp & Hne & Hhb & _
        & Hcase).
  simpl in *.
  destruct Hcase as [(page' & _ & Hb)|(st2 & page2 & Hfull & Hins & Hc & Hb)].
  { rewrite Hb, !buf_set_length in Hlen. done. }
  subst retry n. rewrite Hins. simpl. do 2 (split; [done|]).
  split; [|done]. exists page. split; [|done].
  unfold cur_page. rewrite Hc. simpl. rewrite page_at_bufs, Hf, Hb.
  rewrite buf_at_set, decide_False, buf_at_app.
  - done.
  - apply buf_at_lt in Hhb. lia.
Qed.

(** ** A pin that fails after the unpin *)

(** C6, on the code.  In [getRecord], [scanNext] and [insertRecord], when
    the current page has been unpinned and the pin of the next page fails
    ([readPage] or [allocPage] returns a status other than [OK]), the
    function returns that status and the handle as it was at entry: the
    current-page pointer still points to the page that was unpinned, and
    is null only if it was null before the call. *)
Theorem failed_pin_keeps_curPage `{E : Env} :
  (∀ w this rid rec w1 st w2,
     pageNo rid ≠ curPageNo this ->
     bufMgr_unPinPage w (filePtr this) (curPageNo this) (curDirtyFlag this)
       = (OK, w1) ->
     bufMgr_readPage w1 (filePtr this) (pageNo rid) = (st, w2) -> st ≠ OK ->
     getRecord w this rid rec = Some (w2, this, st, rec)) ∧
  (∀ fuel w this outRid nextRid page nextRid' w1 st w2,
     cur_page w this = Some page ->
     (if bool_decide (pageNo (curRec this) = pageNo NULLRID ∧
                      slotNo (curRec this) = slotNo NULLRID)
      then Page_firstRecord page nextRid
      else Page_nextRecord page (curRec this) nextRid) = (ENDOFPAGE, nextRid') ->
     Page_getNextPage page ≠ -1 ->
     bufMgr_unPinPage w (filePtr this) (curPageNo this) (curDirtyFlag this)
       = (OK, w1) ->
     bufMgr_readPage w1 (filePtr this) (Page_getNextPage page) = (st, w2) ->
     st ≠ OK ->
     scanNext (S fuel) w this outRid nextRid = Some (Some (w2, this, st, outRid))) ∧
  (∀ w this rec outRid rid hdr w1 st w2,
     ¬ to_unsigned (rec_length rec) > PAGESIZE - DPFIXED ->
     header w this = Some hdr -> curPageNo this ≠ lastPage hdr ->
     bufMgr_unPinPage w (filePtr this) (curPageNo this) (curDirtyFlag this)
       = (OK, w1) ->
     bufMgr_readPage w1 (filePtr this) (lastPage hdr) = (st, w2) -> st ≠ OK ->
     insertRecord w this rec outRid rid = Some (w2, this, st, NULLRID)) ∧
  (∀ w this rec outRid rid hdr page w0 w1 st w2 n,
     ¬ to_unsigned (rec_length rec) > PAGESIZE - DPFIXED ->
     header w this = Some hdr -> curPageNo this = lastPage hdr ->
     cur_page w this = Some page ->
     Page_insertRecord page rec rid = (NOSPACE, page, rid) ->
     set_cur_page w this page = Some w0 ->
     bufMgr_unPinPage w0 (filePtr this) (curPageNo this) (curDirtyFlag this)
       = (OK, w1) ->
     bufMgr_allocPage w1 (filePtr this) 0 = (st, w2, n) -> st ≠ OK ->
     insertRecord w this rec outRid rid = Some (w2, this, st, NULLRID)).
Proof.
  split; [|split; [|split]].
  - intros w this rid rec w1 st w2 Hne Hu Hr Hst. unfold getRecord.
    rewrite decide_True, Hu by done. simpl. rewrite Hr.
    by rewrite decide_True.
  - intros fuel w this outRid nextRid page nextRid' w1 st w2 Hp Hend Hnext
      Hu Hr Hst.
    unfold scanNext. cbn [scanNext_loop]. rewrite Hp, Hend.
    rewrite decide_True, decide_False, Hu by done. simpl. rewrite Hr.
    by rewrite decide_True.
  - intros w this rec outRid rid hdr w1 st w2 Hsize Hh Hne Hu Hr Hst.
    unfold insertRecord. rewrite bool_decide_eq_false_2 by done.
    unfold insert_seek. rewrite Hh. simpl.
    rewrite decide_True, Hu by done. simpl. rewrite Hr.
    by rewrite decide_True.
  - intros w this rec outRid rid hdr page w0 w1 st w2 n Hsize Hh Hlast Hp Hins
      Hw Hu Ha Hst.
    unfold insertRecord. rewrite bool_decide_eq_false_2 by done.
    unfold insert_seek. rewrite Hh. simpl.
    rewrite decide_False by (intros ?; done). simpl.
    rewrite Hp. simpl. rewrite Hins, Hw. simpl.
    unfold insert_grow. rewrite Hu. simpl. rewrite Ha.
    by rewrite decide_True.
Qed.

(** Evaluation of a closed call. *)
Ltac ev :=
  first [ vm_compute; reflexivity
        | vm_compute; congruence
        | vm_compute; intros ?; congruence
        | vm_compute; lia ].

(** The three functions at inputs where the unpin succeeds and the pin
    fails: [getRecord] of a page that does not exist; [scanNext] and
    [insertRecord] with a pool of two frames that a second handle keeps
    occupied.  The handle returned is the handle at entry, whose current
    page pointer is [Some 1].  In the second input the destructor of the
    failed scan then unpins page 1 once more: the page is left without a
    pin while the other scan still has it as its current page. *)
Lemma failed_pin_keeps_curPage_witness :
  (∃ w1 w2 this w3,
     createHeapFile (E:=spec_env) (empty_world 8) "t4" = Some (w1, OK) ∧
     HeapFileScan_ctor w1 "t4" raw_object OK = Some (w2, this, OK) ∧
     curPage this = Some 1 ∧
     getRecord w2 this (mkRID 99 0) no_Record
       = Some (w3, this, BADPAGENO, no_Record)) ∧
  (∃ w1 w2 ins w3 ins3 w4 ins4 w5 ins5 p1 w6 a w7 b w8 a8 w9 w10 a10,
     createHeapFile (E:=spec_env) (empty_world 2) "t4" = Some (w1, OK) ∧
     InsertFileScan_ctor w1 "t4" raw_object OK = Some (w2, ins, OK) ∧
     insertRecord (E:=spec_env) w2 ins (zero_record 600) NULLRID NULLRID
       = Some (w3, ins3, OK, mkRID 1 0) ∧
     insertRecord (E:=spec_env) w3 ins3 (zero_record 600) NULLRID NULLRID
       = Some (w4, ins4, OK, mkRID 2 0) ∧
     InsertFileScan_dtor w4 ins4 = Some (w5, ins5) ∧
     page_at w5 "t4" 1 = Some p1 ∧
     HeapFileScan_ctor (write_buf w5 "t4" 1 (DataPage (Page_setNextPage p1 2)))
       "t4" raw_object OK = Some (w6, a, OK) ∧
     HeapFileScan_ctor w6 "t4" raw_object OK = Some (w7, b, OK) ∧
     scanNext 2 w7 a NULLRID NULLRID
       = Some (Some (w8, a8, OK, NULLRID)) ∧
     curPage a8 = Some 1 ∧
     scanNext 2 w8 a8 NULLRID NULLRID
       = Some (Some (w9, a8, BUFFEREXCEEDED, NULLRID)) ∧
     HeapFileScan_dtor w9 a8 = Some (w10, a10) ∧
     curPage b = Some 1 ∧
     fr_pinCnt <$> frame_at w10 "t4" 1 = Some O) ∧
  (∃ w1 w2 a w3 b w4 a4 w5,
     createHeapFile (E:=spec_env) (empty_world 2) "t4" = Some (w1, OK) ∧
     InsertFileScan_ctor w1 "t4" raw_object OK = Some (w2, a, OK) ∧
     InsertFileScan_ctor w2 "t4" raw_object OK = Some (w3, b, OK) ∧
     insertRecord (E:=spec_env) w3 a (zero_record 600) NULLRID NULLRID
       = Some (w4, a4, OK, mkRID 1 0) ∧
     curPage a4 = Some 1 ∧
     insertRecord (E:=spec_env) w4 a4 (zero_record 600) NULLRID NULLRID
       = Some (w5, a4, BUFFEREXCEEDED, NULLRID)).
Proof.
  split; [|split].
  - eexists _, _, _, _. do 3 (split; [ev|]).
    eapply (proj1 (failed_pin_keeps_curPage (E:=spec_env))); ev.
  - eexists _, _, _, _, _, _, _, _, _, _, _, _, _, _, _, _, _, _, _.
    do 10 (split; [ev|]).
    split; [eapply (proj1 (proj2 (failed_pin_keeps_curPage (E:=spec_env)))); ev|].
    split; [ev|]. split; ev.
  - eexists _, _, _, _, _, _, _, _. do 5 (split; [ev|]).
    eapply (proj2 (proj2 (proj2 (failed_pin_keeps_curPage (E:=spec_env))))); ev.
Defined.

(** ** Witnesses and evaluations *)

(** The first insert into a new file: [hdrDirtyFlag] is [false] before
    and after it. *)
Lemma insertRecord_OK_sets_witness :
  ∃ w1 w2 this w3 this3,
    createHeapFile (E:=spec_env) (empty_world 8) "t1" = Some (w1, OK) ∧
    InsertFileScan_ctor w1 "t1" raw_object OK = Some (w2, this, OK) ∧
    hdrDirtyFlag this = false ∧
    insertRecord (E:=spec_env) w2 this (zero_record 40) NULLRID NULLRID
      = Some (w3, this3, OK, mkRID 1 0) ∧
    hdrDirtyFlag this3 = false ∧
    ((∃ hdr hdr', header w2 this = Some hdr ∧ header w3 this3 = Some hdr' ∧
                  recCnt hdr' = wrap_int (recCnt hdr + 1)) ∧
     curRec this3 = mkRID 1 0 ∧ curDirtyFlag this3 = true ∧
     hdrDirtyFlag this3 = hdrDirtyFlag this).
Proof.
  eexists _, _, _, _, _. do 5 (split; [ev|]).
  eapply (insertRecord_OK_sets (E:=spec_env) _ _ (zero_record 40) NULLRID
            NULLRID). ev.
Defined.

(** The first [scanNext] on the new file "t1", with no filter. *)
Lemma scanNext_empty_file_witness :
  ∃ w1 w2 this this',
    createHeapFile (E:=spec_env) (empty_world 8) "t1" = Some (w1, OK) ∧
    HeapFileScan_ctor w1 "t1" raw_object OK = Some (w2, this, OK) ∧
    startScan this 0 0 STRING None LT = (this', OK) ∧
    scanNext 1 w2 this' NULLRID NULLRID
      = Some (Some (w2, this', INVALIDSLOTNO, NULLRID)).
Proof.
  eexists _, _, _, _. do 3 (split; [ev|]).
  eapply (scanNext_empty_file (E:=spec_env) (empty_world 8) "t1" _ raw_object
            _ _ 0 0 STRING None LT); ev.
Defined.

(** With slots of four bytes a record of 1002 bytes passes the size check
    of [insertRecord] and fits no page.  The insert into the new file
    grows it by page 2, the retried page-level insert returns [NOSPACE],
    and [insertRecord] returns [OK] with the indeterminate [rid], here
    (9,9); the file then holds no record and [recCnt] is 1. *)
Lemma insertRecord_grow_unchecked_witness :
  ∃ w1 w2 this w3 this3,
    createHeapFile (E:=slotted_env) (empty_world 8) "t6" = Some (w1, OK) ∧
    InsertFileScan_ctor w1 "t6" raw_object OK = Some (w2, this, OK) ∧
    insertRecord (E:=slotted_env) w2 this (zero_record 1002) NULLRID (mkRID 9 9)
      = Some (w3, this3, OK, mkRID 9 9) ∧
    Page_insertRecord (E:=slotted_env) (Page_init (E:=slotted_env) 2)
      (zero_record 1002) (mkRID 9 9)
      = (NOSPACE, Page_init (E:=slotted_env) 2, mkRID 9 9) ∧
    live_records w3 "t6" = 0 ∧
    (let n := Z.of_nat (length (bufs w2 (filePtr this))) in
     let retry :=
       Page_insertRecord (E:=slotted_env) (Page_init (E:=slotted_env) n)
         (zero_record 1002) (mkRID 9 9) in
     OK = OK ∧ mkRID 9 9 = retry.2 ∧ curRec this3 = retry.2 ∧
     (∃ page, cur_page w3 this3 = Some retry.1.2 ∧
              Page_insertRecord (E:=slotted_env) page (zero_record 1002)
                (mkRID 9 9) = (NOSPACE, page, mkRID 9 9)) ∧
     (∃ hdr hdr', header w2 this = Some hdr ∧ header w3 this3 = Some hdr' ∧
                  recCnt hdr' = wrap_int (recCnt hdr + 1))).
Proof.
  eexists _, _, _, _, _. do 5 (split; [ev|]).
  eapply (insertRecord_grow_unchecked (E:=slotted_env) _ _ (zero_record 1002)
            NULLRID (mkRID 9 9)); ev.
Defined.

(** C1, at the failing input.  Two records of 600 bytes are inserted into
    a new file; the inserts return the RIDs (1,0) and (2,0), the second
    record going to a new page.  A scan of the reopened file with no filter
    returns [OK] once, leaving the caller's [outRid], here (7,7), as it
    was, with the cursor on (1,0); the next [scanNext] returns [FILEEOF]:
    the record (2,0) is not reached. *)
Theorem scan_after_inserts :
  ∃ w1 w2 ins w3 ins3 w4 ins4 w5 ins5 w6 scan scan' w7 scan7 w8 scan8,
    createHeapFile (E:=spec_env) (empty_world 8) "t1" = Some (w1, OK) ∧
    InsertFileScan_ctor w1 "t1" raw_object OK = Some (w2, ins, OK) ∧
    insertRecord (E:=spec_env) w2 ins (zero_record 600) NULLRID NULLRID
      = Some (w3, ins3, OK, mkRID 1 0) ∧
    insertRecord (E:=spec_env) w3 ins3 (zero_record 600) NULLRID NULLRID
      = Some (w4, ins4, OK, mkRID 2 0) ∧
    InsertFileScan_dtor w4 ins4 = Some (w5, ins5) ∧
    HeapFileScan_ctor w5 "t1" raw_object OK = Some (w6, scan, OK) ∧
    startScan scan 0 0 STRING None LT = (scan', OK) ∧
    scanNext 4 w6 scan' (mkRID 7 7) NULLRID
      = Some (Some (w7, scan7, OK, mkRID 7 7)) ∧
    curRec scan7 = mkRID 1 0 ∧
    scanNext 4 w7 scan7 (mkRID 7 7) NULLRID
      = Some (Some (w8, scan8, FILEEOF, mkRID 7 7)) ∧
    reachable_pages w8 "t1" = [1] ∧
    length (data_pages w8 "t1") = 2%nat.
Proof.
  eexists _, _, _, _, _, _, _, _, _, _, _, _, _, _, _, _.
  do 11 (split; [ev|]). ev.
Qed.

(** C8, at the failing input.  Three records are in the file.  After one
    advance the scan is marked; the next [scanNext], called with a variable
    that holds (7,7), returns [OK] and leaves (7,7) in it; after one more
    advance and [resetScan], [scanNext] called with a variable that holds
    (8,8) returns [OK] and leaves (8,8) in it.  Both calls moved the cursor
    to the record (1,1), but neither wrote it to [outRid]: the two RIDs the
    caller holds differ. *)
Theorem markScan_resetScan_outRid :
  ∃ w1 w2 ins w3 ins3 w4 ins4 w5 ins5 w6 ins6 w7 scan w8 scan8 marked
    w9 scan9 w10 scan10 w11 scan11 w12 scan12,
    createHeapFile (E:=spec_env) (empty_world 8) "t5" = Some (w1, OK) ∧
    InsertFileScan_ctor w1 "t5" raw_object OK = Some (w2, ins, OK) ∧
    insertRecord (E:=spec_env) w2 ins (zero_record 40) NULLRID NULLRID
      = Some (w3, ins3, OK, mkRID 1 0) ∧
    insertRecord (E:=spec_env) w3 ins3 (zero_record 40) NULLRID NULLRID
      = Some (w4, ins4, OK, mkRID 1 1) ∧
    insertRecord (E:=spec_env) w4 ins4 (zero_record 40) NULLRID NULLRID
      = Some (w5, ins5, OK, mkRID 1 2) ∧
    InsertFileScan_dtor w5 ins5 = Some (w6, ins6) ∧
    HeapFileScan_ctor w6 "t5" raw_object OK = Some (w7, scan, OK) ∧
    scanNext 4 w7 scan NULLRID NULLRID = Some (Some (w8, scan8, OK, NULLRID)) ∧
    markScan scan8 = (marked, OK) ∧
    scanNext 4 w8 marked (mkRID 7 7) NULLRID
      = Some (Some (w9, scan9, OK, mkRID 7 7)) ∧
    curRec scan9 = mkRID 1 1 ∧
    scanNext 4 w9 scan9 (mkRID 7 7) NULLRID
      = Some (Some (w10, scan10, OK, mkRID 7 7)) ∧
    resetScan w10 scan10 = (w11, scan11, OK) ∧
    scanNext 4 w11 scan11 (mkRID 8 8) NULLRID
      = Some (Some (w12, scan12, OK, mkRID 8 8)) ∧
    curRec scan12 = mkRID 1 1 ∧
    mkRID 7 7 ≠ mkRID 8 8.
Proof.
  eexists _, _, _, _, _, _, _, _, _, _, _, _, _, _, _, _, _, _, _, _, _, _, _, _.
  do 15 (split; [ev|]). ev.
Qed.

(** ** The counters of the header page *)

Lemma insert_many_reachable `{E : Env} name n rec w this w' this' hs i :
  int_range (rec_length rec) -> hs !! i = Some this ->
  insert_many n rec w this = Some (w', this') ->
  rtc (step name) (w, hs) (w', <[i:=this']> hs).
Proof.
  intros Hr. revert w this hs.
  induction n as [|n IH]; intros w this hs Hi H; simpl in H.
  - simplify_eq. by rewrite list_insert_id.
  - apply bind_Some in H as ([[[w1 this1] st] rid1] & Hins & H).
    case_decide; [subst st|done].
    eapply rtc_l; [by eapply step_insertRecord|].
    rewrite <- (list_insert_insert_eq hs i this' this1).
    apply (IH w1 this1); [|done].
    apply list_lookup_insert_eq. by eapply lookup_lt_Some.
Qed.

Lemma handle_header w name this hdr :
  handle_of name this -> bufs w name !! 0%nat = Some (HdrPage hdr) ->
  header w this = Some hdr.
Proof.
  intros [Hf Hh] H. unfold header. rewrite Hf, Hh, hdr_at_bufs.
  unfold buf_at. simpl.
  change (Z.to_nat 0) with 0%nat. by rewrite H.
Qed.

(** C3.  In the page layer of the spec, where a slot costs nothing: after
    a successful [createHeapFile] and any sequence of operations on handles
    of the file in which every [insertRecord] and every [deleteRecord]
    returned [OK], [header.recCnt] is the number of live records on the
    data pages of the file, as an [int] holds it, and so is that number as
    long as it is below 2^31; it is what [getRecCnt] returns on every open
    handle. *)
Theorem recCnt_counts_live_records `{E : Env} w0 name w1 w hs :
  SLOTSIZE = 0 ->
  createHeapFile w0 name = Some (w1, OK) ->
  reachable name w1 (w, hs) ->
  ∃ hdr, file_header w name = Some hdr ∧
         recCnt hdr = wrap_int (live_records w name) ∧
         (live_records w name < 2 ^ 31 -> recCnt hdr = live_records w name) ∧
         Forall (λ this, getRecCnt w this = Some (recCnt hdr)) hs.
Proof.
  intros Hslot Hc Hr.
  destruct (reachable_inv _ _ _ _ _ Hc Hr) as (_ & Hrec & Hhs).
  destruct (Hrec Hslot) as (hdr & H0 & Hcnt).
  exists hdr. rewrite live_records_n_live.
  split; [by apply file_header_bufs|]. split; [done|]. split.
  - intros Hlt. rewrite Hcnt. apply wrap_int_small. unfold int_range. lia.
  - eapply Forall_impl; [exact Hhs|]. intros this Hh. unfold getRecCnt.
    by rewrite (handle_header _ _ _ _ Hh H0).
Qed.

(** Two inserts through an [InsertFileScan], the second on a new page,
    then a scan on a second handle that deletes the first record. *)
Lemma recCnt_counts_live_records_witness :
  ∃ w1 w hs,
    createHeapFile (E:=spec_env) (empty_world 8) "t3" = Some (w1, OK) ∧
    reachable (E:=spec_env) "t3" w1 (w, hs) ∧
    live_records w "t3" = 1 ∧ length (data_pages w "t3") = 2%nat ∧
    ∃ hdr, file_header w "t3" = Some hdr ∧
           recCnt hdr = wrap_int (live_records w "t3") ∧
           (live_records w "t3" < 2 ^ 31 -> recCnt hdr = live_records w "t3") ∧
           Forall (λ this, getRecCnt w this = Some (recCnt hdr)) hs.
Proof.
  assert (∃ w1 w hs,
    createHeapFile (E:=spec_env) (empty_world 8) "t3" = Some (w1, OK) ∧
    reachable (E:=spec_env) "t3" w1 (w, hs) ∧
    live_records w "t3" = 1 ∧ length (data_pages w "t3") = 2%nat)
    as (w1 & w & hs & Hc & Hr & Hl & Hd).
  { eexists _, _, _. split; [ev|]. split.
    - unfold reachable.
      eapply rtc_l;
        [eapply (step_InsertFileScan_ctor _ _ _ raw_object); ev|]. simpl.
      eapply rtc_l;
        [eapply (step_insertRecord _ _ _ 0%nat _ (zero_record 600) NULLRID
                   NULLRID); [reflexivity|unfold int_range; simpl; lia|ev]|].
      simpl.
      eapply rtc_l;
        [eapply (step_insertRecord _ _ _ 0%nat _ (zero_record 600) NULLRID
                   NULLRID); [reflexivity|unfold int_range; simpl; lia|ev]|].
      simpl.
      eapply rtc_l;
        [eapply (step_HeapFileScan_ctor _ _ _ raw_object); ev|]. simpl.
      eapply rtc_l;
        [eapply (step_scanNext _ _ _ 1%nat _ 2%nat NULLRID NULLRID);
           [reflexivity|ev]|].
      simpl.
      eapply rtc_l; [eapply (step_deleteRecord _ _ _ 1%nat); [reflexivity|ev]|].
      simpl. apply rtc_refl.
    - split; ev. }
  exists w1, w, hs. do 4 (split; [done|]).
  exact (recCnt_counts_live_records (E:=spec_env) _ _ _ _ _ eq_refl Hc Hr).
Defined.

(** C2, as amended.  After a successful [createHeapFile] and any sequence
    of operations on handles of the file in which every [insertRecord] and
    every [deleteRecord] returned [OK], [header.pageCnt] is the number of
    data pages of the file, the header page not counted, as an [int] holds
    it.  In the scenario of the spec (pages of 1024 bytes of which 20 are
    fixed, 500 records of 40 bytes, 25 to a page) [header.pageCnt] is 20,
    the file has 20 data pages, and [getRecCnt] returns 500. *)
Theorem pageCnt_counts_data_pages :
  (∀ (E : Env) w0 name w1 w hs,
     createHeapFile w0 name = Some (w1, OK) ->
     reachable name w1 (w, hs) ->
     ∃ hdr, file_header w name = Some hdr ∧
            pageCnt hdr = wrap_int (Z.of_nat (length (data_pages w name))) ∧
            (Z.of_nat (length (data_pages w name)) < 2 ^ 31 ->
             pageCnt hdr = Z.of_nat (length (data_pages w name)))) ∧
  (∃ w this hdr,
     t2_after_500 = Some (w, this) ∧ file_header w "t2" = Some hdr ∧
     getRecCnt w this = Some 500 ∧ pageCnt hdr = 20 ∧
     length (data_pages w "t2") = 20%nat).
Proof.
  split.
  - intros E w0 name w1 w hs Hc Hr.
    destruct (reachable_inv _ _ _ _ _ Hc Hr) as ((hdr & H0 & Hcnt) & _ & _).
    exists hdr. rewrite data_pages_length.
    split; [by apply file_header_bufs|]. split; [done|].
    intros Hlt. rewrite Hcnt. apply wrap_int_small. unfold int_range. lia.
  - eexists _, _, _. do 4 (split; [ev|]). ev.
Qed.

(** The 500 inserts of the spec's scenario, as a sequence of operations. *)
Lemma pageCnt_counts_data_pages_witness :
  ∃ w1 w2 ins w this,
    createHeapFile (E:=spec_env) (empty_world 8) "t2" = Some (w1, OK) ∧
    InsertFileScan_ctor w1 "t2" raw_object OK = Some (w2, ins, OK) ∧
    insert_many (E:=spec_env) 500 (zero_record 40) w2 ins = Some (w, this) ∧
    reachable (E:=spec_env) "t2" w1 (w, [this]) ∧
    ∃ hdr, file_header w "t2" = Some hdr ∧
           pageCnt hdr = wrap_int (Z.of_nat (length (data_pages w "t2"))) ∧
           (Z.of_nat (length (data_pages w "t2")) < 2 ^ 31 ->
            pageCnt hdr = Z.of_nat (length (data_pages w "t2"))).
Proof.
  assert (∃ w1 w2 ins w this,
    createHeapFile (E:=spec_env) (empty_world 8) "t2" = Some (w1, OK) ∧
    InsertFileScan_ctor w1 "t2" raw_object OK = Some (w2, ins, OK) ∧
    insert_many (E:=spec_env) 500 (zero_record 40) w2 ins = Some (w, this))
    as (w1 & w2 & ins & w & this & Hc & Hn & Hi).
  { eexists _, _, _, _, _. do 2 (split; [ev|]). ev. }
  assert (reachable (E:=spec_env) "t2" w1 (w, [this])) as Hr.
  { unfold reachable.
    eapply rtc_l; [by eapply (step_InsertFileScan_ctor _ _ _ raw_object)|].
    simpl.
    apply (insert_many_reachable (E:=spec_env) "t2" 500 (zero_record 40)
             w2 ins w this [ins] 0%nat);
      [unfold int_range; simpl; lia|done|done]. }
  exists w1, w2, ins, w, this. do 4 (split; [done|]).
  exact (proj1 pageCnt_counts_data_pages spec_env _ _ _ _ _ Hc Hr).
Defined.

(** C2 as stated fails.  In the scenario of the spec [header.pageCnt] is
    20 after the 500 inserts, not 21; and the one data page that is
    reachable from [header.firstPage] is page 1, so that 1 plus the number
    of reachable data pages is 2.  Already on the new file [pageCnt] is 1,
    with one data page reachable. *)
Lemma pageCnt_not_one_plus_chain :
  (∃ w1 hdr,
     createHeapFile (E:=spec_env) (empty_world 8) "t2" = Some (w1, OK) ∧
     file_header w1 "t2" = Some hdr ∧ reachable_pages w1 "t2" = [1] ∧
     pageCnt hdr ≠ 1 + Z.of_nat (length (reachable_pages w1 "t2"))) ∧
  (∃ w this hdr,
     t2_after_500 = Some (w, this) ∧ file_header w "t2" = Some hdr ∧
     reachable_pages w "t2" = [1] ∧
     pageCnt hdr ≠ 1 + Z.of_nat (length (reachable_pages w "t2")) ∧
     pageCnt hdr ≠ 21).
Proof.
  split.
  - eexists _, _. do 3 (split; [ev|]). ev.
  - eexists _, _, _. do 4 (split; [ev|]). ev.
Qed.

(** * Further properties of the code *)

(** ** The world as the file at hand and the rest *)

Lemma set_file_twice w n f1 f2 :
  set_file (set_file w n f1) n f2 = set_file w n f2.
Proof. unfold set_file. simpl. by rewrite insert_insert_eq. Qed.

Lemma set_file_id w n f : db w !! n = Some f -> set_file w n f = w.
Proof. intros H. unfold set_file. rewrite insert_id by done. by destruct w. Qed.

Lemma db_set_file w n f : db (set_file w n f) !! n = Some f.
Proof. unfold set_file. simpl. apply lookup_insert_eq. Qed.

Lemma frame_at_set_file w n f p :
  frame_at (set_file w n f) n p =
  if 0 <=? p then f_frames f !! Z.to_nat p else None.
Proof. unfold frame_at. by rewrite db_set_file. Qed.

Lemma set_frame_set_file w n f p fr :
  set_frame (set_file w n f) n p fr =
  set_file w n {| f_frames := <[Z.to_nat p := fr]> (f_frames f);
                  f_openCnt := f_openCnt f |}.
Proof. unfold set_frame. by rewrite db_set_file, set_file_twice. Qed.

Lemma pinned_frames_new w n f :
  db w !! n = None ->
  pinned_frames (set_file w n f) = (pinned_in f + pinned_frames w)%nat.
Proof.
  intros H. unfold pinned_frames, set_file. simpl.
  rewrite map_fold_insert_L; [done| |done]. intros. lia.
Qed.


(** ** Pin and unpin, open and close *)

Lemma frame_at_set_frame w file p fr fr' :
  frame_at w file p = Some fr ->
  frame_at (set_frame w file p fr') file p = Some fr'.
Proof.
  unfold frame_at, set_frame. intros H.
  destruct (db w !! file) as [f|] eqn:Hdb; [|done]. simpl in H.
  rewrite db_set_file. simpl. destruct (0 <=? p); [|done].
  apply list_lookup_insert_eq. by eapply lookup_lt_Some.
Qed.

Lemma set_frame_twice w file p a b :
  set_frame (set_frame w file p a) file p b = set_frame w file p b.
Proof.
  unfold set_frame. destruct (db w !! file) as [f|] eqn:Hdb.
  - rewrite db_set_file, set_file_twice. simpl.
    by rewrite list_insert_insert_eq.
  - by rewrite Hdb.
Qed.

Lemma set_frame_id w file p fr :
  frame_at w file p = Some fr -> set_frame w file p fr = w.
Proof.
  unfold frame_at, set_frame. intros H.
  destruct (db w !! file) as [f|] eqn:Hdb; [|done]. simpl in H.
  destruct (0 <=? p); [|done].
  rewrite list_insert_id by done.
  rewrite <- (set_file_id _ _ _ Hdb) at 2. by destruct f.
Qed.

(** Unpinning a page clean right after pinning it gives back the world
    before the pin; so does closing a file right after opening it. *)
Lemma readPage_unPinPage w file p w' :
  bufMgr_readPage w file p = (OK, w') ->
  bufMgr_unPinPage w' file p false = (OK, w).
Proof.
  unfold bufMgr_readPage, bufMgr_unPinPage. intros H.
  destruct (frame_at w file p) as [fr|] eqn:Hfr; [|done].
  case_bool_decide; [|done]. simplify_eq.
  rewrite (frame_at_set_frame _ _ _ _ _ Hfr). simpl.
  rewrite set_frame_twice.
  replace {| fr_buf := fr_buf fr; fr_pinCnt := fr_pinCnt fr;
             fr_dirty := fr_dirty fr |} with fr by (by destruct fr).
  by rewrite (set_frame_id _ _ _ _ Hfr).
Qed.

Lemma openFile_closeFile w name w' :
  db_openFile w name = (OK, w') -> db_closeFile w' name = (OK, w).
Proof.
  unfold db_openFile, db_closeFile. intros H.
  destruct (db w !! name) as [f|] eqn:Hdb; [|done]. simplify_eq.
  rewrite db_set_file. simpl. rewrite set_file_twice.
  f_equal. rewrite <- (set_file_id _ _ _ Hdb) at 2. by destruct f.
Qed.

(** ** createHeapFile *)

Lemma allocPage_set_file w n f z :
  bufMgr_allocPage (set_file w n f) n z =
  if bool_decide (pinned_frames (set_file w n f) < numBufs w)%nat then
    (OK,
     set_file w n
       {| f_frames := f_frames f ++
            [{| fr_buf := RawPage; fr_pinCnt := 1; fr_dirty := false |}];
          f_openCnt := f_openCnt f |},
     Z.of_nat (length (f_frames f)))
  else (BUFFEREXCEEDED, set_file w n f, z).
Proof.
  unfold bufMgr_allocPage. rewrite db_set_file. simpl.
  case_bool_decide; [|done]. by rewrite set_file_twice.
Qed.

Lemma hdr_at_set_file w n f p :
  hdr_at (set_file w n f) n p =
  (if 0 <=? p then f_frames f !! Z.to_nat p else None) ≫= λ fr, as_hdr (fr_buf fr).
Proof. unfold hdr_at. by rewrite frame_at_set_file. Qed.

Lemma write_buf_set_file w n f p b :
  write_buf (set_file w n f) n p b =
  match (if 0 <=? p then f_frames f !! Z.to_nat p else None) with
  | Some fr =>
      set_file w n
        {| f_frames :=
             <[Z.to_nat p := {| fr_buf := b; fr_pinCnt := fr_pinCnt fr;
                                fr_dirty := fr_dirty fr |}]> (f_frames f);
           f_openCnt := f_openCnt f |}
  | None => set_file w n f
  end.
Proof.
  unfold write_buf. rewrite frame_at_set_file.
  destruct (if 0 <=? p then _ else _); [|done].
  by rewrite set_frame_set_file.
Qed.

Lemma unPinPage_set_file w n f p d :
  bufMgr_unPinPage (set_file w n f) n p d =
  match (if 0 <=? p then f_frames f !! Z.to_nat p else None) with
  | Some fr =>
      match fr_pinCnt fr with
      | O => (PAGENOTPINNED, set_file w n f)
      | S k =>
          (OK,
           set_file w n
             {| f_frames :=
                  <[Z.to_nat p := {| fr_buf := fr_buf fr; fr_pinCnt := k;
                                     fr_dirty := d || fr_dirty fr |}]>
                    (f_frames f);
                f_openCnt := f_openCnt f |})
      end
  | None => (HASHNOTFOUND, set_file w n f)
  end.
Proof.
  unfold bufMgr_unPinPage. rewrite frame_at_set_file.
  destruct (if 0 <=? p then _ else _) as [fr|]; [|done].
  destruct (fr_pinCnt fr); [done|]. by rewrite set_frame_set_file.
Qed.

(** What [createHeapFile] does for a name that is short enough and not in
    use, by the number of free frames of the buffer pool. *)
Lemma createHeapFile_new `{E : Env} w name :
  db w !! name = None ->
  Z.of_nat (String.length name) <= MAXNAMESIZE - 1 ->
  createHeapFile w name =
  if bool_decide (pinned_frames w < numBufs w)%nat then
    if bool_decide (S (pinned_frames w) < numBufs w)%nat then
      Some (set_file w name
              {| f_frames := [written (HdrPage (new_header name));
                              written (DataPage (Page_init 1))];
                 f_openCnt := 1 |}, OK)
    else
      Some (set_file w name
              {| f_frames :=
                   [{| fr_buf := HdrPage (hdr_set_fileName name zero_hdr);
                       fr_pinCnt := 1; fr_dirty := false |}];
                 f_openCnt := 1 |}, BUFFEREXCEEDED)
  else Some (set_file w name {| f_frames := []; f_openCnt := 1 |},
             BUFFEREXCEEDED).
Proof.
  intros Hdb Hlen. unfold createHeapFile.
  rewrite bool_decide_eq_false_2 by lia.
  unfold db_openFile at 1. rewrite Hdb. simpl.
  unfold db_createFile. rewrite Hdb. simpl.
  unfold db_openFile. rewrite db_set_file. simpl. rewrite set_file_twice.
  rewrite allocPage_set_file, pinned_frames_new by done. simpl.
  case_bool_decide; simpl; [|done].
  rewrite hdr_at_set_file. simpl.
  rewrite write_buf_set_file. simpl.
  rewrite allocPage_set_file, pinned_frames_new by done. simpl.
  case_bool_decide; simpl; [|done].
  rewrite write_buf_set_file. simpl.
  rewrite hdr_at_set_file. simpl.
  rewrite write_buf_set_file. simpl.
  rewrite unPinPage_set_file. simpl.
  rewrite unPinPage_set_file. simpl.
  done.
Qed.

Lemma createHeapFile_old `{E : Env} w name f :
  db w !! name = Some f ->
  Z.of_nat (String.length name) <= MAXNAMESIZE - 1 ->
  createHeapFile w name =
  Some (set_file w name {| f_frames := f_frames f;
                           f_openCnt := S (f_openCnt f) |}, FILEEXISTS).
Proof.
  intros Hdb Hlen. unfold createHeapFile.
  rewrite bool_decide_eq_false_2 by lia.
  unfold db_openFile. by rewrite Hdb.
Qed.

(** X1.  [createHeapFile] returns [OK] exactly when the name is short
    enough, no file of that name exists and the buffer pool has two frames
    free.  The file then consists of the header page, page 0, which names
    page 1 as the first and the last page and counts one page and no record,
    and of the empty data page 1; both pages are unpinned and marked dirty,
    and the file is open once.  No other file is touched. *)
Theorem createHeapFile_OK_iff `{E : Env} w name w' :
  createHeapFile w name = Some (w', OK) <->
  Z.of_nat (String.length name) <= MAXNAMESIZE - 1 ∧
  db w !! name = None ∧
  (pinned_frames w + 2 <= numBufs w)%nat ∧
  w' = set_file w name
         {| f_frames := [written (HdrPage (new_header name));
                         written (DataPage (Page_init 1))];
            f_openCnt := 1 |}.
Proof.
  split.
  - intros H.
    destruct (decide (Z.of_nat (String.length name) <= MAXNAMESIZE - 1))
      as [Hlen|Hlen].
    2: { unfold createHeapFile in H.
         rewrite bool_decide_eq_true_2 in H by lia. by simplify_eq. }
    destruct (db w !! name) as [f|] eqn:Hdb.
    { rewrite (createHeapFile_old _ _ _ Hdb Hlen) in H. by simplify_eq. }
    rewrite (createHeapFile_new _ _ Hdb Hlen) in H.
    repeat case_bool_decide; simplify_eq.
    repeat split; try done. lia.
  - intros (Hlen & Hdb & Hfree & ->).
    rewrite (createHeapFile_new _ _ Hdb Hlen).
    by rewrite !bool_decide_eq_true_2 by lia.
Qed.

(** X2.  When the name is free but the buffer pool has fewer than two free
    frames, [createHeapFile] returns [BUFFEREXCEEDED] and leaves a stub
    behind: the file exists, is open, and has no page or one page, which is
    still pinned.  A second [createHeapFile] of the name then returns
    [FILEEXISTS]. *)
Theorem createHeapFile_pool_full `{E : Env} w name :
  Z.of_nat (String.length name) <= MAXNAMESIZE - 1 ->
  db w !! name = None ->
  (numBufs w < pinned_frames w + 2)%nat ->
  ∃ w' f w'',
    createHeapFile w name = Some (w', BUFFEREXCEEDED) ∧
    db w' !! name = Some f ∧ f_openCnt f = 1%nat ∧
    (length (f_frames f) <= 1)%nat ∧
    pinned_in f = length (f_frames f) ∧
    createHeapFile w' name = Some (w'', FILEEXISTS).
Proof.
  intros Hlen Hdb Hfull. rewrite (createHeapFile_new _ _ Hdb Hlen).
  case_bool_decide; [rewrite bool_decide_eq_false_2 by lia|];
    eexists _, _, _; (split; [done|]);
    (split; [apply db_set_file|]); simpl;
    (repeat split; try done; try lia);
    by apply (createHeapFile_old _ _ _ (db_set_file _ _ _)).
Qed.

(** X3.  [createHeapFile] never closes the file it opens: whenever the name
    passes the length check, the file is open once more after the call than
    before, on the path that returns [FILEEXISTS] as on the path that
    creates the file; a [destroyHeapFile] that follows is refused with
    [FILEOPEN] and changes nothing.  On the [FILEEXISTS] path the pages of
    the file and their pins are as before. *)
Theorem createHeapFile_leaves_file_open `{E : Env} w name w' st :
  createHeapFile w name = Some (w', st) -> st ≠ BADFILE ->
  open_count w' name = S (open_count w name) ∧
  destroyHeapFile w' name = (FILEOPEN, w') ∧
  (st = FILEEXISTS <-> db w !! name ≠ None) ∧
  (st = FILEEXISTS -> frames w' name = frames w name).
Proof.
  intros H Hst.
  destruct (decide (Z.of_nat (String.length name) <= MAXNAMESIZE - 1))
    as [Hlen|Hlen].
  2: { unfold createHeapFile in H.
       rewrite bool_decide_eq_true_2 in H by lia. by simplify_eq. }
  unfold open_count, destroyHeapFile, db_destroyFile, frames.
  destruct (db w !! name) as [f|] eqn:Hdb.
  - rewrite (createHeapFile_old _ _ _ Hdb Hlen) in H. simplify_eq.
    rewrite db_set_file. simpl. done.
  - rewrite (createHeapFile_new _ _ Hdb Hlen) in H.
    repeat case_bool_decide; simplify_eq; rewrite db_set_file; simpl;
      (split; [done|]); (split; [done|]); split; try done; split; done.
Qed.

(** ** Opening a heap file *)



(** ** The status of the constructor *)

(** X5.  The constructor assigns [returnStatus] on its failure paths only:
    on an input on which it succeeds for a caller whose variable holds [OK],
    it does the same for a caller whose variable holds any status [rs], and
    that caller finds [rs] in the variable afterwards. *)
Theorem HeapFile_ctor_keeps_status w name this w' this' rs :
  HeapFile_ctor w name this OK = Some (w', this', OK) ->
  HeapFile_ctor w name this rs = Some (w', this', rs).
Proof.
  unfold HeapFile_ctor. intros H.
  destruct (db_openFile w name) as [st1 wa].
  destruct (decide (st1 = OK)); [|by simplify_eq].
  destruct (File_getFirstPage wa _ 0) as [st2 hp].
  destruct (decide (st2 ≠ OK)); [by simplify_eq|].
  destruct (bufMgr_readPage wa _ hp) as [st3 wb].
  destruct (decide (st3 ≠ OK)); [by simplify_eq|].
  destruct (header wb _) as [hdr|]; [|done]. simpl in *.
  destruct (bufMgr_readPage wb _ (firstPage hdr)) as [st4 wc].
  destruct (decide (st4 ≠ OK)); [by simplify_eq|].
  by simplify_eq.
Qed.

(** A scan is constructed on the new file "t9" by a caller whose status
    variable holds [BADFILE]. *)
Lemma HeapFile_ctor_keeps_status_witness :
  ∃ w1 w2 this,
    createHeapFile (E:=spec_env) (empty_world 8) "t9" = Some (w1, OK) ∧
    HeapFile_ctor w1 "t9" raw_object OK = Some (w2, this, OK) ∧
    HeapFile_ctor w1 "t9" raw_object BADFILE = Some (w2, this, BADFILE).
Proof.
  eexists _, _, _. split; [ev|].
  match goal with |- ?A ∧ _ => assert A as H by ev; split; [exact H|] end.
  exact (HeapFile_ctor_keeps_status _ _ _ _ _ BADFILE H).
Defined.

(** ** Construction and destruction *)

(** X6.  A scan that is constructed and destroyed at once leaves the
    database and the buffer pool exactly as they were: the destructor takes
    back the two pins and the open of the constructor, and marks no page
    dirty. *)
Theorem HeapFileScan_open_close w name this w1 h :
  HeapFileScan_ctor w name this OK = Some (w1, h, OK) ->
  ∃ h', HeapFileScan_dtor w1 h = Some (w, h') ∧ curPage h' = None.
Proof.
  unfold HeapFileScan_ctor, HeapFile_ctor. intros H.
  destruct (db_openFile w name) as [st1 wa] eqn:Ho.
  destruct (decide (st1 = OK)) as [->|]; [|by simplify_eq/=].
  simpl in H.
  destruct (File_getFirstPage wa name 0) as [st2 hp] eqn:Hg.
  destruct (decide (st2 ≠ OK)); [by simplify_eq/=|].
  destruct (bufMgr_readPage wa name hp) as [st3 wb] eqn:Hr1.
  destruct (decide (st3 ≠ OK)); [by simplify_eq/=|].
  assert (st3 = OK) as -> by (by destruct (decide (st3 = OK))).
  unfold header in H. simpl in H.
  destruct (hdr_at wb name hp) as [hdr|] eqn:Hh; [|done]. simpl in H.
  destruct (bufMgr_readPage wb name (firstPage hdr)) as [st4 wc] eqn:Hr2.
  destruct (decide (st4 ≠ OK)); [by simplify_eq/=|].
  assert (st4 = OK) as -> by (by destruct (decide (st4 = OK))).
  simplify_eq/=.
  unfold HeapFileScan_dtor, endScan. simpl.
  rewrite (readPage_unPinPage _ _ _ _ Hr2).
  unfold HeapFile_dtor, header. simpl. rewrite Hh. simpl.
  rewrite (readPage_unPinPage _ _ _ _ Hr1).
  rewrite (openFile_closeFile _ _ _ Ho).
  by eexists.
Qed.

(** ** getRecord on another page *)


(** ** getRecord after endScan *)

Lemma frame_at_set_frame_ne w file p fr q :
  p ≠ q -> 0 <= p -> frame_at (set_frame w file p fr) file q = frame_at w file q.
Proof.
  intros Hne Hp. unfold frame_at, set_frame.
  destruct (db w !! file) as [f|] eqn:Hdb; [|by rewrite Hdb].
  rewrite db_set_file. simpl. destruct (Z.leb_spec 0 q); [|done].
  apply list_lookup_insert_ne. lia.
Qed.

Lemma unPinPage_pins w file p d w' :
  bufMgr_unPinPage w file p d = (OK, w') ->
  pin_count w file p = S (pin_count w' file p) ∧
  ∀ q, q ≠ p -> pin_count w' file q = pin_count w file q.
Proof.
  unfold bufMgr_unPinPage, pin_count. intros H.
  destruct (frame_at w file p) as [fr|] eqn:Hfr; [|done].
  destruct (fr_pinCnt fr) as [|n] eqn:Hn; [done|]. simplify_eq.
  rewrite (frame_at_set_frame _ _ _ _ _ Hfr). simpl. split; [done|].
  intros q Hq. rewrite frame_at_set_frame_ne; [done|done|].
  unfold frame_at in Hfr. destruct (db w !! file); [|done]. simpl in Hfr.
  by destruct (Z.leb_spec 0 p).
Qed.

Lemma readPage_pins w file p w' :
  bufMgr_readPage w file p = (OK, w') ->
  pin_count w' file p = S (pin_count w file p) ∧
  ∀ q, q ≠ p -> pin_count w' file q = pin_count w file q.
Proof.
  unfold bufMgr_readPage, pin_count. intros H.
  destruct (frame_at w file p) as [fr|] eqn:Hfr; [|done].
  case_bool_decide; [|done]. simplify_eq.
  rewrite (frame_at_set_frame _ _ _ _ _ Hfr). simpl. split; [done|].
  intros q Hq. rewrite frame_at_set_frame_ne; [done|done|].
  unfold frame_at in Hfr. destruct (db w !! file); [|done]. simpl in Hfr.
  by destruct (Z.leb_spec 0 p).
Qed.

(** X8.  [endScan] leaves 0 in [curPageNo], the number that the header
    page has in a file that [createHeapFile] made.  A [getRecord] that
    follows, for a record of another page, takes the handle's current page
    to be page 0: when it returns [OK], it has unpinned page 0 and pinned
    the page of the record, and [curPage] is still null, so that the
    destructor will not unpin that page. *)
Theorem getRecord_after_endScan w this w1 this1 st rid rec w2 this2 rec' :
  curPage this ≠ None ->
  endScan w this = (w1, this1, st) ->
  pageNo rid ≠ 0 ->
  getRecord w1 this1 rid rec = Some (w2, this2, OK, rec') ->
  pin_count w1 (filePtr this) 0 = S (pin_count w2 (filePtr this) 0) ∧
  pin_count w2 (filePtr this) (pageNo rid)
    = S (pin_count w1 (filePtr this) (pageNo rid)) ∧
  curPage this2 = None ∧ curPageNo this2 = pageNo rid.
Proof.
  intros Hcur He Hne H.
  assert (curPage this1 = None ∧ curPageNo this1 = 0 ∧
          filePtr this1 = filePtr this) as (Hc1 & Hn1 & Hf1).
  { unfold endScan in He. destruct (curPage this); [|done].
    destruct (bufMgr_unPinPage _ _ _ _). by simplify_eq. }
  unfold getRecord in H. rewrite Hn1, Hf1 in H.
  rewrite decide_True in H by done.
  destruct (bufMgr_unPinPage _ _ _ _) as [st1 wa] eqn:Hu.
  destruct (decide (st1 ≠ OK)); [by simplify_eq/=|].
  assert (st1 = OK) as -> by (by destruct (decide (st1 = OK))).
  destruct (bufMgr_readPage _ _ _) as [st2 wb] eqn:Hr.
  destruct (decide (st2 ≠ OK)); [by simplify_eq/=|].
  assert (st2 = OK) as -> by (by destruct (decide (st2 = OK))).
  simpl in H. rewrite ?Hf1 in H.
  destruct (page_at wb (filePtr this) (pageNo rid)) as [p|];
    [|by simplify_eq/=].
  simpl in H. destruct (Page_getRecord p rid rec) as [st3 r3].
  destruct (decide (st3 ≠ OK)); simplify_eq/=.
  destruct (unPinPage_pins _ _ _ _ _ Hu) as [Hu0 Hu'].
  destruct (readPage_pins _ _ _ _ Hr) as [Hr0 Hr'].
  rewrite Hu0, Hr0, (Hr' 0), (Hu' (pageNo rid)) by done. done.
Qed.

(** A scan of a file with one record is ended; [getRecord] of the record
    then takes the pin of the header page. *)
Lemma getRecord_after_endScan_witness :
  ∃ w1 w2 ins w3 ins3 w4 ins4 w5 scan w6 scan6 w7 scan7,
    createHeapFile (E:=spec_env) (empty_world 8) "t9" = Some (w1, OK) ∧
    InsertFileScan_ctor w1 "t9" raw_object OK = Some (w2, ins, OK) ∧
    insertRecord (E:=spec_env) w2 ins (int_record x05) NULLRID NULLRID
      = Some (w3, ins3, OK, mkRID 1 0) ∧
    InsertFileScan_dtor w3 ins3 = Some (w4, ins4) ∧
    HeapFileScan_ctor w4 "t9" raw_object OK = Some (w5, scan, OK) ∧
    endScan w5 scan = (w6, scan6, OK) ∧
    getRecord w6 scan6 (mkRID 1 0) no_Record
      = Some (w7, scan7, OK, int_record x05) ∧
    pin_count w6 "t9" 0 = 1%nat ∧ pin_count w7 "t9" 0 = 0%nat ∧
    pin_count w6 "t9" 1 = 0%nat ∧ pin_count w7 "t9" 1 = 1%nat ∧
    (pin_count w6 (filePtr scan) 0 = S (pin_count w7 (filePtr scan) 0) ∧
     pin_count w7 (filePtr scan) (pageNo (mkRID 1 0))
       = S (pin_count w6 (filePtr scan) (pageNo (mkRID 1 0))) ∧
     curPage scan7 = None ∧ curPageNo scan7 = pageNo (mkRID 1 0)).
Proof.
  eexists _, _, _, _, _, _, _, _, _, _, _, _, _. do 5 (split; [ev|]).
  match goal with |- ?A ∧ _ => assert A as He by ev; split; [exact He|] end.
  match goal with |- ?A ∧ _ => assert A as H by ev; split; [exact H|] end.
  do 4 (split; [ev|]).
  match type of He with endScan _ ?t = _ =>
    assert (curPage t ≠ None) as Hc by ev end.
  assert (pageNo (mkRID 1 0) ≠ 0) as Hne by ev.
  exact (getRecord_after_endScan _ _ _ _ _ _ _ _ _ _ Hc He Hne H).
Defined.

(** ** endScan *)

(** X9.  After [endScan] the handle has no current page.  A second [endScan]
    returns [OK] and changes nothing, and the destructor of the scan then
    unpins the header page only.  No [startScan] gives the page back: the
    next [scanNext], [getRecord] or [deleteRecord] goes through the null
    page pointer. *)
Theorem endScan_closes_cursor `{E : Env} w this w' this' st :
  endScan w this = (w', this', st) ->
  curPage this' = None ∧
  endScan w' this' = (w', this', OK) ∧
  HeapFileScan_dtor w' this' = HeapFile_dtor w' this' ∧
  (∀ offset_ length_ type_ filter_ op_ fuel outRid nextRid,
     scanNext (S fuel) w'
       (startScan this' offset_ length_ type_ filter_ op_).1 outRid nextRid
     = Some None) ∧
  (∀ rec, HeapFileScan_getRecord w' this' rec = None) ∧
  deleteRecord w' this' = None.
Proof.
  intros H.
  assert (curPage this' = None) as Hc.
  { unfold endScan in H. destruct (curPage this) eqn:Hc.
    - destruct (bufMgr_unPinPage _ _ _ _). by simplify_eq.
    - by simplify_eq. }
  split; [done|].
  assert (endScan w' this' = (w', this', OK)) as He.
  { unfold endScan. by rewrite Hc. }
  split; [done|]. split; [unfold HeapFileScan_dtor; by rewrite He|].
  split; [|split].
  - intros. unfold scanNext. cbn [scanNext_loop]. unfold cur_page.
    assert (curPage (startScan this' offset_ length_ type_ filter_ op_).1 = None)
      as ->; [|done].
    unfold startScan. destruct filter_; [case_bool_decide|]; done.
  - intros rec. unfold HeapFileScan_getRecord, cur_page. by rewrite Hc.
  - unfold deleteRecord, cur_page. by rewrite Hc.
Qed.

(** A scan of the new file "t9" is ended, given a predicate and advanced. *)
Lemma endScan_closes_cursor_witness :
  ∃ w1 w2 scan w3 scan3,
    createHeapFile (E:=spec_env) (empty_world 8) "t9" = Some (w1, OK) ∧
    HeapFileScan_ctor w1 "t9" raw_object OK = Some (w2, scan, OK) ∧
    endScan w2 scan = (w3, scan3, OK) ∧
    endScan w3 scan3 = (w3, scan3, OK) ∧
    scanNext 1 w3 (startScan scan3 0 0 STRING None LT).1 NULLRID NULLRID
      = Some None.
Proof.
  eexists _, _, _, _, _. do 2 (split; [ev|]).
  match goal with |- ?A ∧ _ => assert A as H by ev; split; [exact H|] end.
  pose proof (endScan_closes_cursor (E:=spec_env) _ _ _ _ _ H)
    as (_ & He & _ & Hs & _).
  split; [exact He|]. exact (Hs 0 0 STRING None LT O NULLRID NULLRID).
Defined.

(** ** The cursor of a scan *)

Lemma set_curRec_same this : set_curRec (curRec this) this = this.
Proof. by destruct this. Qed.

Lemma matchRec_set_curRec r this rec :
  matchRec (set_curRec r this) rec = matchRec this rec.
Proof. done. Qed.

(** A scan on a page that has no successor neither touches the buffer pool
    nor changes any member of the handle but [curRec]. *)
Lemma scanNext_loop_last_page fuel w this tmpRid nextRid page w' this' st :
  cur_page w this = Some page -> Page_getNextPage page = -1 ->
  scanNext_loop fuel w this tmpRid nextRid = Some (Some (w', this', st)) ->
  w' = w ∧ ∃ r, this' = set_curRec r this.
Proof.
  intros Hp Hn. revert nextRid.
  induction fuel as [|fuel IH]; intros nextRid H; [done|].
  simpl in H. rewrite Hp in H.
  destruct (if bool_decide _ then _ else _) as [st1 nextRid1] in H.
  case_decide.
  - rewrite decide_True in H by done. simplify_eq.
    split; [done|]. exists (curRec this'). by rewrite set_curRec_same.
  - destruct (Page_getRecord page nextRid1 no_Record) as [st2 rec].
    case_decide.
    + simplify_eq. split; [done|]. exists (curRec this').
      by rewrite set_curRec_same.
    + destruct (matchRec this rec); [|by eapply IH].
      simplify_eq. split; [done|]. by eexists.
Qed.

(** X10.  [markScan], any number of calls of [scanNext] that return (with
    any status), then [resetScan]: on a page that has no successor, the
    handle and the buffer pool are again exactly what they were after
    [markScan], and [resetScan] returns [OK]. *)
Theorem markScan_resetScan_restores w this page w1 a :
  cur_page w this = Some page -> Page_getNextPage page = -1 ->
  rtc scan_step (w, (markScan this).1) (w1, a) ->
  resetScan w1 a = (w, (markScan this).1, OK).
Proof.
  intros Hp Hn Hr.
  set (m := (markScan this).1) in *.
  assert (w1 = w ∧ ∃ r, a = set_curRec r m) as [-> [r ->]].
  { revert Hr.
    cut (∀ s, rtc scan_step (w, m) s -> s.1 = w ∧ ∃ r, s.2 = set_curRec r m).
    { intros H Hr. apply (H _ Hr). }
    apply (rtc_ind_r (λ s, s.1 = w ∧ ∃ r, s.2 = set_curRec r m)).
    - split; [done|]. exists (curRec m). by rewrite set_curRec_same.
    - intros [w2 b] [w3 c] _ (fuel & o & n & st & o' & Hs) [Hw [r Hb]].
      simpl in *. subst w2 b. unfold scanNext in Hs.
      destruct (scanNext_loop _ _ _ _ _) as [[[[w4 d] st4]|]|] eqn:Hl;
        simplify_eq/=.
      eapply scanNext_loop_last_page in Hl as [-> [r' ->]]; [|exact Hp|done].
      split; [done|]. by exists r'. }
  unfold resetScan. simpl. rewrite decide_False by (intros ?; done).
  subst m. by destruct this.
Qed.
Lemma scan_step_intro fuel w this outRid nextRid w' this' st outRid' :
  scanNext fuel w this outRid nextRid = Some (Some (w', this', st, outRid')) ->
  scan_step (w, this) (w', this').
Proof. intros H. by exists fuel, outRid, nextRid, st, outRid'. Qed.

(** Two records on page 1; the scan is marked before its first advance,
    advanced twice to the record (1,1), and reset. *)
Lemma markScan_resetScan_restores_witness :
  ∃ w1 w2 ins w3 ins3 w4 ins4 w5 ins5 w6 scan page w7 a w8 b,
    createHeapFile (E:=spec_env) (empty_world 8) "t7" = Some (w1, OK) ∧
    InsertFileScan_ctor w1 "t7" raw_object OK = Some (w2, ins, OK) ∧
    insertRecord (E:=spec_env) w2 ins (zero_record 40) NULLRID NULLRID
      = Some (w3, ins3, OK, mkRID 1 0) ∧
    insertRecord (E:=spec_env) w3 ins3 (zero_record 40) NULLRID NULLRID
      = Some (w4, ins4, OK, mkRID 1 1) ∧
    InsertFileScan_dtor w4 ins4 = Some (w5, ins5) ∧
    HeapFileScan_ctor w5 "t7" raw_object OK = Some (w6, scan, OK) ∧
    cur_page w6 scan = Some page ∧ Page_getNextPage page = -1 ∧
    scanNext 1 w6 (markScan scan).1 NULLRID NULLRID
      = Some (Some (w7, a, OK, NULLRID)) ∧
    scanNext 1 w7 a NULLRID NULLRID = Some (Some (w8, b, OK, NULLRID)) ∧
    curRec b = mkRID 1 1 ∧
    resetScan w8 b = (w6, (markScan scan).1, OK).
Proof.
  eexists _, _, _, _, _, _, _, _, _, _, _, _, _, _, _, _.
  do 11 (split; [ev|]).
  eapply (markScan_resetScan_restores _ _ _); [ev|ev|].
  eapply rtc_l; [eapply (scan_step_intro 1 _ _ NULLRID NULLRID); ev|].
  eapply rtc_l; [eapply (scan_step_intro 1 _ _ NULLRID NULLRID); ev|].
  apply rtc_refl.
Defined.

(** ** What scanNext finds *)

Lemma scanNext_loop_found fuel w this tmpRid nextRid w' this' :
  scanNext_loop fuel w this tmpRid nextRid = Some (Some (w', this', OK)) ->
  ∃ page rec,
    cur_page w' this' = Some page ∧
    Page_getRecord page (curRec this') no_Record = (OK, rec) ∧
    matchRec this' rec = true.
Proof.
  revert w this nextRid.
  induction fuel as [|fuel IH]; intros w this nextRid H; [done|].
  simpl in H. destruct (cur_page w this) as [page|] eqn:Hp; [|done].
  destruct (if bool_decide _ then _ else _) as [st1 nextRid1] in H.
  case_decide.
  - case_decide; [done|].
    destruct (bufMgr_unPinPage _ _ _ _) as [st2 w2].
    case_decide; [by simplify_eq|].
    destruct (bufMgr_readPage _ _ _) as [st3 w3].
    case_decide; [by simplify_eq|]. by eapply IH.
  - destruct (Page_getRecord page nextRid1 no_Record) as [st2 rec] eqn:Hg.
    destruct (decide (st2 = OK)) as [->|];
      [|rewrite decide_True in H by done; by simplify_eq].
    rewrite decide_False in H by (intros ?; done).
    destruct (matchRec this rec) eqn:Hm; [|by eapply IH].
    simplify_eq. by exists page, rec.
Qed.

(** [scanNext] assigns none of the members that make the predicate. *)
Lemma scanNext_loop_keeps_predicate fuel w this tmpRid nextRid w' this' st :
  scanNext_loop fuel w this tmpRid nextRid = Some (Some (w', this', st)) ->
  p_offset this' = p_offset this ∧ p_length this' = p_length this ∧
  p_type this' = p_type this ∧ p_filter this' = p_filter this ∧
  p_op this' = p_op this.
Proof.
  revert w this nextRid.
  induction fuel as [|fuel IH]; intros w this nextRid H; [done|].
  simpl in H. destruct (cur_page w this) as [page|]; [|done].
  destruct (if bool_decide _ then _ else _) as [st1 nextRid1] in H.
  case_decide.
  - case_decide; [by simplify_eq|].
    destruct (bufMgr_unPinPage _ _ _ _) as [st2 w2].
    case_decide; [by simplify_eq|].
    destruct (bufMgr_readPage _ _ _) as [st3 w3].
    case_decide; [by simplify_eq|].
    by apply IH in H.
  - destruct (Page_getRecord page nextRid1 no_Record) as [st2 rec2].
    case_decide; [by simplify_eq|].
    destruct (matchRec this rec2); [by simplify_eq|].
    by apply IH in H.
Qed.

Lemma matchRec_same_predicate this this' rec :
  p_offset this' = p_offset this ∧ p_length this' = p_length this ∧
  p_type this' = p_type this ∧ p_filter this' = p_filter this ∧
  p_op this' = p_op this ->
  matchRec this' rec = matchRec this rec.
Proof. intros (Ho & Hl & Ht & Hf & Hp). unfold matchRec. by rewrite Ho, Hl, Ht, Hf, Hp. Qed.

(** X11.  A call of [scanNext] that returns [OK] leaves the cursor on a
    record that exists on the current page and satisfies the predicate of
    the scan: [getRecord] then returns this record with status [OK]. *)
Theorem scanNext_OK_matches fuel w this outRid nextRid w' this' outRid' rec0 :
  scanNext fuel w this outRid nextRid = Some (Some (w', this', OK, outRid')) ->
  ∃ rec, HeapFileScan_getRecord w' this' rec0 = Some (OK, rec) ∧
         matchRec this rec = true.
Proof.
  unfold scanNext. intros H.
  destruct (scanNext_loop _ _ _ _ _) as [[[[w1 this1] st1]|]|] eqn:Hl;
    simplify_eq/=.
  pose proof (scanNext_loop_keeps_predicate _ _ _ _ _ _ _ _ Hl) as Hsame.
  apply scanNext_loop_found in Hl as (page & rec & Hp & Hg & Hm).
  exists rec. unfold HeapFileScan_getRecord. rewrite Hp. simpl.
  split; [|by rewrite <- (matchRec_same_predicate _ _ _ Hsame)].
  unfold Page_getRecord in *.
  destruct (slot_at page (slotNo (curRec this'))); by simplify_eq.
Qed.

Lemma first_or_next_OK (c : bool) page tmpRid nextRid r :
  (if c then Page_firstRecord page nextRid
   else Page_nextRecord page tmpRid nextRid) = (OK, r) ->
  ∀ nextRid', (if c then Page_firstRecord page nextRid'
               else Page_nextRecord page tmpRid nextRid') = (OK, r).
Proof.
  unfold Page_firstRecord, Page_nextRecord. intros H nextRid'.
  destruct c; destruct (next_live _ _); by simplify_eq.
Qed.

(** X12.  [scanNext] does not return when the record that follows the cursor
    fails the predicate: the inner loop looks for the next record from
    [tmpRid], which no statement of the loop changes, so every pass finds
    the same record again.  In the embedding the loop is still running after
    any number of passes. *)
Theorem scanNext_diverges fuel w this outRid nextRid page nextRid' rec :
  cur_page w this = Some page ->
  (if bool_decide (pageNo (curRec this) = pageNo NULLRID ∧
                   slotNo (curRec this) = slotNo NULLRID)
   then Page_firstRecord page nextRid
   else Page_nextRecord page (curRec this) nextRid) = (OK, nextRid') ->
  Page_getRecord page nextRid' no_Record = (OK, rec) ->
  matchRec this rec = false ->
  scanNext fuel w this outRid nextRid = None.
Proof.
  intros Hp Hnext Hg Hm. unfold scanNext.
  assert (scanNext_loop fuel w this (curRec this) nextRid = None) as ->; [|done].
  revert nextRid Hnext. induction fuel as [|fuel IH]; intros nextRid Hnext; [done|].
  cbn [scanNext_loop]. rewrite Hp, Hnext. rewrite decide_False by done.
  rewrite Hg. rewrite decide_False by (intros ?; done). rewrite Hm.
  apply IH. by eapply first_or_next_OK.
Qed.

(** The file "t8" holds one record, the [int] 5; the scan looks for the
    records whose [int] at offset 0 equals 7. *)
Lemma scanNext_diverges_witness :
  ∃ w1 w2 ins w3 ins3 w4 ins4 w5 scan scan' page,
    createHeapFile (E:=spec_env) (empty_world 8) "t8" = Some (w1, OK) ∧
    InsertFileScan_ctor w1 "t8" raw_object OK = Some (w2, ins, OK) ∧
    insertRecord (E:=spec_env) w2 ins (int_record x05) NULLRID NULLRID
      = Some (w3, ins3, OK, mkRID 1 0) ∧
    InsertFileScan_dtor w3 ins3 = Some (w4, ins4) ∧
    HeapFileScan_ctor w4 "t8" raw_object OK = Some (w5, scan, OK) ∧
    startScan scan 0 4 INTEGER (Some [x07; x00; x00; x00]) EQ = (scan', OK) ∧
    cur_page w5 scan' = Some page ∧
    Page_firstRecord page NULLRID = (OK, mkRID 1 0) ∧
    Page_getRecord page (mkRID 1 0) no_Record = (OK, int_record x05) ∧
    matchRec scan' (int_record x05) = false ∧
    ∀ fuel, scanNext fuel w5 scan' NULLRID NULLRID = None.
Proof.
  eexists _, _, _, _, _, _, _, _, _, _, _.
  do 10 (split; [ev|]).
  intros fuel.
  eapply (scanNext_diverges fuel _ _ NULLRID NULLRID _ (mkRID 1 0) (int_record x05));
    ev.
Defined.

(** The same file; the scan looks for the records whose [int] equals 5. *)
Lemma scanNext_OK_matches_witness :
  ∃ w1 w2 ins w3 ins3 w4 ins4 w5 scan scan' w6 scan6,
    createHeapFile (E:=spec_env) (empty_world 8) "t8" = Some (w1, OK) ∧
    InsertFileScan_ctor w1 "t8" raw_object OK = Some (w2, ins, OK) ∧
    insertRecord (E:=spec_env) w2 ins (int_record x05) NULLRID NULLRID
      = Some (w3, ins3, OK, mkRID 1 0) ∧
    InsertFileScan_dtor w3 ins3 = Some (w4, ins4) ∧
    HeapFileScan_ctor w4 "t8" raw_object OK = Some (w5, scan, OK) ∧
    startScan scan 0 4 INTEGER (Some [x05; x00; x00; x00]) EQ = (scan', OK) ∧
    scanNext 1 w5 scan' NULLRID NULLRID = Some (Some (w6, scan6, OK, NULLRID)) ∧
    ∃ rec, HeapFileScan_getRecord w6 scan6 no_Record = Some (OK, rec) ∧
           matchRec scan' rec = true.
Proof.
  eexists _, _, _, _, _, _, _, _, _, _, _, _.
  do 6 (split; [ev|]).
  match goal with |- ?A ∧ _ => assert A as H by ev; split; [exact H|] end.
  exact (scanNext_OK_matches _ _ _ _ _ _ _ _ _ H).
Defined.

(** ** A scan without a filter *)

Lemma head_filter_shift (m : nat) (l : list nat) :
  head (filter (λ j, S m ≤ j)%nat (S <$> l))
  = S <$> head (filter (λ j, m ≤ j)%nat l).
Proof.
  induction l as [|x l IHl]; [done|].
  rewrite fmap_cons, !filter_cons.
  destruct (decide (m ≤ x)%nat).
  - rewrite decide_True by lia. done.
  - rewrite decide_False by lia. done.
Qed.

Lemma filter_all_ge (l : list nat) : filter (λ j, 0 ≤ j)%nat l = l.
Proof.
  induction l as [|x l IHl]; [done|].
  rewrite filter_cons, decide_True by lia. by rewrite IHl.
Qed.

Lemma next_live_head slots k :
  next_live slots k = head (filter (λ j, k ≤ j)%nat (live_ix slots)).
Proof.
  revert k. induction slots as [|s rest IH]; intros k; [done|].
  destruct k as [|k]; cbn [next_live live_ix].
  - destruct s as [r|].
    + rewrite filter_app, filter_cons, decide_True by lia. done.
    + rewrite app_nil_l, IH, !filter_all_ge. by destruct (live_ix rest).
  - rewrite IH. destruct s as [r|].
    + rewrite filter_app, filter_cons, decide_False, filter_nil, app_nil_l by lia.
      by rewrite head_filter_shift.
    + by rewrite app_nil_l, head_filter_shift.
Qed.

Lemma increasing_fmap_S l : increasing l -> increasing (S <$> l).
Proof.
  induction l as [|x l IH]; [done|]. intros [Hall Hl]. split; [|by apply IH].
  apply Forall_fmap. eapply Forall_impl; [exact Hall|]. simpl. lia.
Qed.

Lemma live_ix_increasing slots : increasing (live_ix slots).
Proof.
  induction slots as [|s rest IH]; [done|]. cbn [live_ix].
  apply increasing_fmap_S in IH.
  destruct s; [|done]. split; [|done].
  apply Forall_fmap, Forall_forall. intros. simpl. lia.
Qed.

Lemma live_ix_slot slots i :
  i ∈ live_ix slots -> ∃ r, slots !! i = Some (Some r).
Proof.
  revert i. induction slots as [|s rest IH]; intros i; cbn [live_ix].
  - by intros ?%elem_of_nil.
  - rewrite elem_of_app, list_elem_of_fmap.
    intros [Hi|(j & -> & Hj)].
    + destruct s; [|by apply elem_of_nil in Hi].
      apply list_elem_of_singleton in Hi. subst. by eexists.
    + by apply IH.
Qed.

Lemma filter_after_increasing (x : nat) l :
  increasing (x :: l) ->
  filter (λ j, Z.to_nat (Z.of_nat x + 1) ≤ j)%nat l = l.
Proof.
  intros [Hall _].
  induction l as [|y l IH]; [done|].
  apply Forall_cons in Hall as [Hy Hall].
  rewrite filter_cons, decide_True by lia. by rewrite IH.
Qed.

Lemma filter_before_increasing (x : nat) pre l :
  increasing (pre ++ x :: l) ->
  filter (λ j, Z.to_nat (Z.of_nat x + 1) ≤ j)%nat (pre ++ x :: l) = l.
Proof.
  induction pre as [|y pre IH]; cbn [app]; intros Hs.
  - rewrite filter_cons, decide_False by lia.
    by apply filter_after_increasing.
  - destruct Hs as [Hall Hs'].
    rewrite filter_cons, decide_False; [by apply IH|].
    apply Forall_app in Hall as [_ Hall].
    apply Forall_cons in Hall as [Hy _]. lia.
Qed.

Lemma scan_all_S n w this :
  scan_all (S n) w this =
  match scanNext 1 w this NULLRID NULLRID with
  | Some (Some (w', this', st, _)) =>
      if decide (st = OK) then
        let '(rids, last) := scan_all n w' this' in
        (curRec this' :: rids, last)
      else ([], Some st)
  | _ => ([], None)
  end.
Proof. done. Qed.

(** One call of [scanNext] without a filter on a page that has no
    successor: from the live slot [x] the cursor moves to the next live
    slot, and the call returns [FILEEOF] when there is none. *)
Lemma scanNext_no_filter w this page pre x rest :
  p_filter this = None ->
  cur_page w this = Some page -> Page_getNextPage page = -1 ->
  live_ix (pg_slots page) = pre ++ x :: rest ->
  curRec this = mkRID (pg_curPage page) (Z.of_nat x) ->
  scanNext 1 w this NULLRID NULLRID =
  Some (Some
    match rest with
    | [] => (w, this, FILEEOF, NULLRID)
    | y :: _ =>
        (w, set_curRec (mkRID (pg_curPage page) (Z.of_nat y)) this, OK, NULLRID)
    end).
Proof.
  intros Hf Hp Hn Hl Hc.
  unfold scanNext. cbn [scanNext_loop]. rewrite Hp, Hc. simpl.
  rewrite bool_decide_eq_false_2 by (intros [_ ?]; lia).
  unfold Page_nextRecord. simpl. rewrite next_live_head, Hl.
  rewrite filter_before_increasing by (rewrite <- Hl; apply live_ix_increasing).
  destruct rest as [|y rest]; simpl.
  - by case_decide.
  - destruct (live_ix_slot (pg_slots page) y) as [r Hr].
    { rewrite Hl. apply elem_of_app. right. apply elem_of_cons. right.
      apply elem_of_cons. by left. }
    unfold Page_getRecord, slot_at. simpl.
    destruct (Z.leb_spec 0 (Z.of_nat y)); [|lia].
    rewrite Nat2Z.id, Hr. simpl.
    unfold matchRec. rewrite Hf. done.
Qed.

(** The first call, with the cursor before the first record. *)
Lemma scanNext_no_filter_first w this page :
  p_filter this = None -> curRec this = NULLRID ->
  cur_page w this = Some page ->
  scanNext 1 w this NULLRID NULLRID =
  Some (Some
    match live_ix (pg_slots page) with
    | [] => (w, this, INVALIDSLOTNO, NULLRID)
    | x :: _ =>
        (w, set_curRec (mkRID (pg_curPage page) (Z.of_nat x)) this, OK, NULLRID)
    end).
Proof.
  intros Hf Hc Hp.
  unfold scanNext. cbn [scanNext_loop]. rewrite Hp, Hc. simpl.
  unfold Page_firstRecord. rewrite next_live_head, filter_all_ge.
  destruct (live_ix (pg_slots page)) as [|x rest] eqn:Hl; simpl; [done|].
  destruct (live_ix_slot (pg_slots page) x) as [r Hr].
  { rewrite Hl. by left. }
  unfold Page_getRecord, slot_at. simpl.
  destruct (Z.leb_spec 0 (Z.of_nat x)); [|lia].
  rewrite Nat2Z.id, Hr. simpl.
  unfold matchRec. rewrite Hf. done.
Qed.

Lemma scan_all_rest w this page pre x rest :
  p_filter this = None ->
  cur_page w this = Some page -> Page_getNextPage page = -1 ->
  live_ix (pg_slots page) = pre ++ x :: rest ->
  curRec this = mkRID (pg_curPage page) (Z.of_nat x) ->
  scan_all (S (length rest)) w this =
  ((λ i, mkRID (pg_curPage page) (Z.of_nat i)) <$> rest, Some FILEEOF).
Proof.
  revert this pre x.
  induction rest as [|y rest IH]; intros this pre x Hf Hp Hn Hl Hc;
    rewrite scan_all_S, (scanNext_no_filter _ _ _ _ _ _ Hf Hp Hn Hl Hc).
  - done.
  - rewrite decide_True by done. cbn [length].
    rewrite (IH _ (pre ++ [x]) y); try done.
    by rewrite <- app_assoc.
Qed.

(** X13.  A scan without a filter, started on a page that has no successor
    with the cursor before the first record, visits the live records of the
    page in the order of their slots, each once, and then returns [FILEEOF].
    On a page without a live record the first call returns [INVALIDSLOTNO]
    instead. *)
Theorem scan_all_no_filter w this page :
  p_filter this = None -> curRec this = NULLRID ->
  cur_page w this = Some page -> Page_getNextPage page = -1 ->
  let live := live_ix (pg_slots page) in
  scan_all (S (length live)) w this =
  ((λ i, mkRID (pg_curPage page) (Z.of_nat i)) <$> live,
   Some (match live with [] => INVALIDSLOTNO | _ => FILEEOF end)).
Proof.
  intros Hf Hc Hp Hn live. subst live.
  rewrite scan_all_S, (scanNext_no_filter_first _ _ _ Hf Hc Hp).
  destruct (live_ix (pg_slots page)) as [|x rest] eqn:Hl; [done|].
  rewrite decide_True by done. cbn [length].
  by rewrite (scan_all_rest _ _ page [] x rest).
Qed.

(** ** deleteRecord *)

Lemma omap_as_page_insert (bs : list PageBuf) (i : nat) hb b :
  bs !! i = Some hb -> as_page hb = None -> as_page b = None ->
  omap as_page (<[i:=b]> bs) = omap as_page bs.
Proof.
  revert i. induction bs as [|x bs IH]; intros [|i] H Hx Hb; simplify_eq/=.
  - by rewrite Hx, Hb.
  - by rewrite (IH _ H Hx Hb).
Qed.

Lemma as_hdr_not_page hb hdr : as_hdr hb = Some hdr -> as_page hb = None.
Proof. by destruct hb. Qed.

Lemma as_hdr_live_of hb hdr : as_hdr hb = Some hdr -> live_of hb = O.
Proof. by destruct hb. Qed.

Lemma deleteRecord_OK_live `{E : Env} w this w' this' :
  deleteRecord w this = Some (w', this', OK) ->
  live_records w' (filePtr this) + 1 = live_records w (filePtr this).
Proof.
  intros H. apply deleteRecord_effect in H
    as (Hf & Hh & ptr & page & page' & hb & hdr & Hp & Hdel & Hne & Hhb & Hhdr
        & Hb).
  simpl in *.
  assert (buf_at (buf_set (bufs w (filePtr this)) ptr (DataPage page'))
            (headerPage this) = Some hb) as Hhb'.
  { by rewrite buf_at_set, decide_False. }
  destruct (Page_deleteRecord_cases _ _ _ _ Hdel) as [[_ Hlive]|[? _]]; [|done].
  rewrite !live_records_n_live, Hb. unfold n_live.
  pose proof (sum_buf_set live_of _ _ _ (DataPage page') Hp) as H1.
  pose proof (sum_buf_set live_of _ _ _
                (HdrPage (hdr_set_recCnt (wrap_int (recCnt hdr - 1)) hdr))
                Hhb') as H2.
  rewrite (as_hdr_live_of _ _ Hhdr) in H2. simpl in *. lia.
Qed.

(** X14.  [deleteRecord] decrements [header.recCnt] and sets both dirty
    flags whatever the page layer answered.  When the page layer refused the
    delete (there is no record at [curRec]), the status is passed on and the
    data pages are as before, so that [recCnt] is one less than it was for
    the same records; when it accepted, the file has one live record less. *)
Theorem deleteRecord_counts_down `{E : Env} w this w' this' st :
  deleteRecord w this = Some (w', this', st) ->
  (∃ hdr hdr', header w this = Some hdr ∧ header w' this' = Some hdr' ∧
               recCnt hdr' = wrap_int (recCnt hdr - 1)) ∧
  curDirtyFlag this' = true ∧ hdrDirtyFlag this' = true ∧
  (st ≠ OK ->
     st = INVALIDSLOTNO ∧
     data_pages w' (filePtr this) = data_pages w (filePtr this)) ∧
  (st = OK ->
     live_records w' (filePtr this) + 1 = live_records w (filePtr this)).
Proof.
  intros H. pose proof H as H'.
  assert (curDirtyFlag this' = true ∧ hdrDirtyFlag this' = true) as [Hd1 Hd2].
  { unfold deleteRecord in H. run_ops. done. }
  apply deleteRecord_effect in H
    as (Hf & Hh & ptr & page & page' & hb & hdr & Hp & Hdel & Hne & Hhb & Hhdr
        & Hb).
  simpl in *.
  assert (buf_at (buf_set (bufs w (filePtr this)) ptr (DataPage page'))
            (headerPage this) = Some hb) as Hhb'.
  { by rewrite buf_at_set, decide_False. }
  split; [|split; [done|split; [done|split]]].
  - exists hdr. eexists. unfold header.
    rewrite Hf, Hh, !hdr_at_bufs, Hb, Hhb. simpl.
    split; [done|]. rewrite buf_at_set, decide_True, Hhb' by done. done.
  - intros Hst.
    destruct (Page_deleteRecord_cases _ _ _ _ Hdel) as [[? _]|[-> ->]]; [done|].
    split; [done|]. unfold data_pages.
    rewrite Hb, (buf_set_id _ _ _ Hp).
    apply buf_at_Some in Hhb as [H0 Hl]. unfold buf_set.
    destruct (Z.leb_spec 0 (headerPage this)); [|done].
    eapply omap_as_page_insert; [done| |done]. by eapply as_hdr_not_page.
  - intros ->. by eapply deleteRecord_OK_live.
Qed.

(** On the new file "t9" a scan calls [deleteRecord] before any
    [scanNext]: there is no current record, the status is [INVALIDSLOTNO]
    and [getRecCnt] then returns -1 for the empty file. *)
Lemma deleteRecord_counts_down_witness :
  ∃ w1 w2 scan w3 scan3,
    createHeapFile (E:=spec_env) (empty_world 8) "t9" = Some (w1, OK) ∧
    HeapFileScan_ctor w1 "t9" raw_object OK = Some (w2, scan, OK) ∧
    getRecCnt w2 scan = Some 0 ∧
    deleteRecord (E:=spec_env) w2 scan = Some (w3, scan3, INVALIDSLOTNO) ∧
    getRecCnt w3 scan3 = Some (-1) ∧
    live_records w3 "t9" = 0 ∧
    ((∃ hdr hdr', header w2 scan = Some hdr ∧ header w3 scan3 = Some hdr' ∧
                  recCnt hdr' = wrap_int (recCnt hdr - 1)) ∧
     curDirtyFlag scan3 = true ∧ hdrDirtyFlag scan3 = true ∧
     (INVALIDSLOTNO ≠ OK ->
        INVALIDSLOTNO = INVALIDSLOTNO ∧
        data_pages w3 (filePtr scan) = data_pages w2 (filePtr scan)) ∧
     (INVALIDSLOTNO = OK ->
        live_records w3 (filePtr scan) + 1 = live_records w2 (filePtr scan))).
Proof.
  eexists _, _, _, _, _. do 3 (split; [ev|]).
  match goal with |- ?A ∧ _ => assert A as H by ev; split; [exact H|] end.
  do 2 (split; [ev|]).
  exact (deleteRecord_counts_down (E:=spec_env) _ _ _ _ _ H).
Defined.

(** ** Deleting the record a scan found *)

(** X15.  After a call of [scanNext] that returned [OK], [deleteRecord]
    deletes the record the scan found: it returns [OK], the file has one
    live record less, the cursor stays where it is, and the scan's
    [getRecord] then finds no record there.  The handle's header pointer
    must point to the header page. *)
Theorem deleteRecord_after_scanNext `{E : Env} fuel w this outRid nextRid
  w1 this1 outRid1 hdr :
  scanNext fuel w this outRid nextRid = Some (Some (w1, this1, OK, outRid1)) ->
  header w1 this1 = Some hdr ->
  ∃ w2 this2,
    deleteRecord w1 this1 = Some (w2, this2, OK) ∧
    curRec this2 = curRec this1 ∧
    (∀ rec0, HeapFileScan_getRecord w2 this2 rec0 = Some (INVALIDSLOTNO, rec0)) ∧
    live_records w2 (filePtr this1) + 1 = live_records w1 (filePtr this1).
Proof.
  unfold scanNext. intros H Hh.
  destruct (scanNext_loop _ _ _ _ _) as [[[[w0 this0] st0]|]|] eqn:Hl;
    simplify_eq/=.
  apply scanNext_loop_found in Hl as (page & rec & Hp & Hg & _).
  unfold Page_getRecord in Hg.
  destruct (slot_at page (slotNo (curRec this1))) as [r|] eqn:Hs; [|done].
  clear Hg rec.
  unfold cur_page in Hp. destruct (curPage this1) as [ptr|] eqn:Hptr; [|done].
  simpl in Hp.
  assert (ptr ≠ headerPage this1) as Hne.
  { intros ->. unfold header in Hh. rewrite hdr_at_bufs in Hh.
    rewrite page_at_bufs in Hp. apply bind_as_page in Hp.
    rewrite Hp in Hh. done. }
  assert (∃ w2 this2, deleteRecord w1 this1 = Some (w2, this2, OK) ∧
            curRec this2 = curRec this1 ∧ curPage this2 = Some ptr ∧
            filePtr this2 = filePtr this1 ∧
            page_at w2 (filePtr this1) ptr =
              Some {| pg_curPage := pg_curPage page;
                      pg_nextPage := pg_nextPage page;
                      pg_slots := <[Z.to_nat (slotNo (curRec this1)) := None]>
                                    (pg_slots page);
                      pg_freeSpace := pg_freeSpace page
                                      + (rec_length r + SLOTSIZE) |})
    as (w2 & this2 & Hd & Hc & Hptr2 & Hf2 & Hp2).
  { unfold deleteRecord, cur_page, set_cur_page. rewrite Hptr. simpl.
    rewrite Hp. simpl. unfold Page_deleteRecord. rewrite Hs. simpl.
    unfold header, set_header in *. simpl.
    rewrite hdr_at_bufs, bufs_write_buf, buf_at_set, decide_False by done.
    rewrite hdr_at_bufs in Hh. rewrite Hh. simpl.
    eexists _, _. split; [done|]. simpl. do 3 (split; [done|]).
    rewrite page_at_bufs, !bufs_write_buf.
    rewrite buf_at_set, decide_False by done.
    rewrite buf_at_set, decide_True by done.
    rewrite page_at_bufs in Hp. apply bind_as_page in Hp. by rewrite Hp. }
  exists w2, this2. split; [done|]. split; [done|]. split.
  - intros rec0. unfold HeapFileScan_getRecord, cur_page.
    rewrite Hptr2, Hf2. simpl. rewrite Hp2. simpl.
    unfold Page_getRecord, slot_at in *. simpl. rewrite Hc.
    destruct (Z.leb_spec 0 (slotNo (curRec this1))); [|done].
    destruct (pg_slots page !! Z.to_nat (slotNo (curRec this1))) eqn:Hl;
      [|done].
    rewrite list_lookup_insert_eq by (by eapply lookup_lt_Some). done.
  - by eapply deleteRecord_OK_live.
Qed.

(** ** insertRecord: what a refused insert leaves *)

(** X16.  A record whose stated length is negative, or greater than the
    space of an empty page, is refused with [INVALIDRECLEN] before the
    handle or the buffer pool is touched: the cast to [unsigned int] turns a
    negative length into a value of 2^31 or more.  [outRid] is set to
    [NULLRID]. *)
Theorem insertRecord_rejects_bad_length `{E : Env} w this rec outRid rid :
  int_range (rec_length rec) ->
  0 <= PAGESIZE - DPFIXED < 2 ^ 31 ->
  rec_length rec < 0 ∨ PAGESIZE - DPFIXED < rec_length rec ->
  insertRecord w this rec outRid rid = Some (w, this, INVALIDRECLEN, NULLRID).
Proof.
  unfold int_range, insertRecord, to_unsigned. intros Hr Hp Hlen.
  rewrite bool_decide_eq_true_2; [done|].
  destruct (decide (0 <= rec_length rec)).
  - rewrite Z.mod_small; lia.
  - replace (rec_length rec) with (rec_length rec + 2 ^ 32 + (- 1) * 2 ^ 32)
      by lia.
    rewrite Z.mod_add by lia. rewrite Z.mod_small; lia.
Qed.

(** A record of length -1 offered to the new file "t9". *)
Lemma insertRecord_rejects_bad_length_witness :
  ∃ w1 w2 ins,
    createHeapFile (E:=spec_env) (empty_world 8) "t9" = Some (w1, OK) ∧
    InsertFileScan_ctor w1 "t9" raw_object OK = Some (w2, ins, OK) ∧
    insertRecord (E:=spec_env) w2 ins {| rec_data := []; rec_length := -1 |}
      (mkRID 7 7) (mkRID 9 9)
    = Some (w2, ins, INVALIDRECLEN, NULLRID).
Proof.
  eexists _, _, _. do 2 (split; [ev|]).
  apply (insertRecord_rejects_bad_length (E:=spec_env));
    unfold int_range; cbn; lia.
Defined.

Lemma insertRecord_fail_handle `{E : Env} w this rec outRid rid
  w' this' st outRid' :
  insertRecord w this rec outRid rid = Some (w', this', st, outRid') ->
  st ≠ OK ->
  outRid' = NULLRID ∧ curRec this' = curRec this ∧
  filePtr this' = filePtr this ∧ headerPage this' = headerPage this.
Proof.
  unfold insertRecord. intros H Hst.
  case_bool_decide as Hsize; [by simplify_eq|].
  apply bind_Some in H as ([[w1 this1] early] & Hseek & H).
  assert (curRec this1 = curRec this ∧ filePtr this1 = filePtr this ∧
          headerPage this1 = headerPage this) as (Hc1 & Hf1 & Hh1).
  { unfold insert_seek in Hseek. run_ops; done. }
  destruct early as [st1|]; [by simplify_eq|].
  apply bind_Some in H as (page & Hpage & H).
  destruct (Page_insertRecord page rec rid) as [[st1 page1] rid1] eqn:Hins.
  apply bind_Some in H as (w2 & Hw2 & H).
  apply bind_Some in H as ([[[w3 this3] newRec] early] & Hmid & H).
  destruct early as [st3|].
  - simplify_eq.
    destruct (Page_insertRecord_cases _ _ _ _ _ _ Hins)
      as [[-> _]|(-> & -> & ->)].
    + rewrite decide_False in Hmid by done.
      rewrite decide_False in Hmid by auto. done.
    + rewrite decide_True in Hmid by done.
      apply bind_Some in Hmid as ([[w4 this4] e4] & Hg & ?). simplify_eq.
      apply insert_grow_early in Hg as [_ ->]. done.
  - apply bind_Some in H as ([w5 rid5] & _ & H).
    apply bind_Some in H as (hdr5 & _ & H). by simplify_eq.
Qed.

(** X17.  A call of [insertRecord] that does not return [OK] has stored
    nothing: the pages of the file, and with them [header.recCnt], are as
    before, the cursor [curRec] is as before, and [outRid] holds [NULLRID]. *)
Theorem insertRecord_failure_stores_nothing `{E : Env} w this rec outRid rid
  w' this' st outRid' :
  insertRecord w this rec outRid rid = Some (w', this', st, outRid') ->
  st ≠ OK ->
  outRid' = NULLRID ∧ curRec this' = curRec this ∧
  bufs w' (filePtr this) = bufs w (filePtr this) ∧
  getRecCnt w' this' = getRecCnt w this.
Proof.
  intros H Hst.
  pose proof (insertRecord_fail_bufs _ _ _ _ _ _ _ _ _ H Hst) as Hb.
  destruct (insertRecord_fail_handle _ _ _ _ _ _ _ _ _ H Hst)
    as (Ho & Hc & Hf & Hh).
  do 3 (split; [done|]).
  unfold getRecCnt, header. by rewrite Hf, Hh, !hdr_at_bufs, Hb.
Qed.

(** Two inserting handles on the new file "t9" and a pool of two frames:
    the second insert of 600 bytes finds page 1 full and no frame for a new
    page. *)
Lemma insertRecord_failure_stores_nothing_witness :
  ∃ w1 w2 a w3 b w4 a4 w5 a5,
    createHeapFile (E:=spec_env) (empty_world 2) "t9" = Some (w1, OK) ∧
    InsertFileScan_ctor w1 "t9" raw_object OK = Some (w2, a, OK) ∧
    InsertFileScan_ctor w2 "t9" raw_object OK = Some (w3, b, OK) ∧
    insertRecord (E:=spec_env) w3 a (zero_record 600) NULLRID NULLRID
      = Some (w4, a4, OK, mkRID 1 0) ∧
    insertRecord (E:=spec_env) w4 a4 (zero_record 600) (mkRID 7 7) (mkRID 9 9)
      = Some (w5, a5, BUFFEREXCEEDED, NULLRID) ∧
    (NULLRID = NULLRID ∧ curRec a5 = curRec a4 ∧
     bufs w5 (filePtr a4) = bufs w4 (filePtr a4) ∧
     getRecCnt w5 a5 = getRecCnt w4 a4).
Proof.
  eexists _, _, _, _, _, _, _, _, _. do 4 (split; [ev|]).
  match goal with |- ?A ∧ _ => assert A as H by ev; split; [exact H|] end.
  apply (insertRecord_failure_stores_nothing (E:=spec_env) _ _ _ _ _ _ _ _ _ H).
  ev.
Defined.

(** ** insertRecord: where the record goes *)

Lemma insert_seek_cursor w this w' this' :
  insert_seek w this = Some (w', this', None) ->
  curRec this' = curRec this ∧
  (curPage this = Some (curPageNo this) ->
   curPage this' = Some (curPageNo this')).
Proof. unfold insert_seek. intros H. run_ops; done. Qed.

(** The cursor after a call of [insertRecord] that returned [OK]: the
    current page is the page that took the record, either the page that was
    current after the seek or the page the call added. *)
Lemma insertRecord_OK_cursor `{E : Env} w this rec outRid rid w' this' outRid' :
  insertRecord w this rec outRid rid = Some (w', this', OK, outRid') ->
  ∃ ptr page',
    curPage this' = Some ptr ∧
    buf_at (bufs w' (filePtr this)) ptr = Some (DataPage page') ∧
    (curPage this = Some (curPageNo this) -> curPageNo this' = ptr) ∧
    ((∃ page, buf_at (bufs w (filePtr this)) ptr = Some (DataPage page) ∧
              Page_insertRecord page rec rid = (OK, page', outRid')) ∨
     (∃ st2, ptr = Z.of_nat (length (bufs w (filePtr this))) ∧
             Page_insertRecord (Page_init ptr) rec rid = (st2, page', outRid'))).
Proof.
  unfold insertRecord. intros H.
  case_bool_decide as Hsize; [done|].
  apply bind_Some in H as ([[w1 this1] early] & Hseek & H).
  destruct early as [st|].
  { apply insert_seek_early in Hseek as [? ?]. by simplify_eq. }
  pose proof (insert_seek_cursor _ _ _ _ Hseek) as [Hc1 Hcur1].
  apply insert_seek_effect in Hseek as (Hb1 & Hf1 & Hh1 & Hd1 & _ & _).
  apply bind_Some in H as (page & Hpage & H).
  destruct (Page_insertRecord page rec rid) as [[st1 page1] rid1] eqn:Hins.
  apply bind_Some in H as (w2 & Hw2 & H).
  unfold cur_page, set_cur_page in *.
  apply bind_Some in Hpage as (ptr & Hptr & Hpage).
  rewrite Hptr in Hw2. simpl in Hw2. simplify_eq.
  rewrite page_at_bufs, Hb1, Hf1 in Hpage. apply bind_as_page in Hpage.
  apply bind_Some in H as ([[[w3 this3] newRec] early] & Hmid & H).
  destruct early as [st|].
  { case_decide; [|case_decide; simplify_eq; done].
    apply bind_Some in Hmid as ([[w4 this4] e4] & Hg & ?). simplify_eq.
    apply insert_grow_early in Hg as [? ?]. done. }
  apply bind_Some in H as ([w5 rid5] & Hretry & H).
  apply bind_Some in H as (hdr5 & Hhdr5 & H). simplify_eq/=.
  unfold header, set_header in *.
  destruct (Page_insertRecord_cases _ _ _ _ _ _ Hins) as [[-> Hlive]|(-> & -> & ->)].
  - (* the record went into the current page *)
    rewrite decide_False in Hmid by done. rewrite decide_False in Hmid by auto.
    simplify_eq/=.
    rewrite hdr_at_bufs, bufs_write_buf, Hb1, Hf1, Hh1 in Hhdr5.
    apply hdr_after_page_write in Hhdr5 as (Hne & hb & Hhb & Hhdr).
    exists ptr, page1. split; [done|]. split.
    { rewrite Hf1, Hh1, !bufs_write_buf, Hb1.
      rewrite buf_at_set, decide_False, buf_at_set, decide_True, Hpage by done.
      done. }
    split.
    { intros Hc. specialize (Hcur1 Hc). congruence. }
    left. by exists page.
  - (* the current page was full *)
    rewrite decide_True in Hmid by done.
    apply bind_Some in Hmid as ([[w4 this4] e4] & Hg & ?). simplify_eq.
    apply insert_grow_effect in Hg as (hb & hdr & Hhb & Hhdr & Hb4 & ->).
    simpl in *. rewrite ?Hf1, ?Hh1 in *.
    rewrite bufs_write_buf, Hb1, (buf_set_id _ _ _ Hpage) in *.
    pose proof (buf_at_lt _ _ _ Hhb) as Hlt.
    set (bs := bufs w (filePtr this)) in *.
    set (n := Z.of_nat (length bs)) in *.
    assert (Hnew : ∀ hd b, buf_at (buf_set (bs ++ [b]) (headerPage this) hd) n
                           = Some b).
    { intros hd b. rewrite buf_at_set, decide_False by lia. apply buf_at_app. }
    apply bind_Some in Hretry as (page2 & Hp2 & Hretry).
    rewrite page_at_bufs, Hb4, Hnew in Hp2. simpl in Hp2. simplify_eq.
    destruct (Page_insertRecord (Page_init n) rec rid) as [[st2 page2] rid2]
      eqn:Hins2.
    simplify_eq.
    exists n, page2. split; [done|]. split.
    { rewrite !bufs_write_buf, Hb4.
      rewrite buf_at_set, decide_False by lia.
      rewrite buf_at_set, decide_True by done.
      by rewrite Hnew. }
    split; [done|]. right. by exists st2.
Qed.

Lemma slot_at_app p p' s r x :
  pg_slots p' = pg_slots p ++ [x] -> slot_at p s = Some r -> slot_at p' s = Some r.
Proof.
  unfold slot_at. intros ->. destruct (0 <=? s); [|done].
  destruct (pg_slots p !! Z.to_nat s) as [o|] eqn:Hl; [|done].
  by rewrite (lookup_app_l_Some _ _ _ _ Hl).
Qed.

Lemma slot_at_last p p' x :
  pg_slots p' = pg_slots p ++ [x] ->
  slot_at p' (Z.of_nat (length (pg_slots p))) = x.
Proof.
  unfold slot_at. intros ->.
  destruct (Z.leb_spec 0 (Z.of_nat (length (pg_slots p)))); [|lia].
  rewrite Nat2Z.id, lookup_app_r by done. by rewrite Nat.sub_diag.
Qed.

Lemma Page_insertRecord_OK `{E : Env} p rec rid p' rid' :
  Page_insertRecord p rec rid = (OK, p', rid') ->
  pg_slots p' = pg_slots p ++ [Some rec] ∧
  pg_curPage p' = pg_curPage p ∧ pg_nextPage p' = pg_nextPage p ∧
  rid' = mkRID (pg_curPage p) (Z.of_nat (length (pg_slots p))).
Proof. unfold Page_insertRecord. case_match; intros; by simplify_eq. Qed.

(** X18.  A record that [insertRecord] accepted is read back by [getRecord]
    with the RID that [insertRecord] returned, on the same handle and
    without any traffic to the buffer pool: the page that took the record is
    the current page.  The handle's page pointer must point to the page
    [curPageNo] names, and the pages must carry their own numbers; the page
    layer is the spec's (no cost for a slot), so that the insert into a new
    page cannot fail. *)
Theorem insertRecord_then_getRecord `{E : Env} w this rec outRid rid
  w' this' outRid' rec0 :
  SLOTSIZE = 0 -> int_range (rec_length rec) ->
  curPage this = Some (curPageNo this) ->
  pages_numbered (bufs w (filePtr this)) ->
  insertRecord w this rec outRid rid = Some (w', this', OK, outRid') ->
  getRecord w' this' outRid' rec0 = Some (w', this', OK, rec).
Proof.
  intros Hslot Hr Hcur Hnum H.
  pose proof (insertRecord_OK_cursor _ _ _ _ _ _ _ _ H)
    as (ptr & page' & Hptr & Hbuf & Hno & Hcase).
  apply insertRecord_OK_effect in H as (Hf & _ & Hrec & _ & _ & Hsize & _).
  specialize (Hno Hcur).
  assert (pageNo outRid' = ptr ∧ slot_at page' (slotNo outRid') = Some rec)
    as [Hpn Hslot'].
  { destruct Hcase as [(page & Hp & Hins)|(st2 & -> & Hins)].
    - apply Page_insertRecord_OK in Hins as (Hs & _ & _ & ->). simpl.
      split; [|by apply slot_at_last].
      apply buf_at_Some in Hp as [H0 Hl].
      rewrite (Hnum _ _ Hl). lia.
    - destruct (insert_into_empty_page _ _ _ _ _ _ Hslot Hr Hsize Hins)
        as [-> _].
      apply Page_insertRecord_OK in Hins as (Hs & _ & _ & ->). simpl.
      split; [done|]. exact (slot_at_last _ _ _ Hs). }
  unfold getRecord. rewrite decide_False by (intros ?; congruence).
  simpl. rewrite Hptr. simpl.
  rewrite Hf, page_at_bufs, Hbuf. simpl.
  unfold Page_getRecord. rewrite Hslot'. simpl.
  by rewrite <- Hrec, set_curRec_same.
Qed.

(** X19.  Whatever [insertRecord] returns, every record of the file is
    afterwards at the RID where it was: an insert adds a slot at the end of
    a page or a page at the end of the file. *)
Theorem insertRecord_keeps_records `{E : Env} w this rec outRid rid
  w' this' st outRid' k p s r :
  insertRecord w this rec outRid rid = Some (w', this', st, outRid') ->
  page_at w (filePtr this) k = Some p -> slot_at p s = Some r ->
  ∃ p', page_at w' (filePtr this) k = Some p' ∧ slot_at p' s = Some r ∧
        pg_curPage p' = pg_curPage p ∧ pg_nextPage p' = pg_nextPage p.
Proof.
  intros H Hp Hs. rewrite page_at_bufs in *. apply bind_as_page in Hp.
  destruct (decide (st = OK)) as [->|Hst].
  2: { rewrite (insertRecord_fail_bufs _ _ _ _ _ _ _ _ _ H Hst), Hp. simpl.
       by exists p. }
  apply insertRecord_OK_effect in H
    as (_ & _ & _ & _ & _ & _ & ptr & page & hb & hdr & Hpage & Hne & Hhb & Hhdr
        & Hcase).
  simpl in *.
  assert (k ≠ headerPage this) as Hk.
  { intros ->. rewrite Hp in Hhb. by simplify_eq. }
  destruct Hcase as [(page' & Hins & ->)|(st2 & page2 & _ & _ & _ & ->)].
  - rewrite buf_at_set, decide_False by done.
    rewrite buf_at_set. case_decide as Hkp.
    + subst k. rewrite Hp in Hpage. simplify_eq. rewrite Hp. simpl.
      apply Page_insertRecord_OK in Hins as (Hsl & Hc & Hn & _).
      exists page'. split; [done|]. split; [|done].
      by eapply slot_at_app.
    + rewrite Hp. simpl. by exists p.
  - rewrite buf_at_set, decide_False by done.
    rewrite (buf_at_app_l _ _ _ _ Hp). simpl. by exists p.
Qed.

(** The first insert into the new file "t9", read back. *)
Lemma insertRecord_then_getRecord_witness :
  ∃ w1 w2 ins w3 ins3,
    createHeapFile (E:=spec_env) (empty_world 8) "t9" = Some (w1, OK) ∧
    InsertFileScan_ctor w1 "t9" raw_object OK = Some (w2, ins, OK) ∧
    insertRecord (E:=spec_env) w2 ins (int_record x05) NULLRID NULLRID
      = Some (w3, ins3, OK, mkRID 1 0) ∧
    getRecord w3 ins3 (mkRID 1 0) no_Record
      = Some (w3, ins3, OK, int_record x05).
Proof.
  eexists _, _, _, _, _. do 2 (split; [ev|]).
  match goal with |- ?A ∧ _ => assert A as H by ev; split; [exact H|] end.
  refine (insertRecord_then_getRecord (E:=spec_env) _ _ _ _ _ _ _ _ _ _ _ _ _ H).
  - reflexivity.
  - unfold int_range. cbn. lia.
  - ev.
  - intros i p. vm_compute. destruct i as [|[|[|i]]]; intros Hl; by simplify_eq.
Defined.

(** Two inserts into the new file "t9": the first record is at (1,0)
    before and after the second. *)
Lemma insertRecord_keeps_records_witness :
  ∃ w1 w2 ins w3 ins3 w4 ins4 p,
    createHeapFile (E:=spec_env) (empty_world 8) "t9" = Some (w1, OK) ∧
    InsertFileScan_ctor w1 "t9" raw_object OK = Some (w2, ins, OK) ∧
    insertRecord (E:=spec_env) w2 ins (int_record x05) NULLRID NULLRID
      = Some (w3, ins3, OK, mkRID 1 0) ∧
    insertRecord (E:=spec_env) w3 ins3 (int_record x07) NULLRID NULLRID
      = Some (w4, ins4, OK, mkRID 1 1) ∧
    page_at w3 (filePtr ins3) 1 = Some p ∧
    slot_at p 0 = Some (int_record x05) ∧
    ∃ p', page_at w4 (filePtr ins3) 1 = Some p' ∧
          slot_at p' 0 = Some (int_record x05) ∧
          pg_curPage p' = pg_curPage p ∧ pg_nextPage p' = pg_nextPage p.
Proof.
  eexists _, _, _, _, _, _, _, _. do 3 (split; [ev|]).
  match goal with |- ?A ∧ _ => assert A as H by ev; split; [exact H|] end.
  match goal with |- ?A ∧ _ => assert A as Hp by ev; split; [exact Hp|] end.
  match goal with |- ?A ∧ _ => assert A as Hs by ev; split; [exact Hs|] end.
  exact (insertRecord_keeps_records (E:=spec_env) _ _ _ _ _ _ _ _ _ _ _ _ _
           H Hp Hs).
Defined.

(** ** matchRec on integers and floats *)

Lemma op_on_diff_compare op_ a b : op_on_diff op_ (a - b) = compare_op op_ a b.
Proof.
  destruct op_; simpl; try done; rewrite ?Z.gtb_ltb, ?Z.geb_leb;
    repeat match goal with
      | |- context [?a <? ?b] => destruct (Z.ltb_spec a b)
      | |- context [?a <=? ?b] => destruct (Z.leb_spec a b)
      | |- context [?a =? ?b] => destruct (Z.eqb_spec a b)
      end; simpl; try done; lia.
Qed.

(** X20.  For an [INTEGER] predicate on an attribute that lies inside the
    record, [matchRec] returns the comparison of the attribute [attr] with
    the filter value [flt] that the operator stands for, provided that the
    difference [attr - flt] is an [int]; this holds whenever the two values
    have the same sign. *)
Theorem matchRec_INTEGER_compares this rec filter :
  p_filter this = Some filter -> p_type this = INTEGER ->
  int_range (p_offset this + p_length this - 1) ->
  p_offset this + p_length this <= rec_length rec ->
  let attr := memcpy_int (drop (Z.to_nat (p_offset this)) (rec_data rec))
                (p_length this) in
  let flt := memcpy_int filter (p_length this) in
  (int_range (attr - flt) ∨ 0 <= attr ∧ 0 <= flt ∨ attr < 0 ∧ flt < 0) ->
  matchRec this rec = compare_op (p_op this) attr flt.
Proof.
  intros Hf Ht Hr Hin attr flt Hd.
  assert (int_range (wrap_int (le_value (take (Z.to_nat (p_length this))
            (drop (Z.to_nat (p_offset this)) (rec_data rec))))) ∧
          int_range (wrap_int (le_value (take (Z.to_nat (p_length this))
            filter)))) as [Ha Hb].
  { unfold int_range, wrap_int. split;
      match goal with |- context [?z mod 2 ^ 32] =>
        pose proof (Z.mod_pos_bound z (2 ^ 32) ltac:(lia)) end; lia. }
  assert (int_range (attr - flt)) as Hd'.
  { unfold int_range, attr, flt, memcpy_int in *. lia. }
  rewrite (matchRec_INTEGER _ _ filter) by done.
  fold attr flt. by rewrite wrap_int_small, op_on_diff_compare.
Qed.

(** The attribute 5 against the filter value 7, both positive. *)
Lemma matchRec_INTEGER_compares_witness :
  matchRec (word_scan INTEGER LT [x07; x00; x00; x00])
    (word_record x05 x00 x00 x00)
  = compare_op LT 5 7.
Proof.
  apply (matchRec_INTEGER_compares (word_scan INTEGER LT [x07; x00; x00; x00])
           (word_record x05 x00 x00 x00) [x07; x00; x00; x00]).
  - reflexivity.
  - reflexivity.
  - vm_compute. split; congruence.
  - ev.
  - right. left. vm_compute. split; congruence.
Defined.

(** X21.  For a [FLOAT] predicate on an attribute that lies inside the
    record, [matchRec] returns the comparison of the two floats that the
    operator stands for when both are finite; the difference of two floats
    does not overflow.  When one of them is not a number, or when both are
    the same infinity, the difference is not a number: [matchRec] then
    returns [true] for [NE] and [false] for every other operator, [EQ]
    included. *)
Theorem matchRec_FLOAT_compares this rec filter :
  p_filter this = Some filter -> p_type this = FLOAT ->
  int_range (p_offset this + p_length this - 1) ->
  p_offset this + p_length this <= rec_length rec ->
  let a := memcpy_float (drop (Z.to_nat (p_offset this)) (rec_data rec))
             (p_length this) in
  let b := memcpy_float filter (p_length this) in
  (∀ x y, a = F_fin x -> b = F_fin y ->
          matchRec this rec = compare_op (p_op this) x y) ∧
  (a = F_nan ∨ b = F_nan ∨ (∃ s, a = F_inf s ∧ b = F_inf s) ->
   matchRec this rec = bool_decide (p_op this = NE)).
Proof.
  intros Hf Ht Hr Hin. cbv zeta.
  unfold matchRec. rewrite Hf, Ht.
  rewrite wrap_int_small by done.
  rewrite bool_decide_eq_false_2 by lia. cbv zeta.
  generalize (memcpy_float (drop (Z.to_nat (p_offset this)) (rec_data rec))
                (p_length this)).
  generalize (memcpy_float filter (p_length this)).
  intros b a. split.
  - intros x y -> ->. cbn [float_sub]. rewrite <- op_on_diff_compare.
    unfold op_on_diff.
    destruct (sign_of_cases (x - y)) as [[? ->]|[[? ->]|[? ->]]];
      destruct (p_op this); try done;
      rewrite ?Z.gtb_ltb, ?Z.geb_leb;
      repeat match goal with
        | |- context [?a <? ?b] => destruct (Z.ltb_spec a b)
        | |- context [?a <=? ?b] => destruct (Z.leb_spec a b)
        | |- context [?a =? ?b] => destruct (Z.eqb_spec a b)
        end; simpl; try done; lia.
  - intros Hnan.
    assert (float_sub a b = FNaN) as ->.
    { destruct Hnan as [->|[->|(s & -> & ->)]]; cbn [float_sub].
      - done.
      - by destruct a.
      - by destruct s. }
    by destruct (p_op this).
Qed.

(** The floats 1.0 and 2.0, and positive infinity twice. *)
Lemma matchRec_FLOAT_compares_witness :
  matchRec (word_scan FLOAT LT [x00; x00; x00; x40])
    (word_record x00 x00 x80 x3f) = compare_op LT (2 ^ 149) (2 ^ 150) ∧
  matchRec (word_scan FLOAT EQ [x00; x00; x80; x7f])
    (word_record x00 x00 x80 x7f) = bool_decide (EQ = NE).
Proof.
  split.
  - apply (matchRec_FLOAT_compares
             (word_scan FLOAT LT [x00; x00; x00; x40])
             (word_record x00 x00 x80 x3f) [x00; x00; x00; x40]).
    + vm_compute. reflexivity.
    + vm_compute. reflexivity.
    + vm_compute. split; congruence.
    + vm_compute. congruence.
    + vm_compute. reflexivity.
    + vm_compute. reflexivity.
  - apply (matchRec_FLOAT_compares
             (word_scan FLOAT EQ [x00; x00; x80; x7f])
             (word_record x00 x00 x80 x7f) [x00; x00; x80; x7f]).
    + vm_compute. reflexivity.
    + vm_compute. reflexivity.
    + vm_compute. split; congruence.
    + vm_compute. congruence.
    + right. right. exists false. split; vm_compute; reflexivity.
Defined.

(** ** The layout of the file *)

Lemma Page_deleteRecord_fields `{E : Env} p rid st p' :
  Page_deleteRecord p rid = (st, p') ->
  pg_curPage p' = pg_curPage p ∧ pg_nextPage p' = pg_nextPage p.
Proof.
  unfold Page_deleteRecord. destruct (slot_at p (slotNo rid)); by intros [= <- <-].
Qed.

Lemma Page_insertRecord_fields `{E : Env} p rec rid st p' rid' :
  Page_insertRecord p rec rid = (st, p', rid') ->
  pg_curPage p' = pg_curPage p ∧ pg_nextPage p' = pg_nextPage p.
Proof.
  unfold Page_insertRecord. case_match; by intros [= <- <- <-].
Qed.

Lemma step_page_update `{E : Env} name w hs w' hs' :
  step name (w, hs) (w', hs') ->
  Forall (handle_of name) hs ->
  page_update (bufs w name) (bufs w' name).
Proof.
  intros Hstep Hhs. inversion Hstep; subst; try step_handle Hhs.
  - unfold HeapFileScan_ctor in *.
    match goal with H : _ ≫= _ = Some _ |- _ =>
      apply bind_Some in H as ([[w1 this1] st1] & Hc & ?) end. simplify_eq.
    apply HeapFile_ctor_effect in Hc as (_ & Hb & _). apply update_none, Hb.
  - unfold InsertFileScan_ctor in *.
    match goal with H : HeapFile_ctor _ _ _ _ = _ |- _ =>
      apply HeapFile_ctor_effect in H as (_ & Hb & _) end.
    apply update_none, Hb.
  - apply update_none. by eapply HeapFileScan_dtor_effect.
  - apply update_none. by eapply InsertFileScan_dtor_effect.
  - match goal with H : getRecord _ _ _ _ = _ |- _ =>
      apply getRecord_effect in H as (Hb & _) end.
    apply update_none, Hb.
  - by apply update_none.
  - match goal with H : endScan _ _ = _ |- _ =>
      apply endScan_effect in H as (Hb & _) end.
    apply update_none, Hb.
  - by apply update_none.
  - match goal with H : resetScan _ _ = _ |- _ =>
      apply resetScan_effect in H as (Hb & _) end.
    apply update_none, Hb.
  - match goal with H : scanNext _ _ _ _ _ = _ |- _ =>
      apply scanNext_effect in H as (Hb & _) end.
    apply update_none, Hb.
  - match goal with H : deleteRecord _ _ = _ |- _ =>
      apply deleteRecord_effect in H
        as (_ & _ & ptr & page & page' & hb & hdr & Hp & Hd & Hn & Hhb
            & Hhdr & Hb) end.
    simpl in *. rewrite Hf, Hh in *.
    destruct (Page_deleteRecord_fields _ _ _ _ Hd) as [Hc Hn'].
    by eapply (update_page _ _ ptr page page' hb hdr
                 (hdr_set_recCnt (wrap_int (recCnt hdr - 1)) hdr)).
  - by apply update_none.
  - match goal with H : insertRecord _ _ _ _ _ = _ |- _ =>
      apply insertRecord_OK_effect in H
        as (_ & _ & _ & _ & _ & Hsize & ptr & page & hb & hdr & Hp & Hn
            & Hhb & Hhdr & Hcase) end.
    simpl in *. rewrite Hf, Hh in *.
    destruct Hcase as [(page' & Hins & Hb)|(st2 & page2 & Hfull & Hins & _ & Hb)].
    + destruct (Page_insertRecord_fields _ _ _ _ _ _ Hins) as [Hc Hn'].
      by eapply (update_page _ _ ptr page page' hb hdr
                   (hdr_set_recCnt (wrap_int (recCnt hdr + 1)) hdr)).
    + destruct (Page_insertRecord_fields _ _ _ _ _ _ Hins) as [Hc Hn'].
      by eapply (update_grow _ _ hb hdr
                   (hdr_set_recCnt (wrap_int (recCnt hdr + 1))
                      (hdr_set_pageCnt (wrap_int (pageCnt hdr + 1))
                         (hdr_set_lastPage
                            (Z.of_nat (length (bufs w name))) hdr)))
                   page2).
Qed.

Lemma buf_at_nat bs (i : nat) : buf_at bs (Z.of_nat i) = bs !! i.
Proof.
  unfold buf_at. destruct (Z.leb_spec 0 (Z.of_nat i)); [|lia].
  by rewrite Nat2Z.id.
Qed.

Lemma buf_set_lookup bs p b (i : nat) :
  buf_set bs p b !! i =
  if decide (p = Z.of_nat i) then (λ _, b) <$> bs !! i else bs !! i.
Proof.
  rewrite <- !buf_at_nat, buf_at_set. case_decide; [by subst|done].
Qed.

Lemma page_update_layout bs bs' :
  page_update bs bs' ->
  layout_ok bs ∧ pages_unlinked bs -> layout_ok bs' ∧ pages_unlinked bs'.
Proof.
  intros Hu Hinv.
  pose proof Hinv as [((hdr0 & H0 & Hfirst & Hlast & Hge) & Hdata & Hnum) Hunl].
  destruct Hu as [->
                 |ptr page page' hb hdr hdr' Hp Hc Hn Hne Hhb Hhdr Hf Hl ->
                 |hb hdr hdr' page2 Hhb Hhdr Hc Hn Hf Hl ->].
  - exact Hinv.
  - destruct (hdr_at_0 _ _ _ _ H0 Hhb Hhdr) as [-> ->].
    pose proof (lookup_lt_Some _ _ _ H0) as Hlen.
    assert (∀ i : nat, i ≠ O ->
              buf_set (buf_set bs ptr (DataPage page')) 0 (HdrPage hdr') !! i
              = if decide (ptr = Z.of_nat i) then Some (DataPage page')
                else bs !! i) as Hlook.
    { intros i Hi. rewrite buf_set_lookup, decide_False by lia.
      rewrite buf_set_lookup. case_decide; [|done].
      subst ptr. rewrite buf_at_nat in Hp. by rewrite Hp. }
    split; [split; [|split]|].
    + exists hdr'. rewrite buf_set_0_lookup by (by rewrite buf_set_length).
      rewrite !buf_set_length. split; [done|]. repeat split; congruence.
    + intros i Hi. rewrite !buf_set_length in Hi. rewrite Hlook by lia.
      case_decide; [by eexists|]. by apply Hdata.
    + intros i p Hi. destruct (decide (i = O)) as [->|Hi0].
      { rewrite buf_set_0_lookup in Hi by (by rewrite buf_set_length). done. }
      rewrite Hlook in Hi by done. case_decide; [|by apply Hnum].
      simplify_eq. rewrite Hc. rewrite buf_at_nat in Hp. by apply Hnum.
    + intros i p Hi. destruct (decide (i = O)) as [->|Hi0].
      { rewrite buf_set_0_lookup in Hi by (by rewrite buf_set_length). done. }
      rewrite Hlook in Hi by done. case_decide; [|by eapply Hunl].
      simplify_eq. rewrite Hn. rewrite buf_at_nat in Hp. by eapply Hunl.
  - destruct (hdr_at_0 _ _ _ _ H0 Hhb Hhdr) as [-> ->].
    pose proof (lookup_lt_Some _ _ _ H0) as Hlen.
    assert (∀ i : nat, i ≠ O ->
              buf_set (bs ++ [DataPage page2]) 0 (HdrPage hdr') !! i
              = if decide (i = length bs) then Some (DataPage page2)
                else bs !! i) as Hlook.
    { intros i Hi. rewrite buf_set_lookup, decide_False by lia.
      rewrite <- buf_at_nat, buf_at_snoc, buf_at_nat.
      repeat case_decide; try done; lia. }
    split; [split; [|split]|].
    + exists hdr'. rewrite buf_set_0_lookup by (rewrite length_app; lia).
      rewrite buf_set_length, length_app. simpl.
      split; [done|]. split; [congruence|]. split; lia.
    + intros i Hi. rewrite buf_set_length, length_app in Hi. simpl in Hi.
      rewrite Hlook by lia. case_decide; [by eexists|]. apply Hdata. lia.
    + intros i p Hi. destruct (decide (i = O)) as [->|Hi0].
      { rewrite buf_set_0_lookup in Hi by (rewrite length_app; lia). done. }
      rewrite Hlook in Hi by done. case_decide; [|by apply Hnum].
      by simplify_eq.
    + intros i p Hi. destruct (decide (i = O)) as [->|Hi0].
      { rewrite buf_set_0_lookup in Hi by (rewrite length_app; lia). done. }
      rewrite Hlook in Hi by done. case_decide; [|by eapply Hunl].
      by simplify_eq.
Qed.

Lemma createHeapFile_OK_layout `{E : Env} w name w' :
  createHeapFile w name = Some (w', OK) ->
  layout_ok (bufs w' name) ∧ pages_unlinked (bufs w' name).
Proof.
  intros H. apply createHeapFile_OK_bufs in H. rewrite H.
  split; [split; [|split]|].
  - eexists. split; [done|]. simpl. repeat split; lia.
  - intros i Hi. simpl in Hi. assert (i = 1%nat) as -> by lia. by eexists.
  - intros [|[|i]] p Hi; by simplify_eq/=.
  - intros [|[|i]] p Hi; by simplify_eq/=.
Qed.

Lemma any_step_page_update `{E : Env} name w hs w' hs' :
  any_step name (w, hs) (w', hs') ->
  bufs w name ≠ [] ->
  Forall (handle_of name) hs ->
  page_update (bufs w name) (bufs w' name) ∧ Forall (handle_of name) hs'.
Proof.
  intros Hstep Hne Hhs.
  inversion Hstep as [s s' Hs|? ? i this rec outRid rid ? this' st outRid'
                        Hi Hop Hst|? ? i this ? this' st Hi Hop Hst]; subst.
  - split; [by eapply step_page_update|].
    by destruct (step_change _ _ _ _ _ Hs Hne Hhs).
  - pose proof (Forall_lookup_1 _ _ _ _ Hhs Hi) as [Hf Hh].
    pose proof (insertRecord_fail_bufs _ _ _ _ _ _ _ _ _ Hop Hst) as Hb.
    destruct (insertRecord_fail_handle _ _ _ _ _ _ _ _ _ Hop Hst)
      as (_ & _ & Hf' & Hh').
    rewrite Hf in Hb. split; [by apply update_none|same_handle].
  - pose proof (Forall_lookup_1 _ _ _ _ Hhs Hi) as [Hf Hh].
    apply deleteRecord_effect in Hop
      as (Hf' & Hh' & ptr & page & page' & hb & hdr & Hp & Hd & Hn & Hhb
          & Hhdr & Hb).
    simpl in *. rewrite Hf, Hh in *.
    destruct (Page_deleteRecord_fields _ _ _ _ Hd) as [Hc Hn'].
    split; [|same_handle].
    by eapply (update_page _ _ ptr page page' hb hdr
                 (hdr_set_recCnt (wrap_int (recCnt hdr - 1)) hdr)).
Qed.

Lemma reachable_layout `{E : Env} w0 name w1 w hs :
  createHeapFile w0 name = Some (w1, OK) ->
  rtc (any_step name) (w1, []) (w, hs) ->
  layout_ok (bufs w name) ∧ pages_unlinked (bufs w name).
Proof.
  intros Hc. revert w hs.
  cut (∀ s, rtc (any_step name) (w1, []) s ->
            (layout_ok (bufs s.1 name) ∧ pages_unlinked (bufs s.1 name)) ∧
            Forall (handle_of name) s.2).
  { intros H w hs Hr. apply (H (w, hs) Hr). }
  apply (rtc_ind_r (λ s, (layout_ok (bufs s.1 name) ∧
                          pages_unlinked (bufs s.1 name)) ∧
                         Forall (handle_of name) s.2)); simpl.
  - split; [exact (createHeapFile_OK_layout _ _ _ Hc)|done].
  - intros [w2 hs2] [w3 hs3] Hr Hstep [IH Hhs]. simpl in *.
    assert (bufs w2 name ≠ []) as Hne.
    { destruct IH as [((hdr & H0 & _) & _) _]. by destruct (bufs w2 name). }
    destruct (any_step_page_update _ _ _ _ _ Hstep Hne Hhs) as [Hu Hhs'].
    split; [|done]. by eapply page_update_layout.
Qed.

(** X22.  In every state that a sequence of operations reaches after
    [createHeapFile], whatever the operations returned, page 0 of the file
    is the header page, whose [firstPage] is 1 and whose [lastPage] is the
    highest page number of the file, and every other page is a data page
    that carries its own page number. *)
Theorem file_layout_invariant `{E : Env} w0 name w1 w hs :
  createHeapFile w0 name = Some (w1, OK) ->
  rtc (any_step name) (w1, []) (w, hs) ->
  layout_ok (bufs w name).
Proof. intros Hc Hr. by destruct (reachable_layout _ _ _ _ _ Hc Hr). Qed.

Lemma chain_single bs (n : nat) p :
  bs !! 1%nat = Some (DataPage p) -> pg_nextPage p = -1 ->
  chain (S (S n)) bs 1 = [1].
Proof.
  intros Hl Hn. cbn [chain]. rewrite <- (buf_at_nat bs 1) in Hl.
  change (Z.of_nat 1) with 1 in Hl. rewrite Hl. simpl.
  unfold Page_getNextPage. rewrite Hn. done.
Qed.

(** X23.  No operation links a page to another: in every state that a
    sequence of operations reaches after [createHeapFile], whatever the
    operations returned, every data page has the successor -1, however
    many pages [insertRecord] has added, and the chain of pages that starts
    at [header.firstPage] is page 1 alone. *)
Theorem pages_never_linked `{E : Env} w0 name w1 w hs :
  createHeapFile w0 name = Some (w1, OK) ->
  rtc (any_step name) (w1, []) (w, hs) ->
  pages_unlinked (bufs w name) ∧ reachable_pages w name = [1].
Proof.
  intros Hc Hr.
  destruct (reachable_layout _ _ _ _ _ Hc Hr)
    as [((hdr & H0 & Hfirst & Hlast & Hge) & Hdata & Hnum) Hunl].
  split; [done|].
  unfold reachable_pages. rewrite (file_header_bufs _ _ _ H0), Hfirst.
  destruct (Hdata 1%nat ltac:(lia)) as [p Hp].
  destruct (length (bufs w name)) as [|[|n]] eqn:Hlen; [lia|lia|].
  eapply chain_single; [done|]. by eapply Hunl.
Qed.

(** ** Witnesses *)

(** A pool of one frame: the header page is allocated, the data page is
    not. *)
Lemma createHeapFile_pool_full_witness :
  ∃ w' f w'',
    createHeapFile (E:=spec_env) (empty_world 1) "t9"
      = Some (w', BUFFEREXCEEDED) ∧
    db w' !! "t9" = Some f ∧ f_openCnt f = 1%nat ∧
    (length (f_frames f) <= 1)%nat ∧
    pinned_in f = length (f_frames f) ∧
    createHeapFile (E:=spec_env) w' "t9" = Some (w'', FILEEXISTS).
Proof.
  apply (createHeapFile_pool_full (E:=spec_env) (empty_world 1) "t9").
  - vm_compute. congruence.
  - reflexivity.
  - vm_compute. lia.
Defined.

(** [createHeapFile] and then [destroyHeapFile] of the same name. *)
Lemma createHeapFile_leaves_file_open_witness :
  ∃ w1,
    createHeapFile (E:=spec_env) (empty_world 8) "t9" = Some (w1, OK) ∧
    open_count w1 "t9" = 1%nat ∧
    destroyHeapFile w1 "t9" = (FILEOPEN, w1).
Proof.
  eexists.
  match goal with |- ?A ∧ _ => assert A as H by ev; split; [exact H|] end.
  destruct (createHeapFile_leaves_file_open (E:=spec_env) _ _ _ _ H)
    as (Ho & Hd & _); [done|].
  split; [exact Ho|exact Hd].
Defined.

(** A scan of the new file "t9", constructed and destroyed. *)
Lemma HeapFileScan_open_close_witness :
  ∃ w1 w2 scan h',
    createHeapFile (E:=spec_env) (empty_world 8) "t9" = Some (w1, OK) ∧
    HeapFileScan_ctor w1 "t9" raw_object OK = Some (w2, scan, OK) ∧
    HeapFileScan_dtor w2 scan = Some (w1, h') ∧ curPage h' = None.
Proof.
  assert (∃ w1 w2 scan,
    createHeapFile (E:=spec_env) (empty_world 8) "t9" = Some (w1, OK) ∧
    HeapFileScan_ctor w1 "t9" raw_object OK = Some (w2, scan, OK))
    as (w1 & w2 & scan & Hc & Hn).
  { eexists _, _, _. split; ev. }
  destruct (HeapFileScan_open_close _ _ _ _ _ Hn) as (h' & Hd & Hp).
  exists w1, w2, scan, h'. exact (conj Hc (conj Hn (conj Hd Hp))).
Defined.


(** Two inserts of 600 bytes through an [InsertFileScan], which grow the
    file to three pages, then an insert of a record of length -1, which is
    refused, and a [deleteRecord] on a new scan before any [scanNext],
    which fails. *)
Lemma file_layout_invariant_witness :
  ∃ w1 w hs,
    createHeapFile (E:=spec_env) (empty_world 8) "t9" = Some (w1, OK) ∧
    rtc (any_step (E:=spec_env) "t9") (w1, []) (w, hs) ∧
    length (bufs w "t9") = 3%nat ∧
    layout_ok (bufs w "t9").
Proof.
  assert (∃ w1 w hs,
    createHeapFile (E:=spec_env) (empty_world 8) "t9" = Some (w1, OK) ∧
    rtc (any_step (E:=spec_env) "t9") (w1, []) (w, hs) ∧
    length (bufs w "t9") = 3%nat)
    as (w1 & w & hs & Hc & Hr & Hl).
  { eexists _, _, _. split; [ev|]. split.
    - eapply rtc_l;
        [apply any_step_step;
         eapply (step_InsertFileScan_ctor _ _ _ raw_object); ev|]. simpl.
      eapply rtc_l;
        [apply any_step_step;
         eapply (step_insertRecord _ _ _ 0%nat _ (zero_record 600) NULLRID
                   NULLRID); [reflexivity|unfold int_range; simpl; lia|ev]|].
      simpl.
      eapply rtc_l;
        [apply any_step_step;
         eapply (step_insertRecord _ _ _ 0%nat _ (zero_record 600) NULLRID
                   NULLRID); [reflexivity|unfold int_range; simpl; lia|ev]|].
      simpl.
      eapply rtc_l;
        [eapply (any_step_insertRecord _ _ _ 0%nat _
                   {| rec_data := []; rec_length := -1 |} NULLRID NULLRID);
           [reflexivity|ev|ev]|].
      simpl.
      eapply rtc_l;
        [apply any_step_step;
         eapply (step_HeapFileScan_ctor _ _ _ raw_object); ev|]. simpl.
      eapply rtc_l;
        [eapply (any_step_deleteRecord _ _ _ 1%nat); [reflexivity|ev|ev]|].
      simpl. apply rtc_refl.
    - ev. }
  exists w1, w, hs. do 3 (split; [assumption|]).
  exact (file_layout_invariant (E:=spec_env) _ _ _ _ _ Hc Hr).
Defined.

(** The same two inserts: page 1 is not linked to page 2. *)
Lemma pages_never_linked_witness :
  ∃ w1 w hs,
    createHeapFile (E:=spec_env) (empty_world 8) "t9" = Some (w1, OK) ∧
    rtc (any_step (E:=spec_env) "t9") (w1, []) (w, hs) ∧
    length (data_pages w "t9") = 2%nat ∧
    pages_unlinked (bufs w "t9") ∧ reachable_pages w "t9" = [1].
Proof.
  assert (∃ w1 w hs,
    createHeapFile (E:=spec_env) (empty_world 8) "t9" = Some (w1, OK) ∧
    rtc (any_step (E:=spec_env) "t9") (w1, []) (w, hs) ∧
    length (data_pages w "t9") = 2%nat)
    as (w1 & w & hs & Hc & Hr & Hl).
  { eexists _, _, _. split; [ev|]. split.
    - eapply rtc_l;
        [apply any_step_step;
         eapply (step_InsertFileScan_ctor _ _ _ raw_object); ev|]. simpl.
      eapply rtc_l;
        [apply any_step_step;
         eapply (step_insertRecord _ _ _ 0%nat _ (zero_record 600) NULLRID
                   NULLRID); [reflexivity|unfold int_range; simpl; lia|ev]|].
      simpl.
      eapply rtc_l;
        [apply any_step_step;
         eapply (step_insertRecord _ _ _ 0%nat _ (zero_record 600) NULLRID
                   NULLRID); [reflexivity|unfold int_range; simpl; lia|ev]|].
      simpl. apply rtc_refl.
    - ev. }
  exists w1, w, hs. do 3 (split; [assumption|]).
  exact (pages_never_linked (E:=spec_env) _ _ _ _ _ Hc Hr).
Defined.

(** Three records on page 1, of which a first scan deletes the second; a
    second scan without a filter then visits (1,0) and (1,2). *)
Lemma scan_all_no_filter_witness :
  ∃ w1 w2 ins w3 ins3 w4 ins4 w5 ins5 w6 ins6 w7 a w8 a8 w9 a9 w10 a10
    w11 a11 w12 scan page,
    createHeapFile (E:=spec_env) (empty_world 8) "t9" = Some (w1, OK) ∧
    InsertFileScan_ctor w1 "t9" raw_object OK = Some (w2, ins, OK) ∧
    insertRecord (E:=spec_env) w2 ins (int_record x05) NULLRID NULLRID
      = Some (w3, ins3, OK, mkRID 1 0) ∧
    insertRecord (E:=spec_env) w3 ins3 (int_record x06) NULLRID NULLRID
      = Some (w4, ins4, OK, mkRID 1 1) ∧
    insertRecord (E:=spec_env) w4 ins4 (int_record x07) NULLRID NULLRID
      = Some (w5, ins5, OK, mkRID 1 2) ∧
    InsertFileScan_dtor w5 ins5 = Some (w6, ins6) ∧
    HeapFileScan_ctor w6 "t9" raw_object OK = Some (w7, a, OK) ∧
    scanNext 1 w7 a NULLRID NULLRID = Some (Some (w8, a8, OK, NULLRID)) ∧
    scanNext 1 w8 a8 NULLRID NULLRID = Some (Some (w9, a9, OK, NULLRID)) ∧
    deleteRecord (E:=spec_env) w9 a9 = Some (w10, a10, OK) ∧
    HeapFileScan_dtor w10 a10 = Some (w11, a11) ∧
    HeapFileScan_ctor w11 "t9" raw_object OK = Some (w12, scan, OK) ∧
    cur_page w12 scan = Some page ∧
    live_ix (pg_slots page) = [0; 2]%nat ∧
    (let live := live_ix (pg_slots page) in
     scan_all (S (length live)) w12 scan =
     ((λ i, mkRID (pg_curPage page) (Z.of_nat i)) <$> live,
      Some (match live with [] => INVALIDSLOTNO | _ => FILEEOF end))) ∧
    scan_all 3 w12 scan = ([mkRID 1 0; mkRID 1 2], Some FILEEOF).
Proof.
  eexists _, _, _, _, _, _, _, _, _, _, _, _, _, _, _, _, _, _, _, _, _, _,
    _, _.
  do 12 (split; [ev|]).
  match goal with |- ?A ∧ _ => assert A as Hp by ev; split; [exact Hp|] end.
  split; [ev|].
  split; [|ev].
  apply (scan_all_no_filter _ _ _); [ev|ev|exact Hp|ev].
Defined.

(** A scan of a file with one record finds the record and deletes it. *)
Lemma deleteRecord_after_scanNext_witness :
  ∃ w1 w2 ins w3 ins3 w4 ins4 w5 scan w6 scan6 hdr w7 scan7,
    createHeapFile (E:=spec_env) (empty_world 8) "t9" = Some (w1, OK) ∧
    InsertFileScan_ctor w1 "t9" raw_object OK = Some (w2, ins, OK) ∧
    insertRecord (E:=spec_env) w2 ins (int_record x05) NULLRID NULLRID
      = Some (w3, ins3, OK, mkRID 1 0) ∧
    InsertFileScan_dtor w3 ins3 = Some (w4, ins4) ∧
    HeapFileScan_ctor w4 "t9" raw_object OK = Some (w5, scan, OK) ∧
    scanNext 1 w5 scan NULLRID NULLRID = Some (Some (w6, scan6, OK, NULLRID)) ∧
    header w6 scan6 = Some hdr ∧
    deleteRecord (E:=spec_env) w6 scan6 = Some (w7, scan7, OK) ∧
    live_records w6 "t9" = 1 ∧ live_records w7 "t9" = 0 ∧
    ∃ w2' this2,
      deleteRecord (E:=spec_env) w6 scan6 = Some (w2', this2, OK) ∧
      curRec this2 = curRec scan6 ∧
      (∀ rec0, HeapFileScan_getRecord w2' this2 rec0
               = Some (INVALIDSLOTNO, rec0)) ∧
      live_records w2' (filePtr scan6) + 1 = live_records w6 (filePtr scan6).
Proof.
  eexists _, _, _, _, _, _, _, _, _, _, _, _, _, _.
  do 5 (split; [ev|]).
  match goal with |- ?A ∧ _ => assert A as H by ev; split; [exact H|] end.
  match goal with |- ?A ∧ _ => assert A as Hh by ev; split; [exact Hh|] end.
  do 3 (split; [ev|]).
  exact (deleteRecord_after_scanNext (E:=spec_env) _ _ _ _ _ _ _ _ _ H Hh).
Defined.

